(** * Hunter vs Hunted: the position relay (worker.js) and the client's
      visibility and outcome engine (app.js)

    Modelling conventions.
    - A JavaScript number is a real number ([R]): coordinates, distances
      and millisecond instants ([Date.now()]).  The rounding, the NaN and
      the infinities of IEEE doubles are outside the model: what is proved
      of [calculateDistance] is proved of the value in exact arithmetic,
      which the engine computes up to rounding.  The counter of the rate
      limiter, a small integer, is a [Z].
    - A JavaScript string is a [string]; [toUpperCase] acts on the ASCII
      letters and [trim] on the ASCII white space.
    - A value that may be [null] or [undefined] is an [option].
    - A JavaScript [Map] is an association list in insertion order with
      one entry per key.  So are the own properties of the plain object
      [otherMarkers]; a lookup in it also finds what every object inherits
      from [Object.prototype].
    - A call that throws returns [Throw] with the state it leaves behind.
    - The globals of each script are an explicit state record that every
      function takes and returns; [Date.now()] is a parameter [now], read
      once per call of a handler or callback. *)

From Stdlib Require Import Reals Lra Lia ZArith List String Ascii Bool.
From Stdlib Require Import DecimalString.
Import ListNotations.

Local Open Scope string_scope.
Local Open Scope list_scope.
Local Open Scope R_scope.

(** ** Comparisons of JavaScript numbers *)

Definition Rltb (x y : R) : bool := if Rlt_dec x y then true else false.
Definition Rleb (x y : R) : bool := if Rle_dec x y then true else false.
Definition Rgtb (x y : R) : bool := Rltb y x.
Definition Rgeb (x y : R) : bool := Rleb y x.
Definition Reqb (x y : R) : bool := if Req_dec_T x y then true else false.

Arguments Rltb : simpl never.
Arguments Rleb : simpl never.
Arguments Rgtb : simpl never.
Arguments Rgeb : simpl never.
Arguments Reqb : simpl never.

(** ** Insertion-ordered maps with string keys *)

Module JsMap.

Section Ops.
Context {V : Type}.

Definition t := list (string * V).

Definition empty : t := [].

Fixpoint get (k : string) (m : t) : option V :=
  match m with
  | [] => None
  | (k', v) :: m' => if String.eqb k k' then Some v else get k m'
  end.

Definition has (k : string) (m : t) : bool :=
  match get k m with Some _ => true | None => false end.

(** [m.set(k, v)]: an existing key keeps its place, a new one goes last. *)
Fixpoint set (k : string) (v : V) (m : t) : t :=
  match m with
  | [] => [(k, v)]
  | (k', v') :: m' =>
      if String.eqb k k' then (k', v) :: m' else (k', v') :: set k v m'
  end.

Definition delete (k : string) (m : t) : t :=
  filter (fun e => negb (String.eqb k (fst e))) m.

Definition keys (m : t) : list string := map fst m.
Definition values (m : t) : list V := map snd m.
Definition entries (m : t) : list (string * V) := m.
Definition size (m : t) : nat := List.length m.

(** One entry per key. *)
Definition wf (m : t) : Prop := NoDup (keys m).

End Ops.

Arguments t : clear implicits.

End JsMap.

(** ** Strings *)

Definition upper_ascii (c : ascii) : ascii :=
  let n := nat_of_ascii c in
  if (97 <=? n)%nat && (n <=? 122)%nat then ascii_of_nat (n - 32) else c.

(** [s.toUpperCase()] *)
Fixpoint toUpperCase (s : string) : string :=
  match s with
  | EmptyString => EmptyString
  | String c s' => String (upper_ascii c) (toUpperCase s')
  end.

(** White space at the ends of a string, for [trim]: tab, line feed,
    vertical tab, form feed, carriage return and space. *)
Definition isWhiteSpace (c : ascii) : bool :=
  let n := nat_of_ascii c in
  ((9 <=? n)%nat && (n <=? 13)%nat) || (n =? 32)%nat.

Fixpoint trimStart (s : string) : string :=
  match s with
  | EmptyString => EmptyString
  | String c s' => if isWhiteSpace c then trimStart s' else s
  end.

Fixpoint trimEnd (s : string) : string :=
  match s with
  | EmptyString => EmptyString
  | String c s' =>
      match trimEnd s' with
      | EmptyString =>
          if isWhiteSpace c then EmptyString else String c EmptyString
      | t => String c t
      end
  end.

(** [s.trim()] *)
Definition trim (s : string) : string := trimEnd (trimStart s).

(** [s.slice(0, n)] *)
Definition slice0 (n : nat) (s : string) : string := substring 0 n s.

(** [xs.includes(x)] on strings *)
Definition includes (xs : list string) (x : string) : bool :=
  existsb (String.eqb x) xs.

(** Truthiness of a string that may be null. *)
Definition truthy (s : option string) : bool :=
  match s with
  | Some s' => negb (String.eqb s' "")
  | None => false
  end.

(** * The position relay: worker.js *)

Module Worker.

Module CONFIG.
Definition MAX_POSITION_AGE : R := 15 * 60 * 1000.
Definition RATE_LIMIT : Z := 60.
Definition ALLOWED_ORIGINS : list string := ["https://philoutram.github.io"].
End CONFIG.

(** The record kept per player. *)
Record PlayerData : Type := mkPlayerData {
  playerId : string;
  playerName : string;
  role : string;
  gameCode : string;
  lat : R;
  lon : R;
  accuracy : R;
  timestamp : R
}.

(** An entry of [rateLimitMap]. *)
Record Limit : Type := mkLimit {
  count : Z;
  resetTime : R
}.

(** The two global maps: [gameData] maps a game code to the map from
    player id to player data, [rateLimitMap] maps a source address to its
    window. *)
Record State : Type := mkState {
  gameData : JsMap.t (JsMap.t PlayerData);
  rateLimitMap : JsMap.t Limit
}.

Definition initial : State := mkState JsMap.empty JsMap.empty.

(** The JSON body of [POST /updateLocation] as the client sends it: strings
    for the identifiers and the role, numbers for the rest; a field that is
    absent or [null] is [None].  The handler tests the type of [lat] and
    [lon] and converts the identifiers with [String]; it tests neither the
    type of [timestamp] nor that of [accuracy], and a body that holds
    something else than a number there is not a value of this type. *)
Record Data : Type := mkData {
  data_playerId : option string;
  data_playerName : option string;
  data_role : option string;
  data_gameCode : option string;
  data_lat : option R;
  data_lon : option R;
  data_accuracy : option R;
  data_timestamp : option R
}.

Inductive Body : Type :=
| NoBody
| ErrorBody (error : string)
| UpdatedBody (playerCount : nat)
| LocationsBody (locations : list PlayerData) (count : nat)
| HealthBody (activeGames : nat).

Record Response : Type := mkResponse {
  status : Z;
  allowOrigin : string;
  body : Body
}.

Record Request : Type := mkRequest {
  method : string;
  pathname : string;
  origin : option string;        (* header Origin *)
  connectingIP : option string;  (* header CF-Connecting-IP *)
  queryGameCode : option string; (* search parameter gameCode *)
  json : option Data             (* the parsed body; None when parsing throws *)
}.

(** The Access-Control-Allow-Origin header of [getCorsHeaders]. *)
Definition getCorsHeaders (origin : option string) : string :=
  match origin with
  | Some o =>
      if includes CONFIG.ALLOWED_ORIGINS o then o
      else hd "" CONFIG.ALLOWED_ORIGINS
  | None => hd "" CONFIG.ALLOWED_ORIGINS
  end.

Definition jsonResponse (data : Body) (status : Z) (origin : option string)
  : Response :=
  mkResponse status (getCorsHeaders origin) data.

Definition checkRateLimit (now : R) (ip : string) (rl : JsMap.t Limit)
  : bool * JsMap.t Limit :=
  match JsMap.get ip rl with
  | None => (true, JsMap.set ip (mkLimit 1 (now + 60000)) rl)
  | Some limit =>
      (* Reset if time window passed *)
      if Rgtb now (resetTime limit) then
        (true, JsMap.set ip (mkLimit 1 (now + 60000)) rl)
      (* Check limit *)
      else if (count limit >=? CONFIG.RATE_LIMIT)%Z then (false, rl)
      else (true, JsMap.set ip (mkLimit (count limit + 1) (resetTime limit)) rl)
  end.

(** The inner loop of [cleanOldData]: deletes the old records of one game. *)
Definition cleanPlayers (cutoff : R) (players : JsMap.t PlayerData)
  : JsMap.t PlayerData :=
  fold_left
    (fun ps e =>
       if Rltb (timestamp (snd e)) cutoff then JsMap.delete (fst e) ps else ps)
    (JsMap.entries players) players.

(** The loop of [cleanOldData] over the games; the inner map is mutated in
    place, so the game keeps its position unless it is removed. *)
Definition cleanGames (cutoff : R) (gd : JsMap.t (JsMap.t PlayerData))
  : JsMap.t (JsMap.t PlayerData) :=
  fold_left
    (fun g e =>
       let players := cleanPlayers cutoff (snd e) in
       if (JsMap.size players =? 0)%nat then JsMap.delete (fst e) g
       else JsMap.set (fst e) players g)
    (JsMap.entries gd) gd.

Definition cleanLimits (now : R) (rl : JsMap.t Limit) : JsMap.t Limit :=
  fold_left
    (fun m e =>
       if Rgtb now (resetTime (snd e)) then JsMap.delete (fst e) m else m)
    (JsMap.entries rl) rl.

Definition cleanOldData (now : R) (st : State) : State :=
  let cutoff := now - CONFIG.MAX_POSITION_AGE in
  mkState (cleanGames cutoff (gameData st)) (cleanLimits now (rateLimitMap st)).

(** A required field: the request is answered 400 when it is missing. *)
Definition required {A : Type} (st : State) (origin : option string)
    (field : string) (v : option A) (k : A -> State * Response)
  : State * Response :=
  match v with
  | Some a => k a
  | None =>
      (st, jsonResponse (ErrorBody ("Missing required field: " ++ field)%string)
             400 origin)
  end.

Definition handleUpdateLocation (st : State) (json : option Data)
    (origin : option string) : State * Response :=
  match json with
  | None => (st, jsonResponse (ErrorBody "Invalid request data") 400 origin)
  | Some data =>
      (* Validate required fields *)
      required st origin "playerId" (data_playerId data) (fun d_playerId =>
      required st origin "playerName" (data_playerName data) (fun d_playerName =>
      required st origin "role" (data_role data) (fun d_role =>
      required st origin "gameCode" (data_gameCode data) (fun d_gameCode =>
      required st origin "lat" (data_lat data) (fun d_lat =>
      required st origin "lon" (data_lon data) (fun d_lon =>
      required st origin "timestamp" (data_timestamp data) (fun d_timestamp =>
      (* Validate data types and ranges *)
      if Rltb d_lat (-90) || Rgtb d_lat 90 then
        (st, jsonResponse (ErrorBody "Invalid latitude") 400 origin)
      else if Rltb d_lon (-180) || Rgtb d_lon 180 then
        (st, jsonResponse (ErrorBody "Invalid longitude") 400 origin)
      else if negb (includes ["hunter"; "hunted"] d_role) then
        (st, jsonResponse (ErrorBody "Invalid role") 400 origin)
      else
        (* Sanitize inputs *)
        let gameCode := slice0 10 (toUpperCase d_gameCode) in
        let playerId := slice0 50 d_playerId in
        let playerName := slice0 20 d_playerName in
        (* Get or create game *)
        let gd :=
          if negb (JsMap.has gameCode (gameData st))
          then JsMap.set gameCode JsMap.empty (gameData st)
          else gameData st in
        let game :=
          match JsMap.get gameCode gd with
          | Some g => g
          | None => JsMap.empty
          end in
        (* Store player data *)
        let game' :=
          JsMap.set playerId
            (mkPlayerData playerId playerName d_role gameCode d_lat d_lon
               (match data_accuracy data with
                | Some a => if Reqb a 0 then 0 else a
                | None => 0
                end)
               d_timestamp)
            game in
        (mkState (JsMap.set gameCode game' gd) (rateLimitMap st),
         jsonResponse (UpdatedBody (JsMap.size game')) 200 origin))))))))
  end.

Definition handleGetLocations (st : State) (gameCode : option string)
    (origin : option string) : State * Response :=
  if negb (truthy gameCode) then
    (st, jsonResponse (ErrorBody "Missing gameCode parameter") 400 origin)
  else
    let sanitizedGameCode :=
      slice0 10 (toUpperCase (match gameCode with Some c => c | None => "" end)) in
    match JsMap.get sanitizedGameCode (gameData st) with
    | None => (st, jsonResponse (LocationsBody [] 0) 200 origin)
    | Some game =>
        let locations := JsMap.values game in
        (st, jsonResponse (LocationsBody locations (List.length locations))
               200 origin)
    end.

Definition handleOptions (origin : option string) : Response :=
  mkResponse 204 (getCorsHeaders origin) NoBody.

Definition handleNotFound (origin : option string) : Response :=
  jsonResponse (ErrorBody "Endpoint not found") 404 origin.

(** [request.headers.get('CF-Connecting-IP') || 'unknown'] *)
Definition clientIP (request : Request) : string :=
  match connectingIP request with
  | Some a => if String.eqb a "" then "unknown" else a
  | None => "unknown"
  end.

(** The routes of [handleRequest]. *)
Definition route (st : State) (request : Request) : State * Response :=
  let origin := origin request in
  let path := pathname request in
  if String.eqb path "/updateLocation" && String.eqb (method request) "POST"
  then handleUpdateLocation st (json request) origin
  else if String.eqb path "/locations" && String.eqb (method request) "GET"
  then handleGetLocations st (queryGameCode request) origin
  else if String.eqb path "/" || String.eqb path "/health"
  then (st, jsonResponse (HealthBody (JsMap.size (gameData st))) 200 origin)
  else (st, handleNotFound origin).

(** The main request handler; [now] is the instant of receipt. *)
Definition handleRequest (now : R) (st : State) (request : Request)
  : State * Response :=
  let origin := origin request in
  (* Handle CORS preflight *)
  if String.eqb (method request) "OPTIONS" then (st, handleOptions origin)
  else
    (* Get client IP for rate limiting *)
    let ip := clientIP request in
    (* Check rate limit *)
    let (ok, rl) := checkRateLimit now ip (rateLimitMap st) in
    let st0 := mkState (gameData st) rl in
    if negb ok then
      (st0, jsonResponse
              (ErrorBody "Rate limit exceeded. Please try again later.")
              429 origin)
    else
      (* Clean old data periodically, then route requests *)
      route (cleanOldData now st0) request.

(** ** Runs of the relay *)

(** The relay answers the requests one after the other; each comes with the
    instant of its receipt.  The log pairs each request with its answer. *)
Fixpoint serve (st : State) (reqs : list (R * Request))
  : State * list (Request * Response) :=
  match reqs with
  | [] => (st, [])
  | (now, request) :: rest =>
      let (st1, response) := handleRequest now st request in
      let (st2, log) := serve st1 rest in
      (st2, (request, response) :: log)
  end.

(** The requests the rate limiter sees from a source: all but the
    preflights, which are answered before it. *)
Definition counted (ip : string) (request : Request) : bool :=
  String.eqb (clientIP request) ip &&
  negb (String.eqb (method request) "OPTIONS").

Definition throttled (response : Response) : bool := (status response =? 429)%Z.

(** For each counted request of the source in the log, in order, whether it
    was throttled. *)
Definition throttledOf (ip : string) (log : list (Request * Response))
  : list bool :=
  List.map (fun e => throttled (snd e))
    (filter (fun e => counted ip (fst e)) log).

(** ** The shape of the store *)

(** Each player of a game is stored once, under its own id. *)
Definition wfPlayers (players : JsMap.t PlayerData) : Prop :=
  JsMap.wf players /\
  forall k r, In (k, r) players -> playerId r = k.

Definition wfGameData (gd : JsMap.t (JsMap.t PlayerData)) : Prop :=
  JsMap.wf gd /\
  forall code players, In (code, players) gd -> wfPlayers players.

Definition wfState (st : State) : Prop :=
  wfGameData (gameData st) /\ JsMap.wf (rateLimitMap st).

(** ** The two halves of [handleUpdateLocation] *)

(** The record a body is stored as when it passes the validation. *)
Definition accepted (data : Data) : option PlayerData :=
  match data_playerId data, data_playerName data, data_role data,
        data_gameCode data, data_lat data, data_lon data,
        data_timestamp data with
  | Some d_playerId, Some d_playerName, Some d_role, Some d_gameCode,
    Some d_lat, Some d_lon, Some d_timestamp =>
      if Rltb d_lat (-90) || Rgtb d_lat 90 then None
      else if Rltb d_lon (-180) || Rgtb d_lon 180 then None
      else if negb (includes ["hunter"; "hunted"] d_role) then None
      else
        Some (mkPlayerData (slice0 50 d_playerId) (slice0 20 d_playerName)
                d_role (slice0 10 (toUpperCase d_gameCode)) d_lat d_lon
                (match data_accuracy data with
                 | Some a => if Reqb a 0 then 0 else a
                 | None => 0
                 end)
                d_timestamp)
  | _, _, _, _, _, _, _ => None
  end.

(** The players of a game, none when the game is unknown. *)
Definition playersOf (code : string) (gd : JsMap.t (JsMap.t PlayerData))
  : JsMap.t PlayerData :=
  match JsMap.get code gd with
  | Some g => g
  | None => JsMap.empty
  end.

(** The store after a record went in. *)
Definition stored (rec : PlayerData) (gd : JsMap.t (JsMap.t PlayerData))
  : JsMap.t (JsMap.t PlayerData) :=
  let gd1 :=
    if negb (JsMap.has (gameCode rec) gd)
    then JsMap.set (gameCode rec) JsMap.empty gd
    else gd in
  JsMap.set (gameCode rec)
    (JsMap.set (playerId rec) rec (playersOf (gameCode rec) gd1)) gd1.

(** A request that carries an update of the given player of the given
    game. *)
Definition touches (code id : string) (request : Request) : Prop :=
  exists data rec,
    json request = Some data /\ accepted data = Some rec /\
    gameCode rec = code /\ playerId rec = id.

(** The sweep of [cleanOldData] over the games, entry by entry in place of
    deletion by deletion. *)
Definition fresh (cutoff : R) (e : string * PlayerData) : bool :=
  negb (Rltb (timestamp (snd e)) cutoff).

Definition swept (cutoff : R) (gd : JsMap.t (JsMap.t PlayerData))
  : JsMap.t (JsMap.t PlayerData) :=
  filter (fun e => negb (JsMap.size (snd e) =? 0)%nat)
    (List.map (fun e => (fst e, filter (fresh cutoff) (snd e))) gd).

(** ** Requests to try the relay on *)

Definition kimAt (accuracy timestamp : R) : Data :=
  mkData (Some "p_k") (Some "Kim") (Some "hunted") (Some "game1")
    (Some 51) (Some 0) (Some accuracy) (Some timestamp).

Definition post (data : Data) : Request :=
  mkRequest "POST" "/updateLocation" None (Some "203.0.113.7") None
    (Some data).

Definition getLocations (code : string) : Request :=
  mkRequest "GET" "/locations" None (Some "203.0.113.7") (Some code) None.

(** The relay after Kim's first update, of timestamp 1000. *)
Definition kimStored : State :=
  mkState
    [("GAME1",
      [("p_k", mkPlayerData "p_k" "Kim" "hunted" "GAME1" 51 0 10 1000)])]
    [].

(** ** What the validation promises of a stored record *)

Definition validRecord (r : PlayerData) : Prop :=
  -90 <= lat r <= 90 /\
  -180 <= lon r <= 180 /\
  (role r = "hunter" \/ role r = "hunted") /\
  (String.length (gameCode r) <= 10)%nat /\
  toUpperCase (gameCode r) = gameCode r /\
  (String.length (playerId r) <= 50)%nat /\
  (String.length (playerName r) <= 20)%nat.

(** Every record of the store is valid and sits in the game of its code,
    under its own id. *)
Definition validStore (gd : JsMap.t (JsMap.t PlayerData)) : Prop :=
  forall code players id r,
    In (code, players) gd -> In (id, r) players ->
    validRecord r /\ gameCode r = code /\ playerId r = id.

(** Every window of the rate limiter has counted at least one request and
    at most RATE_LIMIT. *)
Definition validLimits (rl : JsMap.t Limit) : Prop :=
  forall ip limit,
    In (ip, limit) rl -> (1 <= count limit <= CONFIG.RATE_LIMIT)%Z.




(** A request that is not a preflight. *)
Definition notPreflight (e : R * Request) : bool :=
  negb (String.eqb (method (snd e)) "OPTIONS").

(** The locations of a list answer, none for any other answer. *)
Definition listed (response : Response) : list PlayerData :=
  match body response with
  | LocationsBody locations _ => locations
  | _ => []
  end.

(** Whether one of the routes of the API matches the request. *)
Definition isUpdate (request : Request) : bool :=
  String.eqb (pathname request) "/updateLocation" &&
  String.eqb (method request) "POST".

Definition isList (request : Request) : bool :=
  String.eqb (pathname request) "/locations" &&
  String.eqb (method request) "GET".

Definition isHealth (request : Request) : bool :=
  String.eqb (pathname request) "/" || String.eqb (pathname request) "/health".

(** The limiter has room for a request of the source at the instant: the
    source has no window, or its window has passed, or it has counted
    fewer than RATE_LIMIT requests. *)
Definition admits (now : R) (ip : string) (rl : JsMap.t Limit) : Prop :=
  match JsMap.get ip rl with
  | None => True
  | Some limit => now > resetTime limit \/ (count limit < CONFIG.RATE_LIMIT)%Z
  end.

End Worker.

(** * The client: app.js *)

Module Client.

Module CONFIG.
Definition BACKEND_URL : string :=
  "https://hunter-hunted-api.phil-outram.workers.dev/".
Definition UPDATE_INTERVAL : R := 5000.
Definition POSITION_DELAY : R := 120000.
Definition GAME_DURATION : R := 600000.
Definition CAPTURE_DISTANCE : R := 50.
Definition MAX_ACCURACY_THRESHOLD : R := 100.
End CONFIG.

(** [Math.atan2(y, x)] *)
Definition Math_atan2 (y x : R) : R :=
  if Rltb 0 x then atan (y / x)
  else if Rltb x 0 then
    if Rleb 0 y then atan (y / x) + PI else atan (y / x) - PI
  else if Rltb 0 y then PI / 2
  else if Rltb y 0 then - (PI / 2)
  else 0.

(** The haversine formula, in exact arithmetic.  The engine evaluates it
    in doubles: its result is this value up to rounding, and not a number
    when rounding takes [a] above 1, which happens for some pairs of
    nearly opposite points. *)
Definition calculateDistance (lat1 lon1 lat2 lon2 : R) : R :=
  let R0 := 6371000 in (* Earth's radius in meters *)
  let phi1 := lat1 * PI / 180 in
  let phi2 := lat2 * PI / 180 in
  let dphi := (lat2 - lat1) * PI / 180 in
  let dlambda := (lon2 - lon1) * PI / 180 in
  let a := sin (dphi / 2) * sin (dphi / 2) +
           cos phi1 * cos phi2 *
           sin (dlambda / 2) * sin (dlambda / 2) in
  let c := 2 * Math_atan2 (sqrt a) (sqrt (1 - a)) in
  R0 * c.

(** An element of the [locations] array answered by the relay. *)
Record Player : Type := mkPlayer {
  playerId : string;
  playerName : string;
  role : string;
  gameCode : string;
  lat : R;
  lon : R;
  accuracy : R;
  timestamp : R
}.

(** [gameState.lastPosition] *)
Record Position : Type := mkPosition {
  pos_lat : R;
  pos_lon : R;
  pos_accuracy : R;
  pos_timestamp : R
}.

(** A marker of an opponent on the map: where it stands, the role of its
    icon and the name and age its popup was bound with. *)
Record Marker : Type := mkMarker {
  latlng : R * R;
  icon : string;
  popup : string * R
}.

(** The elements of the page the functions below write to. *)
Record Dom : Type := mkDom {
  accuracyDisplay : option R;
  playerCount : nat;       (* shown as n/4 *)
  timer : option R;        (* the remaining time shown, in milliseconds *)
  timerClass : string;
  endTitle : string;
  endMessage : string;
  startScreen : bool;      (* has class active *)
  gameScreen : bool;
  endScreen : bool
}.

Record GameState : Type := mkGameState {
  gs_playerId : option string;
  gs_playerName : option string;
  playerRole : option string;
  gs_gameCode : option string;
  isActive : bool;
  startTime : option R;
  map : option (R * R);              (* the centre of the view; None is null *)
  playerMarker : option (R * R);
  accuracyCircle : option (R * R * R);
  otherMarkers : JsMap.t Marker;
  updateInterval : bool;             (* an interval is scheduled *)
  timerInterval : bool;
  lastPosition : option Position;
  watchId : bool;                    (* a position watch is registered *)
  dom : Dom
}.

Definition set_otherMarkers (m : JsMap.t Marker) (gs : GameState) : GameState :=
  mkGameState (gs_playerId gs) (gs_playerName gs) (playerRole gs)
    (gs_gameCode gs) (isActive gs) (startTime gs) (map gs) (playerMarker gs)
    (accuracyCircle gs) m (updateInterval gs) (timerInterval gs)
    (lastPosition gs) (watchId gs) (dom gs).

Definition set_dom (d : Dom) (gs : GameState) : GameState :=
  mkGameState (gs_playerId gs) (gs_playerName gs) (playerRole gs)
    (gs_gameCode gs) (isActive gs) (startTime gs) (map gs) (playerMarker gs)
    (accuracyCircle gs) (otherMarkers gs) (updateInterval gs)
    (timerInterval gs) (lastPosition gs) (watchId gs) d.

(** [s1 === s2] where [s1] may be null *)
Definition eqs (s1 : option string) (s2 : string) : bool :=
  match s1 with
  | Some s => String.eqb s s2
  | None => false
  end.

(** A number that may be null, in arithmetic. *)
Definition toNumber (x : option R) : R :=
  match x with
  | Some v => v
  | None => 0
  end.

Definition stopGPSTracking (gs : GameState) : GameState :=
  mkGameState (gs_playerId gs) (gs_playerName gs) (playerRole gs)
    (gs_gameCode gs) (isActive gs) (startTime gs) (map gs) (playerMarker gs)
    (accuracyCircle gs) (otherMarkers gs) (updateInterval gs)
    (timerInterval gs) (lastPosition gs) false (dom gs).

Definition endGame (reason message : string) (gs : GameState) : GameState :=
  (* isActive = false; stop intervals *)
  let gs1 :=
    mkGameState (gs_playerId gs) (gs_playerName gs) (playerRole gs)
      (gs_gameCode gs) false (startTime gs) (map gs) (playerMarker gs)
      (accuracyCircle gs) (otherMarkers gs) false false
      (lastPosition gs) (watchId gs) (dom gs) in
  (* Stop GPS *)
  let gs2 := stopGPSTracking gs1 in
  (* Show end screen *)
  let d := dom gs2 in
  set_dom
    (mkDom (accuracyDisplay d) (playerCount d) (timer d) (timerClass d)
       (if String.eqb reason "victory" then "🎉 Victory!"
        else if String.eqb reason "timeout" then "⏰ Time's Up!"
        else "👋 Game Over")
       message (startScreen d) false true)
    gs2.

Definition updatePlayerMarker (now : R) (lat lon accuracy : R)
    (gs : GameState) : GameState :=
  match map gs with
  | None => gs
  | Some view =>
      let latlng := (lat, lon) in
      mkGameState (gs_playerId gs) (gs_playerName gs) (playerRole gs)
        (gs_gameCode gs) (isActive gs) (startTime gs)
        (* Center map on first position *)
        (if match startTime gs with
            | Some t => Reqb t 0 || Rltb (now - t) 1000
            | None => true
            end
         then Some latlng else Some view)
        (Some latlng) (Some (lat, lon, accuracy))
        (otherMarkers gs) (updateInterval gs) (timerInterval gs)
        (lastPosition gs) (watchId gs) (dom gs)
  end.

(** The success callback of the position watch. *)
Definition handlePositionSuccess (now : R) (latitude longitude accuracy : R)
    (gs : GameState) : GameState :=
  (* Update accuracy display *)
  let d := dom gs in
  let gs1 :=
    set_dom
      (mkDom (Some accuracy) (playerCount d) (timer d) (timerClass d)
         (endTitle d) (endMessage d) (startScreen d) (gameScreen d)
         (endScreen d))
      gs in
  (* Only use accurate readings *)
  if Rgtb accuracy CONFIG.MAX_ACCURACY_THRESHOLD then gs1
  else
    let gs2 :=
      mkGameState (gs_playerId gs1) (gs_playerName gs1) (playerRole gs1)
        (gs_gameCode gs1) (isActive gs1) (startTime gs1) (map gs1)
        (playerMarker gs1) (accuracyCircle gs1) (otherMarkers gs1)
        (updateInterval gs1) (timerInterval gs1)
        (Some (mkPosition latitude longitude accuracy now))
        (watchId gs1) (dom gs1) in
    updatePlayerMarker now latitude longitude accuracy gs2.

(** What the callback of [updateOtherPlayers] decides for one player before
    it touches the map: skipped (self or same team), not shown yet (too
    recent), or shown with the given age. *)
Inductive Visibility : Type :=
| Skipped
| TooRecent
| Shown (age : R).

Definition visibility (now : R) (gs : GameState) (player : Player)
  : Visibility :=
  (* Skip self *)
  if eqs (gs_playerId gs) (playerId player) then Skipped
  else
    (* Skip same team (hunters only see hunted and vice versa) *)
    let isOpponent :=
      (eqs (playerRole gs) "hunter" && String.eqb (role player) "hunted") ||
      (eqs (playerRole gs) "hunted" && String.eqb (role player) "hunter") in
    if negb isOpponent then Skipped
    else
      (* Apply 2-minute delay *)
      let age := now - timestamp player in
      if Rltb age CONFIG.POSITION_DELAY then TooRecent else Shown age.

(** The names every plain object inherits from [Object.prototype]. *)
Definition objectPrototypeNames : list string :=
  ["constructor"; "__defineGetter__"; "__defineSetter__"; "hasOwnProperty";
   "__lookupGetter__"; "__lookupSetter__"; "isPrototypeOf";
   "propertyIsEnumerable"; "toString"; "valueOf"; "__proto__";
   "toLocaleString"].

(** [gameState.otherMarkers[id]], a lookup in a plain object: the marker
    stored under the id, or else what the object inherits under that name,
    which is no marker but is truthy. *)
Inductive Lookup : Type :=
| Own (marker : Marker)
| Inherited
| Absent.

Definition lookupMarker (id : string) (markers : JsMap.t Marker) : Lookup :=
  match JsMap.get id markers with
  | Some marker => Own marker
  | None => if includes objectPrototypeNames id then Inherited else Absent
  end.

(** How a call ends: it returns, or it throws; either way with the state
    it leaves. *)
Inductive Completion (A : Type) : Type :=
| Normal (a : A)
| Throw (a : A).

Arguments Normal {A} a.
Arguments Throw {A} a.

Definition after {A : Type} (c : Completion A) : A :=
  match c with
  | Normal a => a
  | Throw a => a
  end.


(** The two branches that place a marker: move the one the player has, or
    create one. *)
Definition placeMarker (player : Player) (age : R) (gs : GameState)
  : GameState :=
  let latlng := (lat player, lon player) in
  match JsMap.get (playerId player) (otherMarkers gs) with
  | Some marker =>
      set_otherMarkers
        (JsMap.set (playerId player)
           (mkMarker latlng (icon marker) (popup marker)) (otherMarkers gs))
        gs
  | None =>
      set_otherMarkers
        (JsMap.set (playerId player)
           (mkMarker latlng (role player) (playerName player, age))
           (otherMarkers gs))
        gs
  end.

(** Update the marker of a shown player, or create it.  When the lookup
    finds an inherited value the update branch is taken and [setLatLng],
    which that value does not have, throws a TypeError. *)
Definition showMarker (player : Player) (age : R) (gs : GameState)
  : Completion GameState :=
  match lookupMarker (playerId player) (otherMarkers gs) with
  | Inherited => Throw gs
  | Own _ | Absent => Normal (placeMarker player age gs)
  end.

(** Check for capture (hunters only), against one shown player. *)
Definition evaluateCapture (player : Player) (gs : GameState) : GameState :=
  match lastPosition gs with
  | Some own =>
      if eqs (playerRole gs) "hunter" then
        let distance :=
          calculateDistance (pos_lat own) (pos_lon own)
            (lat player) (lon player) in
        if Rleb distance CONFIG.CAPTURE_DISTANCE then
          endGame "victory"
            ("You captured " ++ playerName player ++ "!")%string gs
        else gs
      else gs
  | None => gs
  end.

(** The callback of [locations.forEach]; the second component is
    [currentPlayerIds]. *)
Definition visit (now : R) (acc : GameState * list string) (player : Player)
  : Completion (GameState * list string) :=
  let (gs, currentPlayerIds) := acc in
  match visibility now gs player with
  | Skipped => Normal (gs, currentPlayerIds)
  | TooRecent => Normal (gs, playerId player :: currentPlayerIds)
  | Shown age =>
      match showMarker player age gs with
      | Normal gs1 =>
          Normal (evaluateCapture player gs1,
                  playerId player :: currentPlayerIds)
      | Throw gs1 => Throw (gs1, playerId player :: currentPlayerIds)
      end
  end.

(** [xs.forEach(f)]: the calls in order; a call that throws ends the
    loop. *)
Fixpoint forEach {A B : Type} (f : A -> B -> Completion A) (xs : list B)
    (a : A) : Completion A :=
  match xs with
  | [] => Normal a
  | x :: rest =>
      match f a x with
      | Normal a' => forEach f rest a'
      | Throw a' => Throw a'
      end
  end.

(** The callback on a player whose marker can be placed. *)
Definition step (now : R) (acc : GameState * list string) (player : Player)
  : GameState * list string :=
  let (gs, currentPlayerIds) := acc in
  match visibility now gs player with
  | Skipped => (gs, currentPlayerIds)
  | TooRecent => (gs, playerId player :: currentPlayerIds)
  | Shown age =>
      (evaluateCapture player (placeMarker player age gs),
       playerId player :: currentPlayerIds)
  end.

(** Remove markers for players who left. *)
Definition removeGone (currentPlayerIds : list string) (gs : GameState)
  : GameState :=
  set_otherMarkers
    (fold_left
       (fun m id =>
          if negb (includes currentPlayerIds id) then JsMap.delete id m else m)
       (JsMap.keys (otherMarkers gs)) (otherMarkers gs))
    gs.

(** One cycle.  When a callback throws, the function throws: the markers
    of the players who left stay and the player count is not written. *)
Definition updateOtherPlayers (now : R) (gs : GameState)
    (locations : list Player) : Completion GameState :=
  match map gs with
  | None => Normal gs
  | Some _ =>
      match forEach (visit now) locations (gs, []) with
      | Throw (gs1, _) => Throw gs1
      | Normal (gs1, currentPlayerIds) =>
          let gs2 := removeGone currentPlayerIds gs1 in
          (* Update player count *)
          let totalPlayers :=
            List.length
              (filter (fun p => eqs (gs_gameCode gs2) (gameCode p))
                 locations) in
          let d := dom gs2 in
          Normal
            (set_dom
               (mkDom (accuracyDisplay d) totalPlayers (timer d)
                  (timerClass d) (endTitle d) (endMessage d) (startScreen d)
                  (gameScreen d) (endScreen d))
               gs2)
      end
  end.

(** The visible opponents of one evaluation: the players the callback of
    [updateOtherPlayers] shows, in the order of the snapshot, each with its
    age. *)
Definition filterVisibleOpponents (snapshot : list Player) (gs : GameState)
    (now : R) : list (Player * R) :=
  flat_map
    (fun p =>
       match visibility now gs p with
       | Shown age => [(p, age)]
       | _ => []
       end)
    snapshot.

Definition updateTimer (now : R) (gs : GameState) : GameState :=
  let elapsed := now - toNumber (startTime gs) in
  let remaining := CONFIG.GAME_DURATION - elapsed in
  if Rleb remaining 0 then
    endGame "timeout" "Time's up! Hunted players survived." gs
  else
    let d := dom gs in
    set_dom
      (mkDom (accuracyDisplay d) (playerCount d) (Some remaining)
         (* Change color based on time remaining *)
         (if Rltb remaining 60000 then "timer danger"
          else if Rltb remaining 180000 then "timer warning"
          else "timer")
         (endTitle d) (endMessage d) (startScreen d) (gameScreen d)
         (endScreen d))
      gs.

(** The page and [gameState] as the script finds them when it loads: the
    start screen is the active one. *)
Definition initialDom : Dom :=
  mkDom None 0 None "timer" "" "" true false false.

Definition initialGameState : GameState :=
  mkGameState None None None None false None None None None JsMap.empty
    false false None false initialDom.

(** [startGame], with the values of the name and code fields of the form,
    the role of the selected button and the identifier [generateId]
    draws. *)
Definition startGame (now : R) (id nameValue codeValue : string)
    (selectedRole : option string) (gs : GameState) : GameState :=
  let name := trim nameValue in
  let code := toUpperCase (trim codeValue) in
  if String.eqb name "" || String.eqb code "" ||
     match selectedRole with Some _ => false | None => true end
  then gs
  else
    let d := dom gs in
    let gs1 :=
      mkGameState (Some id) (Some name) selectedRole (Some code) true
        (Some now)
        (Some (0, 0))                  (* initMap *)
        (playerMarker gs) (accuracyCircle gs) (otherMarkers gs)
        true                           (* the game loop is scheduled *)
        (timerInterval gs) (lastPosition gs)
        true                           (* startGPSTracking *)
        (mkDom (accuracyDisplay d) (playerCount d) (timer d) (timerClass d)
           (endTitle d) (endMessage d) false true (endScreen d)) in
    let gs2 := updateTimer now gs1 in  (* initial call *)
    mkGameState (gs_playerId gs2) (gs_playerName gs2) (playerRole gs2)
      (gs_gameCode gs2) (isActive gs2) (startTime gs2) (map gs2)
      (playerMarker gs2) (accuracyCircle gs2) (otherMarkers gs2)
      (updateInterval gs2) true (lastPosition gs2) (watchId gs2) (dom gs2).

(** ** The rules of the engine in the words of its description *)

(** Two roles are opposite when one is the hunter and the other the hunted. *)
Definition opposite (own : option string) (other : string) : Prop :=
  (own = Some "hunter" /\ other = "hunted") \/
  (own = Some "hunted" /\ other = "hunter").

(** An entry is a visible opponent when it is not the session's own, its
    role is the opposite one and its age has reached the delay. *)
Definition visibleOpponent (now : R) (gs : GameState) (e : Player) : Prop :=
  gs_playerId gs <> Some (playerId e) /\
  opposite (playerRole gs) (role e) /\
  now - timestamp e >= CONFIG.POSITION_DELAY.

(** The distance from the own position to a player. *)
Definition distanceTo (own : Position) (p : Player) : R :=
  calculateDistance (pos_lat own) (pos_lon own) (lat p) (lon p).

Definition inRange (own : Position) (p : Player) : bool :=
  Rleb (distanceTo own p) CONFIG.CAPTURE_DISTANCE.

(** The session has ended. *)
Definition ended (gs : GameState) : Prop := isActive gs = false.

Definition victoryMessage (p : Player) : string :=
  ("You captured " ++ playerName p ++ "!")%string.



(** The visible opponents within the capture distance of the own position,
    in the order of the snapshot. *)
Definition capturable (own : Position) (visible : list (Player * R))
  : list Player :=
  filter (inRange own) (List.map fst visible).

(** What a run of the callbacks leaves alone. *)
Definition sameSession (gs gs' : GameState) : Prop :=
  gs_playerId gs' = gs_playerId gs /\
  playerRole gs' = playerRole gs /\
  gs_gameCode gs' = gs_gameCode gs /\
  startTime gs' = startTime gs /\
  map gs' = map gs /\
  lastPosition gs' = lastPosition gs.

(** The opponents a cycle captures: none unless the session is a hunter's
    and has an own position. *)
Definition captures (now : R) (gs : GameState) (locations : list Player)
  : list Player :=
  match lastPosition gs with
  | Some own =>
      if eqs (playerRole gs) "hunter"
      then capturable own (filterVisibleOpponents locations gs now)
      else []
  | None => []
  end.

(** The end screen after a cycle that captured the given opponents, in
    order: untouched when there is none, and otherwise the victory over the
    one captured last. *)
Definition sameOutcome (gs gs' : GameState) : Prop :=
  isActive gs' = isActive gs /\
  endTitle (dom gs') = endTitle (dom gs) /\
  endMessage (dom gs') = endMessage (dom gs) /\
  startScreen (dom gs') = startScreen (dom gs) /\
  gameScreen (dom gs') = gameScreen (dom gs) /\
  endScreen (dom gs') = endScreen (dom gs).

Definition outcomeAfter (gs gs' : GameState) (captured : list Player) : Prop :=
  match rev captured with
  | [] => sameOutcome gs gs'
  | p :: _ =>
      isActive gs' = false /\
      endTitle (dom gs') = "🎉 Victory!" /\
      endMessage (dom gs') = victoryMessage p /\
      gameScreen (dom gs') = false /\
      endScreen (dom gs') = true
  end.

(** ** A hunter's session to try the rules on

    The state after [startGame] at instant 1000 and a fix of accuracy 10 m
    at the origin one second later; two hunted players stand at the same
    place. *)
Definition hunterSession : GameState :=
  mkGameState (Some "p_h") (Some "Hana") (Some "hunter") (Some "GAME1") true
    (Some 1000) (Some (0, 0)) (Some (0, 0)) (Some (0, 0, 10)) JsMap.empty
    true true (Some (mkPosition 0 0 10 2000)) true
    (mkDom (Some 10) 0 (Some 600000) "timer" "" "" false true false).

Definition alice : Player := mkPlayer "p_a" "Alice" "hunted" "GAME1" 0 0 10 0.
Definition bob : Player := mkPlayer "p_b" "Bob" "hunted" "GAME1" 0 0 10 0.

(** ** The rest of the game flow *)

(** [leaveGame], with the answer to the confirmation dialog. *)
Definition leaveGame (confirmed : bool) (gs : GameState) : GameState :=
  if confirmed then endGame "left" "You left the game." gs else gs.

Definition centerMap (gs : GameState) : GameState :=
  match map gs, lastPosition gs with
  | Some _, Some own =>
      mkGameState (gs_playerId gs) (gs_playerName gs) (playerRole gs)
        (gs_gameCode gs) (isActive gs) (startTime gs)
        (Some (pos_lat own, pos_lon own))
        (playerMarker gs) (accuracyCircle gs) (otherMarkers gs)
        (updateInterval gs) (timerInterval gs) (lastPosition gs)
        (watchId gs) (dom gs)
  | _, _ => gs
  end.

Definition newGame (gs : GameState) : GameState :=
  let d := dom gs in
  (* Clean up, then reset UI; the player info is kept *)
  mkGameState (gs_playerId gs) (gs_playerName gs) (playerRole gs)
    (gs_gameCode gs) (isActive gs) (startTime gs)
    None None None JsMap.empty
    (updateInterval gs) (timerInterval gs) None (watchId gs)
    (mkDom (accuracyDisplay d) (playerCount d) (timer d) (timerClass d)
       (endTitle d) (endMessage d) true (gameScreen d) false).

(** [validateStartButton]: whether the start button is disabled, for the
    values of the name and code fields of the form and the selected
    role. *)
Definition validateStartButton (nameValue codeValue : string)
    (role : option string) : bool :=
  let name := trim nameValue in
  let code := trim codeValue in
  negb (negb (String.eqb name "") && negb (String.eqb code "") &&
        match role with Some _ => true | None => false end).

(** ** The display of numbers *)

(** [Math.floor] *)
Definition Math_floor (x : R) : Z := Int_part x.

(** [n.toString()] of an integer *)
Definition toStringZ (z : Z) : string := NilZero.string_of_int (Z.to_int z).

Fixpoint repeatChar (n : nat) (c : ascii) : string :=
  match n with
  | O => EmptyString
  | S n' => String c (repeatChar n' c)
  end.

(** [s.padStart(n, c)] for a one-character filler *)
Definition padStart (n : nat) (c : ascii) (s : string) : string :=
  (repeatChar (n - String.length s) c ++ s)%string.

Definition formatTime (milliseconds : R) : string :=
  let totalSeconds := Math_floor (milliseconds / 1000) in
  let minutes := (totalSeconds / 60)%Z in
  let seconds := Z.rem totalSeconds 60 in
  (toStringZ minutes ++ ":" ++ padStart 2 "0" (toStringZ seconds))%string.

(** The session is over and nothing is scheduled any more. *)
Definition stopped (gs : GameState) : Prop :=
  isActive gs = false /\
  updateInterval gs = false /\
  timerInterval gs = false /\
  watchId gs = false /\
  gameScreen (dom gs) = false /\
  endScreen (dom gs) = true.

(** The hunter's session with Alice shown on the map, and a record of
    Alice refreshed 50 seconds before instant 200000. *)
Definition aliceShown : GameState :=
  set_otherMarkers
    [("p_a", mkMarker (0, 0) "hunted" ("Alice", 130000))] hunterSession.

Definition aliceRefreshed : Player :=
  mkPlayer "p_a" "Alice" "hunted" "GAME1" 1 1 10 150000.

(** A hunted player who stands on the hunter, under a player id of her
    choice, and one who stands 100 m east of the hunter on the equator. *)
Definition malloryAs (id : string) : Player :=
  mkPlayer id "Mallory" "hunted" "GAME1" 0 0 10 0.

Definition farAway : Player :=
  mkPlayer "p_f" "Faye" "hunted" "GAME1" 0 (100 * 180 / (6371000 * PI)) 10 0.

(** No visible opponent of the snapshot has an id that names an inherited
    property: every marker of the cycle can be placed. *)
Definition placeable (now : R) (gs : GameState) (locations : list Player)
  : Prop :=
  forall p age,
    In (p, age) (filterVisibleOpponents locations gs now) ->
    ~ In (playerId p) objectPrototypeNames.

End Client.

(** * The client and the relay together

    The client sends its position in the body of [updateLocation] and reads
    the answer of [getLocations]; JSON carries the fields of a record as
    they are. *)

Module Game.

(** The body [updateLocation] posts for the session and a position. *)
Definition updateLocationBody (now : R) (gs : Client.GameState)
    (lat lon accuracy : R) : Worker.Data :=
  Worker.mkData (Client.gs_playerId gs) (Client.gs_playerName gs)
    (Client.playerRole gs) (Client.gs_gameCode gs)
    (Some lat) (Some lon) (Some accuracy) (Some now).

(** The URLs the client fetches: template literals on BACKEND_URL; a code
    that is null prints as the word. *)
Definition updateLocationUrl : string :=
  (Client.CONFIG.BACKEND_URL ++ "/updateLocation")%string.

Definition locationsUrl (gs : Client.GameState) : string :=
  (Client.CONFIG.BACKEND_URL ++ "/locations?gameCode=" ++
   match Client.gs_gameCode gs with Some c => c | None => "null" end)%string.

(** [new URL(url).pathname] for an https URL whose path needs no
    normalisation (no dot segment, no backslash, nothing to encode): what
    follows the authority, up to the query or the fragment; a slash when
    that is empty. *)
Fixpoint upTo (stop : ascii -> bool) (s : string) : string :=
  match s with
  | EmptyString => EmptyString
  | String c s' => if stop c then EmptyString else String c (upTo stop s')
  end.

Fixpoint from (stop : ascii -> bool) (s : string) : string :=
  match s with
  | EmptyString => EmptyString
  | String c s' => if stop c then s else from stop s'
  end.

Definition endsAuthority (c : ascii) : bool :=
  Ascii.eqb c "/" || Ascii.eqb c "?" || Ascii.eqb c "#".

Definition endsPath (c : ascii) : bool :=
  Ascii.eqb c "?" || Ascii.eqb c "#".

Definition pathname (url : string) : string :=
  let afterScheme := substring 8 (String.length url - 8) url in
  match upTo endsPath (from endsAuthority afterScheme) with
  | EmptyString => "/"
  | path => path
  end.

(** The requests the relay receives for the two fetches.  The Origin
    header, the connecting address and what [searchParams] reads of the
    query are the browser's, the network's and the platform's. *)
Definition updateLocationRequest (origin ip : option string)
    (body : Worker.Data) : Worker.Request :=
  Worker.mkRequest "POST" (pathname updateLocationUrl) origin ip None
    (Some body).

Definition getLocationsRequest (origin ip query : option string)
    (gs : Client.GameState) : Worker.Request :=
  Worker.mkRequest "GET" (pathname (locationsUrl gs)) origin ip query None.

(** A record of the relay as the client reads it from the answer. *)
Definition received (r : Worker.PlayerData) : Client.Player :=
  Client.mkPlayer (Worker.playerId r) (Worker.playerName r) (Worker.role r)
    (Worker.gameCode r) (Worker.lat r) (Worker.lon r) (Worker.accuracy r)
    (Worker.timestamp r).

(** [getLocations]: the parsed answer, null unless the status is 2xx. *)
Definition getLocations (response : Worker.Response) : option Worker.Body :=
  if (200 <=? Worker.status response)%Z && (Worker.status response <=? 299)%Z
  then Some (Worker.body response)
  else None.

(** The locations [gameLoop] hands to [updateOtherPlayers], when the answer
    has any. *)
Definition locationsOf (response : Worker.Response)
  : option (list Client.Player) :=
  match getLocations response with
  | Some (Worker.LocationsBody locations _) =>
      Some (List.map received locations)
  | _ => None
  end.

(** What a cycle of [gameLoop] does to the session, given the answer to
    its list request (none when the request failed): the locations of a
    2xx answer that has any go to [updateOtherPlayers]; otherwise the
    cycle leaves the session alone. *)
Definition gameLoop (now : R) (response : option Worker.Response)
    (gs : Client.GameState) : Client.GameState :=
  match response with
  | Some r =>
      match locationsOf r with
      | Some locations =>
          Client.after (Client.updateOtherPlayers now gs locations)
      | None => gs
      end
  | None => gs
  end.

End Game.

(** * Facts about the comparisons *)

Lemma Rltb_spec (x y : R) : reflect (x < y) (Rltb x y).
Proof. unfold Rltb. destruct (Rlt_dec x y); constructor; assumption. Qed.

Lemma Rleb_spec (x y : R) : reflect (x <= y) (Rleb x y).
Proof. unfold Rleb. destruct (Rle_dec x y); constructor; assumption. Qed.

Lemma Rgtb_spec (x y : R) : reflect (x > y) (Rgtb x y).
Proof. unfold Rgtb. apply Rltb_spec. Qed.

Lemma Rgeb_spec (x y : R) : reflect (x >= y) (Rgeb x y).
Proof.
  unfold Rgeb. destruct (Rleb_spec y x); constructor; lra.
Qed.

Lemma Reqb_spec (x y : R) : reflect (x = y) (Reqb x y).
Proof. unfold Reqb. destruct (Req_dec_T x y); constructor; assumption. Qed.

(** Decides the comparisons of a goal or hypothesis by linear arithmetic. *)
Ltac Rcmp :=
  repeat match goal with
    | |- context [Rltb ?x ?y] => destruct (Rltb_spec x y); try lra
    | |- context [Rleb ?x ?y] => destruct (Rleb_spec x y); try lra
    | |- context [Rgtb ?x ?y] => destruct (Rgtb_spec x y); try lra
    | |- context [Rgeb ?x ?y] => destruct (Rgeb_spec x y); try lra
    | |- context [Reqb ?x ?y] => destruct (Reqb_spec x y); try lra
    end.

(** * Facts about insertion-ordered maps *)

Module JsMapFacts.
Import JsMap.

Section Facts.
Context {V : Type}.

Lemma wf_empty : wf (@empty V).
Proof. constructor. Qed.

Lemma get_In (k : string) (v : V) (m : t V) :
  get k m = Some v -> In (k, v) m.
Proof.
  induction m as [|[k' v'] m IH]; simpl; [discriminate|].
  destruct (String.eqb_spec k k') as [->|_].
  - intros [= ->]. now left.
  - intros H. right. auto.
Qed.

Lemma get_None_keys (k : string) (m : t V) :
  get k m = None <-> ~ In k (keys m).
Proof.
  induction m as [|[k' v'] m IH]; simpl.
  - tauto.
  - destruct (String.eqb_spec k k') as [->|Hne].
    + split; [discriminate | intros H; exfalso; apply H; now left].
    + rewrite IH. split.
      * intros H [Heq|Hin]; [congruence | tauto].
      * intros H Hin. apply H. now right.
Qed.

Lemma In_get (k : string) (v : V) (m : t V) :
  wf m -> In (k, v) m -> get k m = Some v.
Proof.
  unfold wf. induction m as [|[k' v'] m IH]; simpl; [tauto|].
  intros Hnd [Heq|Hin].
  - injection Heq as -> ->. now rewrite String.eqb_refl.
  - inversion Hnd as [|? ? Hnotin Hnd']; subst.
    destruct (String.eqb_spec k k') as [->|_].
    + exfalso. apply Hnotin. unfold keys.
      change k' with (fst (k', v)). now apply in_map.
    + auto.
Qed.

Lemma has_true (k : string) (m : t V) :
  has k m = true <-> In k (keys m).
Proof.
  unfold has. destruct (get k m) as [v|] eqn:E.
  - split; [intros _|reflexivity].
    apply get_In in E. unfold keys. change k with (fst (k, v)).
    now apply in_map.
  - apply get_None_keys in E. split; [discriminate | tauto].
Qed.

Lemma get_set_same (k : string) (v : V) (m : t V) :
  get k (set k v m) = Some v.
Proof.
  induction m as [|[k' v'] m IH]; simpl.
  - now rewrite String.eqb_refl.
  - destruct (String.eqb_spec k k') as [->|Hne]; simpl.
    + now rewrite String.eqb_refl.
    + destruct (String.eqb_spec k k'); [contradiction | assumption].
Qed.

Lemma get_set_other (k k0 : string) (v : V) (m : t V) :
  k0 <> k -> get k0 (set k v m) = get k0 m.
Proof.
  intros Hne. induction m as [|[k' v'] m IH]; simpl.
  - destruct (String.eqb_spec k0 k); [contradiction | reflexivity].
  - destruct (String.eqb_spec k k') as [->|Hne']; simpl.
    + destruct (String.eqb_spec k0 k'); [contradiction | reflexivity].
    + destruct (String.eqb_spec k0 k'); [reflexivity | assumption].
Qed.

Lemma keys_set_has (k : string) (v : V) (m : t V) :
  has k m = true -> keys (set k v m) = keys m.
Proof.
  unfold has. induction m as [|[k' v'] m IH]; simpl; [discriminate|].
  destruct (String.eqb_spec k k') as [->|Hne]; simpl; [reflexivity|].
  intros H. f_equal. auto.
Qed.

Lemma keys_set_new (k : string) (v : V) (m : t V) :
  has k m = false -> keys (set k v m) = keys m ++ [k].
Proof.
  unfold has. induction m as [|[k' v'] m IH]; simpl; [reflexivity|].
  destruct (String.eqb_spec k k') as [->|Hne]; simpl; [discriminate|].
  intros H. f_equal. auto.
Qed.

Lemma wf_set (k : string) (v : V) (m : t V) : wf m -> wf (set k v m).
Proof.
  unfold wf. intros Hwf. destruct (has k m) eqn:E.
  - now rewrite keys_set_has.
  - rewrite keys_set_new by assumption.
    apply NoDup_app; [assumption | repeat constructor; simpl; tauto |].
    intros x Hx [<-|[]].
    apply has_true in Hx. congruence.
Qed.

Lemma size_set_has (k : string) (v : V) (m : t V) :
  has k m = true -> size (set k v m) = size m.
Proof.
  intros H. unfold size.
  rewrite <- (List.length_map fst (set k v m)), <- (List.length_map fst m).
  fold (keys (set k v m)) (keys m). now rewrite keys_set_has.
Qed.

Lemma In_delete (k : string) (m : t V) (e : string * V) :
  In e (delete k m) <-> In e m /\ fst e <> k.
Proof.
  unfold delete. rewrite filter_In.
  destruct (String.eqb_spec k (fst e)); simpl; split;
    intros [H1 H2]; split; auto; congruence.
Qed.

Lemma wf_filter (f : string * V -> bool) (m : t V) : wf m -> wf (filter f m).
Proof.
  unfold wf, keys. induction m as [|e m IH]; simpl; [auto|].
  intros Hnd. inversion Hnd as [|? ? Hnotin Hnd']; subst.
  destruct (f e); simpl; [|auto].
  constructor; [|auto].
  intros Hin. apply Hnotin.
  apply in_map_iff in Hin as [e' [Hfst Hin]].
  apply filter_In in Hin as [Hin _].
  apply in_map_iff. eauto.
Qed.

Lemma wf_delete (k : string) (m : t V) : wf m -> wf (delete k m).
Proof. apply wf_filter. Qed.

Lemma keys_app (m1 m2 : t V) : keys (m1 ++ m2) = keys m1 ++ keys m2.
Proof. apply map_app. Qed.

Lemma wf_app_remove (pre l : t V) (e : string * V) :
  wf (pre ++ e :: l) -> wf (pre ++ l) /\ ~ In (fst e) (keys (pre ++ l)).
Proof.
  unfold wf. rewrite !keys_app. simpl. intros H.
  split; [eapply NoDup_remove_1 | eapply NoDup_remove_2]; eassumption.
Qed.

Lemma delete_notin (k : string) (m : t V) :
  ~ In k (keys m) -> delete k m = m.
Proof.
  induction m as [|[k' v'] m IH]; simpl; [reflexivity|].
  intros H. destruct (String.eqb_spec k k') as [->|_]; simpl.
  - exfalso. apply H. now left.
  - f_equal. apply IH. tauto.
Qed.

Lemma delete_app (k : string) (m1 m2 : t V) :
  delete k (m1 ++ m2) = delete k m1 ++ delete k m2.
Proof. apply filter_app. Qed.

Lemma delete_middle (pre l : t V) (k : string) (v : V) :
  wf (pre ++ (k, v) :: l) -> delete k (pre ++ (k, v) :: l) = pre ++ l.
Proof.
  intros H. apply wf_app_remove in H as [_ Hk]. simpl in Hk.
  rewrite keys_app, in_app_iff in Hk.
  rewrite delete_app. simpl. rewrite String.eqb_refl. simpl.
  rewrite !delete_notin by tauto. reflexivity.
Qed.

Lemma set_middle (pre l : t V) (k : string) (v v' : V) :
  ~ In k (keys pre) -> set k v' (pre ++ (k, v) :: l) = pre ++ (k, v') :: l.
Proof.
  induction pre as [|[k0 v0] pre IH]; simpl.
  - intros _. now rewrite String.eqb_refl.
  - intros H. destruct (String.eqb_spec k k0) as [->|_].
    + exfalso. apply H. now left.
    + f_equal. apply IH. tauto.
Qed.

(** A loop over the entries of a map that deletes the entries a test picks
    leaves the others, in order. *)
Lemma fold_delete_filter_gen (f : string * V -> bool) (l pre : t V) :
  wf (pre ++ l) ->
  fold_left (fun acc e => if f e then delete (fst e) acc else acc) l
    (pre ++ l) =
  pre ++ filter (fun e => negb (f e)) l.
Proof.
  revert pre. induction l as [|[k v] l IH]; intros pre Hwf; simpl.
  - reflexivity.
  - destruct (f (k, v)) eqn:E; simpl.
    + rewrite delete_middle by assumption.
      apply IH. now apply wf_app_remove in Hwf.
    + change (pre ++ (k, v) :: l) with (pre ++ [(k, v)] ++ l) in *.
      rewrite app_assoc in *. rewrite IH by assumption.
      now rewrite <- app_assoc.
Qed.

Lemma fold_delete_filter (f : string * V -> bool) (m : t V) :
  wf m ->
  fold_left (fun acc e => if f e then delete (fst e) acc else acc) m m =
  filter (fun e => negb (f e)) m.
Proof. intros H. exact (fold_delete_filter_gen f m [] H). Qed.

(** A loop over the entries that rewrites each value in place and deletes
    the entries whose new value is dead. *)
Lemma fold_update_filter_gen (F : V -> V) (dead : V -> bool) (l pre : t V) :
  wf (pre ++ l) ->
  fold_left
    (fun acc e =>
       if dead (F (snd e)) then delete (fst e) acc
       else set (fst e) (F (snd e)) acc)
    l (pre ++ l) =
  pre ++ filter (fun e => negb (dead (snd e)))
           (List.map (fun e => (fst e, F (snd e))) l).
Proof.
  revert pre. induction l as [|[k v] l IH]; intros pre Hwf; simpl.
  - reflexivity.
  - destruct (dead (F v)) eqn:E; simpl.
    + rewrite delete_middle by assumption.
      apply IH. now apply wf_app_remove in Hwf.
    + assert (Hk : ~ In k (keys pre)).
      { apply wf_app_remove in Hwf as [_ Hk]. simpl in Hk.
        rewrite keys_app, in_app_iff in Hk. tauto. }
      rewrite set_middle by assumption.
      change (pre ++ (k, F v) :: l) with (pre ++ [(k, F v)] ++ l).
      rewrite app_assoc, IH.
      * now rewrite <- app_assoc.
      * unfold wf in *. rewrite <- app_assoc. simpl.
        rewrite keys_app in *. exact Hwf.
Qed.

Lemma fold_update_filter (F : V -> V) (dead : V -> bool) (m : t V) :
  wf m ->
  fold_left
    (fun acc e =>
       if dead (F (snd e)) then delete (fst e) acc
       else set (fst e) (F (snd e)) acc)
    m m =
  filter (fun e => negb (dead (snd e)))
    (List.map (fun e => (fst e, F (snd e))) m).
Proof. intros H. exact (fold_update_filter_gen F dead m [] H). Qed.

Lemma In_set_inv (k : string) (v : V) (m : t V) (e : string * V) :
  wf m -> In e (set k v m) -> e = (k, v) \/ (In e m /\ fst e <> k).
Proof.
  unfold wf. induction m as [|[k' v'] m IH]; simpl.
  - intros _ [<-|[]]. now left.
  - intros Hnd. inversion Hnd as [|? ? Hnotin Hnd']; subst.
    destruct (String.eqb_spec k k') as [->|Hne]; simpl.
    + intros [<-|Hin]; [now left|].
      right. split; [now right|]. intros Heq. apply Hnotin.
      rewrite <- Heq. now apply in_map.
    + intros [<-|Hin].
      * right. split; [now left | simpl; congruence].
      * destruct (IH Hnd' Hin) as [->|[Hin' Hk]]; [now left|].
        right. split; [now right | assumption].
Qed.

Lemma In_set_same (k : string) (v : V) (m : t V) : In (k, v) (set k v m).
Proof. apply get_In, get_set_same. Qed.

Lemma get_filter_keep (f : string * V -> bool) (k : string) (v : V)
    (m : t V) :
  wf m -> get k m = Some v -> f (k, v) = true -> get k (filter f m) = Some v.
Proof.
  intros Hwf Hget Hf. apply In_get; [now apply wf_filter|].
  apply filter_In. split; [now apply get_In | assumption].
Qed.

Lemma get_filter_drop (f : string * V -> bool) (k : string) (v : V)
    (m : t V) :
  wf m -> get k m = Some v -> f (k, v) = false -> get k (filter f m) = None.
Proof.
  intros Hwf Hget Hf. apply get_None_keys. intros Hin.
  apply in_map_iff in Hin as [[k' v'] [Hk Hin]]. simpl in Hk. subst k'.
  apply filter_In in Hin as [Hin Hf'].
  pose proof (In_get k v' m Hwf Hin) as Hget'. congruence.
Qed.

Lemma has_set_same (k : string) (v : V) (m : t V) : has k (set k v m) = true.
Proof. unfold has. now rewrite get_set_same. Qed.

Lemma has_set_other (k k0 : string) (v : V) (m : t V) :
  k0 <> k -> has k0 (set k v m) = has k0 m.
Proof. intros H. unfold has. now rewrite get_set_other. Qed.

Lemma has_delete_other (k k0 : string) (m : t V) :
  k0 <> k -> has k0 m = true -> has k0 (delete k m) = true.
Proof.
  intros Hne H. apply has_true in H. apply has_true.
  unfold keys in *. apply in_map_iff in H as [e [He Hin]].
  apply in_map_iff. exists e. split; [assumption|].
  apply In_delete. split; [assumption | congruence].
Qed.

Lemma size_set_new (k : string) (v : V) (m : t V) :
  has k m = false -> size (set k v m) = S (size m).
Proof.
  intros H. unfold size.
  rewrite <- (List.length_map fst (set k v m)), <- (List.length_map fst m).
  fold (keys (set k v m)) (keys m). rewrite keys_set_new by assumption.
  rewrite length_app. simpl. lia.
Qed.

Lemma get_delete_other (k k0 : string) (m : t V) :
  k0 <> k -> get k0 (delete k m) = get k0 m.
Proof.
  intros Hne. induction m as [|[k' v'] m IH]; simpl; [reflexivity|].
  destruct (String.eqb_spec k k') as [->|Hk]; simpl.
  - destruct (String.eqb_spec k0 k'); [contradiction | assumption].
  - destruct (String.eqb_spec k0 k'); [reflexivity | assumption].
Qed.

Lemma has_delete_same (k : string) (m : t V) : has k (delete k m) = false.
Proof.
  destruct (has k (delete k m)) eqn:E; [|reflexivity].
  apply has_true in E. unfold keys in E.
  apply in_map_iff in E as [e [He Hin]]. apply In_delete in Hin. tauto.
Qed.

Lemma has_delete_inv (k k0 : string) (m : t V) :
  has k0 (delete k m) = true -> has k0 m = true /\ k0 <> k.
Proof.
  intros H. split.
  - apply has_true in H. apply has_true. unfold keys in *.
    apply in_map_iff in H as [e [He Hin]]. apply In_delete in Hin.
    apply in_map_iff. exists e. tauto.
  - intros ->. rewrite has_delete_same in H. discriminate.
Qed.

End Facts.

End JsMapFacts.

(** * The visibility and outcome engine *)

Module ClientFacts.
Import Client.

Lemma eqs_spec (s1 : option string) (s2 : string) :
  reflect (s1 = Some s2) (eqs s1 s2).
Proof.
  destruct s1 as [s|]; simpl.
  - destruct (String.eqb_spec s s2); constructor; congruence.
  - constructor. discriminate.
Qed.

Lemma isOpponent_spec (own : option string) (other : string) :
  reflect (opposite own other)
    ((eqs own "hunter" && String.eqb other "hunted") ||
     (eqs own "hunted" && String.eqb other "hunter")).
Proof.
  unfold opposite.
  destruct (eqs_spec own "hunter"), (String.eqb_spec other "hunted"),
    (eqs_spec own "hunted"), (String.eqb_spec other "hunter");
    simpl; constructor; subst; intuition congruence.
Qed.





(** ** The haversine distance *)

Lemma calculateDistance_same (lat lon : R) :
  calculateDistance lat lon lat lon = 0.
Proof.
  unfold calculateDistance.
  replace ((lat - lat) * PI / 180 / 2) with 0 by (unfold Rdiv; ring).
  replace ((lon - lon) * PI / 180 / 2) with 0 by (unfold Rdiv; ring).
  rewrite sin_0.
  replace (0 * 0 + cos (lat * PI / 180) * cos (lat * PI / 180) * 0 * 0)
    with 0 by ring.
  rewrite Rminus_0_r, sqrt_0, sqrt_1.
  unfold Math_atan2.
  destruct (Rltb_spec 0 1); [|lra].
  replace (0 / 1) with 0 by (unfold Rdiv; ring).
  rewrite atan_0. ring.
Qed.

(** Along the equator the distance is the arc of a sphere of radius
    6371000 m: the point [d] metres east of the origin is at distance [d]. *)
Lemma calculateDistance_equator (d : R) :
  0 <= d <= 6371000 ->
  calculateDistance 0 0 0 (d * 180 / (6371000 * PI)) = d.
Proof.
  intros Hd. pose proof PI_RGT_0 as Hpi. pose proof PI2_1 as Hpi2.
  unfold calculateDistance.
  set (h := d / 6371000 / 2).
  assert (Hh : 0 <= h < PI / 2).
  { unfold h. split.
    - apply Rmult_le_pos; [apply Rmult_le_pos|]; lra.
    - assert (d / 6371000 <= 1).
      { apply Rmult_le_reg_r with 6371000; [lra|].
        unfold Rdiv. rewrite Rmult_assoc, Rinv_l by lra. lra. }
      lra. }
  replace ((0 - 0) * PI / 180 / 2) with 0 by (unfold Rdiv; ring).
  replace (0 * PI / 180) with 0 by (unfold Rdiv; ring).
  replace ((d * 180 / (6371000 * PI) - 0) * PI / 180 / 2) with h
    by (unfold h; field; lra).
  rewrite sin_0, cos_0.
  replace (0 * 0 + 1 * 1 * sin h * sin h) with (sin h * sin h) by ring.
  assert (Hsin : 0 <= sin h) by (apply sin_ge_0; lra).
  assert (Hcos : 0 < cos h) by (apply cos_gt_0; lra).
  rewrite (sqrt_square (sin h) Hsin).
  replace (1 - sin h * sin h) with (cos h * cos h).
  2:{ pose proof (sin2_cos2 h) as H. unfold Rsqr in H. lra. }
  rewrite (sqrt_square (cos h)) by lra.
  unfold Math_atan2.
  destruct (Rltb_spec 0 (cos h)); [|lra].
  fold (tan h). rewrite atan_tan by lra.
  unfold h. field.
Qed.


(** ** One cycle of [updateOtherPlayers] *)

Lemma sameSession_refl (gs : GameState) : sameSession gs gs.
Proof. unfold sameSession. tauto. Qed.

Lemma sameSession_trans (gs1 gs2 gs3 : GameState) :
  sameSession gs1 gs2 -> sameSession gs2 gs3 -> sameSession gs1 gs3.
Proof. unfold sameSession. intuition congruence. Qed.

Lemma placeMarker_frame (p : Player) (age : R) (gs : GameState) :
  sameSession gs (placeMarker p age gs) /\
  isActive (placeMarker p age gs) = isActive gs /\
  dom (placeMarker p age gs) = dom gs.
Proof.
  unfold placeMarker, sameSession.
  destruct (JsMap.get (playerId p) (otherMarkers gs)); simpl; tauto.
Qed.

Lemma endGame_sameSession (reason message : string) (gs : GameState) :
  sameSession gs (endGame reason message gs).
Proof. unfold sameSession, endGame. simpl. tauto. Qed.

Lemma evaluateCapture_sameSession (p : Player) (gs : GameState) :
  sameSession gs (evaluateCapture p gs).
Proof.
  unfold evaluateCapture.
  destruct (lastPosition gs); [|apply sameSession_refl].
  destruct (eqs (playerRole gs) "hunter"); [|apply sameSession_refl].
  destruct (Rleb _ _); [apply endGame_sameSession | apply sameSession_refl].
Qed.

Lemma visibility_sameSession (now : R) (gs gs' : GameState) (p : Player) :
  sameSession gs gs' -> visibility now gs' p = visibility now gs p.
Proof.
  intros [Hid [Hrole _]]. unfold visibility. now rewrite Hid, Hrole.
Qed.

Lemma captures_app (now : R) (gs : GameState) (l1 l2 : list Player) :
  captures now gs (l1 ++ l2) = captures now gs l1 ++ captures now gs l2.
Proof.
  unfold captures, capturable, filterVisibleOpponents.
  destruct (lastPosition gs); [|reflexivity].
  destruct (eqs (playerRole gs) "hunter"); [|reflexivity].
  now rewrite flat_map_app, map_app, filter_app.
Qed.

Lemma outcomeAfter_nil (gs gs' : GameState) :
  outcomeAfter gs gs' [] <-> sameOutcome gs gs'.
Proof. reflexivity. Qed.

Lemma sameOutcome_refl (gs : GameState) : sameOutcome gs gs.
Proof. unfold sameOutcome. tauto. Qed.

Lemma outcomeAfter_snoc (gs gs' : GameState) (l : list Player) (p : Player) :
  outcomeAfter gs gs' (l ++ [p]) <->
  isActive gs' = false /\
  endTitle (dom gs') = "🎉 Victory!" /\
  endMessage (dom gs') = victoryMessage p /\
  gameScreen (dom gs') = false /\
  endScreen (dom gs') = true.
Proof. unfold outcomeAfter. rewrite rev_app_distr. reflexivity. Qed.

(** The same end screen, whatever else of the state has changed. *)
Lemma outcomeAfter_frame (gs gs1 gs2 : GameState) (l : list Player) :
  isActive gs2 = isActive gs1 -> dom gs2 = dom gs1 ->
  outcomeAfter gs gs1 l -> outcomeAfter gs gs2 l.
Proof.
  unfold outcomeAfter, sameOutcome. intros -> ->. tauto.
Qed.

(** The callbacks of a cycle leave the session alone and end it with the
    victory over the last opponent within range, if there is one. *)
Lemma fold_step_outcome (now : R) (locations : list Player)
    (gs : GameState) (ids : list string) :
  sameSession gs (fst (fold_left (step now) locations (gs, ids))) /\
  outcomeAfter gs (fst (fold_left (step now) locations (gs, ids)))
    (captures now gs locations).
Proof.
  induction locations as [|x l IH] using rev_ind.
  - simpl. split; [apply sameSession_refl|].
    unfold captures, capturable. simpl.
    destruct (lastPosition gs); [destruct (eqs _ _)|];
      apply outcomeAfter_nil, sameOutcome_refl.
  - rewrite fold_left_app, captures_app. simpl.
    destruct (fold_left (step now) l (gs, ids)) as [gs1 ids1].
    simpl in IH. destruct IH as [Hsame Hout].
    unfold step.
    rewrite (visibility_sameSession now gs gs1 x Hsame).
    assert (Hx : captures now gs [x] =
      match visibility now gs x, lastPosition gs with
      | Shown _, Some own =>
          if eqs (playerRole gs) "hunter" && inRange own x then [x] else []
      | _, _ => []
      end).
    { unfold captures, capturable, filterVisibleOpponents. simpl.
      destruct (lastPosition gs) as [own|];
        [|now destruct (visibility now gs x)].
      destruct (eqs (playerRole gs) "hunter"); simpl;
        [|now destruct (visibility now gs x)].
      destruct (visibility now gs x); simpl; reflexivity. }
    rewrite Hx. clear Hx.
    destruct (visibility now gs x) as [| |age]; simpl.
    + rewrite app_nil_r. tauto.
    + rewrite app_nil_r. tauto.
    + destruct (placeMarker_frame x age gs1) as [Hs1 [Ha1 Hd1]].
      pose proof (evaluateCapture_sameSession x (placeMarker x age gs1)) as Hs2.
      split; [eauto using sameSession_trans|].
      destruct Hsame as [_ [Hrole [_ [_ [_ Hpos]]]]].
      destruct Hs1 as [_ [Hrole1 [_ [_ [_ Hpos1]]]]].
      unfold evaluateCapture. rewrite Hpos1, Hpos, Hrole1, Hrole.
      destruct (lastPosition gs) as [own|].
      * destruct (eqs (playerRole gs) "hunter"); simpl.
        -- unfold inRange, distanceTo.
           destruct (Rleb _ CONFIG.CAPTURE_DISTANCE).
           ++ apply outcomeAfter_snoc. unfold endGame; simpl. tauto.
           ++ rewrite app_nil_r. eapply outcomeAfter_frame; eauto.
        -- rewrite app_nil_r. eapply outcomeAfter_frame; eauto.
      * rewrite app_nil_r. eapply outcomeAfter_frame; eauto.
Qed.

Lemma step_sameSession (now : R) (gs : GameState) (ids : list string)
    (p : Player) :
  sameSession gs (fst (step now (gs, ids) p)).
Proof.
  unfold step. destruct (visibility now gs p) as [| |age]; simpl;
    try apply sameSession_refl.
  eapply sameSession_trans;
    [apply placeMarker_frame | apply evaluateCapture_sameSession].
Qed.

(** ** Cycles that run through and cycles that break off *)

Lemma includes_In (xs : list string) (x : string) :
  includes xs x = true <-> In x xs.
Proof.
  unfold includes. rewrite existsb_exists. split.
  - intros [y [Hin Heq]]. apply String.eqb_eq in Heq. now subst.
  - intros Hin. exists x. split; [assumption | apply String.eqb_refl].
Qed.

(** The lookup breaks exactly on an inherited name no marker is stored
    under. *)
Lemma showMarker_throws (p : Player) (age : R) (gs : GameState) :
  (showMarker p age gs = Throw gs /\
   In (playerId p) objectPrototypeNames /\
   JsMap.get (playerId p) (otherMarkers gs) = None) \/
  showMarker p age gs = Normal (placeMarker p age gs).
Proof.
  unfold showMarker, lookupMarker.
  destruct (JsMap.get (playerId p) (otherMarkers gs)); [now right|].
  destruct (includes objectPrototypeNames (playerId p)) eqn:E; [|now right].
  left. apply includes_In in E. tauto.
Qed.

(** A callback that returns has done what [step] does; one that throws has
    changed nothing. *)
Lemma visit_cases (now : R) (gs : GameState) (ids : list string)
    (p : Player) :
  visit now (gs, ids) p = Normal (step now (gs, ids) p) \/
  (exists ids' age,
     visit now (gs, ids) p = Throw (gs, ids') /\
     visibility now gs p = Shown age /\
     In (playerId p) objectPrototypeNames).
Proof.
  unfold visit, step.
  destruct (visibility now gs p) as [| |age]; try now left.
  destruct (showMarker_throws p age gs) as [[-> [Hin _]] | ->]; [|now left].
  right. eauto.
Qed.

Lemma forEach_visit_normal (now : R) (locations : list Player) :
  forall (gs : GameState) (ids : list string) acc,
  forEach (visit now) locations (gs, ids) = Normal acc ->
  acc = fold_left (step now) locations (gs, ids).
Proof.
  induction locations as [|x l IH]; intros gs ids acc; cbn [forEach fold_left].
  - now intros [= <-].
  - destruct (visit_cases now gs ids x) as [-> | [ids' [age [-> _]]]];
      [|discriminate].
    destruct (step now (gs, ids) x) as [gs1 ids1]. apply IH.
Qed.

(** Whether it returns or throws, the loop leaves the state its callbacks
    leave on a front part of the snapshot. *)
Lemma forEach_visit_prefix (now : R) (locations : list Player) :
  forall (gs : GameState) (ids : list string),
  exists front back,
    locations = front ++ back /\
    fst (after (forEach (visit now) locations (gs, ids))) =
    fst (fold_left (step now) front (gs, ids)).
Proof.
  induction locations as [|x l IH]; intros gs ids; cbn [forEach].
  - exists [], []. split; reflexivity.
  - destruct (visit_cases now gs ids x) as [-> | [ids' [age [-> _]]]].
    + destruct (step now (gs, ids) x) as [gs1 ids1] eqn:E.
      destruct (IH gs1 ids1) as [front [back [-> H]]].
      exists (x :: front), back. split; [reflexivity|].
      cbn [fold_left]. now rewrite E.
    + exists [], (x :: l). split; reflexivity.
Qed.

Lemma placeable_cons (now : R) (gs : GameState) (x : Player)
    (l : list Player) :
  placeable now gs (x :: l) ->
  (forall age, visibility now gs x = Shown age ->
     ~ In (playerId x) objectPrototypeNames) /\
  placeable now gs l.
Proof.
  unfold placeable, filterVisibleOpponents. cbn [flat_map].
  intros H. split.
  - intros age Hv. apply (H x age). rewrite Hv. now left.
  - intros p age Hin. apply (H p age). apply in_or_app. now right.
Qed.

(** When every marker can be placed the loop runs through. *)
Lemma forEach_visit_placeable (now : R) (gs0 : GameState)
    (locations : list Player) :
  forall (gs : GameState) (ids : list string),
  sameSession gs0 gs -> placeable now gs0 locations ->
  forEach (visit now) locations (gs, ids) =
  Normal (fold_left (step now) locations (gs, ids)).
Proof.
  induction locations as [|x l IH]; intros gs ids Hsame Hp;
    cbn [forEach fold_left]; [reflexivity|].
  apply placeable_cons in Hp as [Hx Hl].
  pose proof (step_sameSession now gs ids x) as Hsame1.
  destruct (visit_cases now gs ids x) as [-> | [ids' [age [_ [Hv Hin]]]]].
  - destruct (step now (gs, ids) x) as [gs1 ids1]. cbn [fst] in Hsame1.
    apply IH; [eauto using sameSession_trans | assumption].
  - rewrite (visibility_sameSession now gs0 gs x Hsame) in Hv.
    now destruct (Hx age Hv).
Qed.

Lemma updateOtherPlayers_placeable (now : R) (gs : GameState)
    (locations : list Player) :
  placeable now gs locations ->
  exists gs', updateOtherPlayers now gs locations = Normal gs'.
Proof.
  intros Hp. unfold updateOtherPlayers.
  destruct (map gs); [|eauto].
  rewrite (forEach_visit_placeable now gs locations gs []
             (sameSession_refl gs) Hp).
  destruct (fold_left (step now) locations (gs, [])) as [gs1 ids1]. eauto.
Qed.

(** A cycle leaves the session alone; one that runs through ends it with
    the victory over the last opponent within range, if there is one. *)
Lemma updateOtherPlayers_sameSession (now : R) (gs : GameState)
    (locations : list Player) :
  sameSession gs (after (updateOtherPlayers now gs locations)).
Proof.
  unfold updateOtherPlayers.
  destruct (map gs); [|apply sameSession_refl].
  destruct (forEach_visit_prefix now locations gs [])
    as [front [back [_ Hfront]]].
  pose proof (fold_step_outcome now front gs []) as [Hsame _].
  rewrite <- Hfront in Hsame.
  destruct (forEach (visit now) locations (gs, [])) as [[gs1 ids1]|[gs1 ids1]];
    cbn [after fst] in *; [|exact Hsame].
  unfold sameSession in *. simpl. tauto.
Qed.

Lemma updateOtherPlayers_outcome (now : R) (gs gs' : GameState)
    (locations : list Player) :
  map gs <> None ->
  updateOtherPlayers now gs locations = Normal gs' ->
  sameSession gs gs' /\
  outcomeAfter gs gs' (captures now gs locations).
Proof.
  intros Hmap. unfold updateOtherPlayers.
  destruct (map gs) as [view|] eqn:Emap; [clear Hmap | contradiction].
  destruct (forEach (visit now) locations (gs, [])) as [[gs1 ids1]|[gs1 ids1]]
    eqn:E; [|discriminate].
  apply forEach_visit_normal in E.
  pose proof (fold_step_outcome now locations gs []) as [Hsame Hout].
  rewrite <- E in Hsame, Hout. cbn [fst] in Hsame, Hout.
  intros [= <-]. split.
  - unfold sameSession in *. simpl. tauto.
  - unfold outcomeAfter, sameOutcome in *. simpl.
    destruct (rev (captures now gs locations)); simpl; tauto.
Qed.

(** ** The visible opponents are the ones shown on the map *)

Lemma placeMarker_has (p : Player) (age : R) (gs : GameState) (id : string) :
  id = playerId p \/ JsMap.has id (otherMarkers gs) = true ->
  JsMap.has id (otherMarkers (placeMarker p age gs)) = true.
Proof.
  intros H. unfold placeMarker.
  destruct (String.eqb_spec id (playerId p)) as [->|Hne].
  - destruct (JsMap.get (playerId p) (otherMarkers gs)); simpl;
      apply JsMapFacts.has_set_same.
  - destruct H as [H|H]; [contradiction|].
    destruct (JsMap.get (playerId p) (otherMarkers gs)); simpl;
      now rewrite JsMapFacts.has_set_other.
Qed.

Lemma evaluateCapture_markers (p : Player) (gs : GameState) :
  otherMarkers (evaluateCapture p gs) = otherMarkers gs.
Proof.
  unfold evaluateCapture.
  destruct (lastPosition gs); [|reflexivity].
  destruct (eqs (playerRole gs) "hunter"); [|reflexivity].
  now destruct (Rleb _ _).
Qed.

(** A callback removes no marker and forgets no player. *)
Lemma step_keeps (now : R) (gs : GameState) (ids : list string)
    (p : Player) (id : string) :
  JsMap.has id (otherMarkers gs) = true -> In id ids ->
  JsMap.has id (otherMarkers (fst (step now (gs, ids) p))) = true /\
  In id (snd (step now (gs, ids) p)).
Proof.
  intros Hhas Hin. unfold step.
  destruct (visibility now gs p) as [| |age]; simpl.
  - tauto.
  - tauto.
  - rewrite evaluateCapture_markers.
    split; [apply placeMarker_has; now right | now right].
Qed.

Lemma fold_step_keeps (now : R) (locations : list Player) (id : string) :
  forall (gs : GameState) (ids : list string),
  JsMap.has id (otherMarkers gs) = true -> In id ids ->
  JsMap.has id
    (otherMarkers (fst (fold_left (step now) locations (gs, ids)))) = true /\
  In id (snd (fold_left (step now) locations (gs, ids))).
Proof.
  induction locations as [|x l IH]; intros gs ids Hhas Hin; cbn [fold_left].
  - simpl. tauto.
  - destruct (step_keeps now gs ids x id Hhas Hin) as [H1 H2].
    destruct (step now (gs, ids) x) as [gs1 ids1]. now apply IH.
Qed.

Lemma fold_step_shows (now : R) (locations : list Player) (gs0 : GameState)
    (p : Player) (age : R) :
  forall (gs : GameState) (ids : list string),
  sameSession gs0 gs ->
  In (p, age) (filterVisibleOpponents locations gs0 now) ->
  JsMap.has (playerId p)
    (otherMarkers (fst (fold_left (step now) locations (gs, ids)))) = true /\
  In (playerId p) (snd (fold_left (step now) locations (gs, ids))).
Proof.
  induction locations as [|x l IH]; intros gs ids Hsame Hin.
  - contradiction.
  - unfold filterVisibleOpponents in Hin. simpl in Hin.
    fold (filterVisibleOpponents l gs0 now) in Hin.
    cbn [fold_left].
    pose proof (step_sameSession now gs ids x) as Hsame1.
    apply in_app_iff in Hin as [Hin|Hin].
    + assert (Hv : visibility now gs x = Shown age /\ x = p).
      { rewrite (visibility_sameSession now gs0 gs x Hsame).
        destruct (visibility now gs0 x) as [| |a]; try contradiction.
        destruct Hin as [[= <- <-]|[]]. tauto. }
      destruct Hv as [Hv ->].
      assert (H1 : JsMap.has (playerId p)
                     (otherMarkers (fst (step now (gs, ids) p))) = true /\
                   In (playerId p) (snd (step now (gs, ids) p))).
      { unfold step. rewrite Hv. simpl. rewrite evaluateCapture_markers.
        split; [apply placeMarker_has; now left | now left]. }
      destruct (step now (gs, ids) p) as [gs1 ids1].
      apply fold_step_keeps; tauto.
    + destruct (step now (gs, ids) x) as [gs1 ids1]. simpl in Hsame1.
      apply IH; [eauto using sameSession_trans | assumption].
Qed.

Lemma removeGone_keeps (ids : list string) (gs : GameState) (id : string) :
  JsMap.has id (otherMarkers gs) = true -> In id ids ->
  JsMap.has id (otherMarkers (removeGone ids gs)) = true.
Proof.
  intros Hhas Hin. unfold removeGone. simpl.
  generalize (JsMap.keys (otherMarkers gs)) as l.
  revert Hhas. generalize (otherMarkers gs) as m.
  intros m Hhas l. revert m Hhas.
  induction l as [|k l IH]; intros m Hhas; simpl; [assumption|].
  apply IH. destruct (includes ids k) eqn:E; simpl; [assumption|].
  apply JsMapFacts.has_delete_other; [|assumption].
  intros ->. apply includes_In in Hin. congruence.
Qed.

(** After a cycle that runs through every visible opponent of the snapshot
    has its marker on the map. *)
Lemma updateOtherPlayers_shows (now : R) (gs gs' : GameState)
    (locations : list Player) (p : Player) (age : R) :
  map gs <> None ->
  updateOtherPlayers now gs locations = Normal gs' ->
  In (p, age) (filterVisibleOpponents locations gs now) ->
  JsMap.has (playerId p) (otherMarkers gs') = true.
Proof.
  intros Hmap Hrun Hin. unfold updateOtherPlayers in Hrun.
  destruct (map gs); [|contradiction].
  destruct (forEach (visit now) locations (gs, [])) as [[gs1 ids1]|[gs1 ids1]]
    eqn:E; [|discriminate].
  apply forEach_visit_normal in E.
  destruct (fold_step_shows now locations gs p age gs []
              (sameSession_refl gs) Hin) as [Hhas Hid].
  rewrite <- E in Hhas, Hid. cbn [fst snd] in Hhas, Hid.
  injection Hrun as <-. simpl. now apply removeGone_keeps.
Qed.

(** A player that is skipped or too recent gets no new marker: the
    callback leaves the state as it is. *)
Lemma step_hidden (now : R) (gs : GameState) (ids : list string)
    (p : Player) :
  (forall age, visibility now gs p <> Shown age) ->
  fst (step now (gs, ids) p) = gs.
Proof.
  intros H. unfold step.
  destruct (visibility now gs p) as [| |age]; try reflexivity.
  now destruct (H age).
Qed.

(** The example session is the one [startGame] and a first accurate fix
    lead to, from a name and a code typed with spaces and in lower case. *)
Lemma hunterSession_reached :
  handlePositionSuccess 2000 0 0 10
    (startGame 1000 "p_h" " Hana " "game1 " (Some "hunter")
       initialGameState) =
  hunterSession.
Proof.
  assert (Hstart :
    startGame 1000 "p_h" " Hana " "game1 " (Some "hunter") initialGameState =
    mkGameState (Some "p_h") (Some "Hana") (Some "hunter") (Some "GAME1") true
      (Some 1000) (Some (0, 0)) None None JsMap.empty true true None true
      (mkDom None 0 (Some 600000) "timer" "" "" false true false)).
  { unfold startGame.
    change (trim " Hana ") with "Hana".
    change (toUpperCase (trim "game1 ")) with "GAME1".
    cbn [String.eqb Ascii.eqb Bool.eqb orb].
    unfold updateTimer, initialGameState, initialDom, toNumber,
      CONFIG.GAME_DURATION.
    cbn [startTime dom accuracyDisplay playerCount timer timerClass endTitle
         endMessage startScreen gameScreen endScreen].
    destruct (Rleb_spec (600000 - (1000 - 1000)) 0); [lra|].
    destruct (Rltb_spec (600000 - (1000 - 1000)) 60000); [lra|].
    destruct (Rltb_spec (600000 - (1000 - 1000)) 180000); [lra|].
    unfold set_dom. cbn.
    replace (600000 - (1000 - 1000)) with 600000 by lra.
    reflexivity. }
  rewrite Hstart. clear Hstart.
  unfold handlePositionSuccess, set_dom, CONFIG.MAX_ACCURACY_THRESHOLD.
  cbn [dom accuracyDisplay playerCount timer timerClass endTitle
       endMessage startScreen gameScreen endScreen].
  destruct (Rgtb_spec 10 100); [lra|].
  unfold updatePlayerMarker. cbn.
  destruct (Reqb_spec 1000 0); [lra|].
  destruct (Rltb_spec (2000 - 1000) 1000); [lra|].
  reflexivity.
Qed.

(** The gate on the own position: a fix is kept when its accuracy is at
    most MAX_ACCURACY_THRESHOLD (100 m), and otherwise the previous one
    stays. *)
Lemma handlePositionSuccess_gate (now latitude longitude accuracy : R)
    (gs : GameState) :
  lastPosition (handlePositionSuccess now latitude longitude accuracy gs) =
  if Rleb accuracy CONFIG.MAX_ACCURACY_THRESHOLD
  then Some (mkPosition latitude longitude accuracy now)
  else lastPosition gs.
Proof.
  unfold handlePositionSuccess, updatePlayerMarker.
  destruct (Rgtb_spec accuracy CONFIG.MAX_ACCURACY_THRESHOLD),
    (Rleb_spec accuracy CONFIG.MAX_ACCURACY_THRESHOLD); try lra.
  - reflexivity.
  - simpl. now destruct (map gs).
Qed.

(** ** Capture *)

Lemma In_captures (now : R) (gs : GameState) (locations : list Player)
    (p : Player) :
  In p (captures now gs locations) <->
  playerRole gs = Some "hunter" /\
  exists own, lastPosition gs = Some own /\
    (exists age, In (p, age) (filterVisibleOpponents locations gs now)) /\
    distanceTo own p <= CONFIG.CAPTURE_DISTANCE.
Proof.
  unfold captures, capturable.
  destruct (lastPosition gs) as [own|].
  - destruct (eqs_spec (playerRole gs) "hunter") as [Hrole|Hrole].
    + rewrite filter_In, in_map_iff. unfold inRange. split.
      * intros [[[p' age] [Hp Hin]] Hd]. simpl in Hp. subst p'.
        split; [assumption|]. exists own. split; [reflexivity|].
        split; [eauto|].
        destruct (Rleb_spec (distanceTo own p) CONFIG.CAPTURE_DISTANCE);
          [assumption | discriminate].
      * intros [_ [own' [[= <-] [[age Hin] Hd]]]]. split.
        -- exists (p, age). split; [reflexivity | assumption].
        -- destruct (Rleb_spec (distanceTo own p) CONFIG.CAPTURE_DISTANCE);
             [reflexivity | contradiction].
    + split; [intros [] | intros [H _]; contradiction].
  - split; [intros [] | intros [_ [own [H _]]]; discriminate].
Qed.

Lemma not_inherited (id : string) :
  includes objectPrototypeNames id = false ->
  ~ In id objectPrototypeNames.
Proof.
  intros H Hin. apply includes_In in Hin. congruence.
Qed.

Lemma visible_at_200000 (p : Player) :
  playerId p <> "p_h" -> role p = "hunted" -> timestamp p = 0 ->
  filterVisibleOpponents [p] hunterSession 200000 = [(p, 200000 - 0)].
Proof.
  intros Hid Hrole Ht. unfold filterVisibleOpponents, visibility.
  cbn [flat_map gs_playerId playerRole hunterSession eqs].
  apply String.eqb_neq in Hid. rewrite String.eqb_sym in Hid.
  rewrite Hid, Hrole, Ht. simpl. unfold CONFIG.POSITION_DELAY.
  destruct (Rltb_spec (200000 - 0) 120000); [lra | reflexivity].
Qed.

Lemma distanceTo_farAway : distanceTo (mkPosition 0 0 10 2000) farAway = 100.
Proof.
  unfold distanceTo, farAway. cbn [pos_lat pos_lon lat lon].
  apply calculateDistance_equator. lra.
Qed.

(** C3. The capture check misses an opponent whose player id names a
    property every object inherits.  At instant 200000 the hunter of the
    example, whose accepted position is the origin, receives one hunted
    player who stands on the same spot under the id constructor: she is a
    visible opponent at haversine distance 0, yet the cycle throws at the
    lookup of her marker, before the capture check, and the session goes
    on.  The same player under the id p_m is captured; a hunted player
    100 m away is not. *)
Theorem C3_inherited_id_escapes_capture :
  playerRole hunterSession = Some "hunter" /\
  lastPosition hunterSession = Some (mkPosition 0 0 10 2000) /\
  visibleOpponent 200000 hunterSession (malloryAs "constructor") /\
  distanceTo (mkPosition 0 0 10 2000) (malloryAs "constructor") = 0 /\
  CONFIG.CAPTURE_DISTANCE = 50 /\
  updateOtherPlayers 200000 hunterSession [malloryAs "constructor"] =
    Throw hunterSession /\
  isActive hunterSession = true /\
  (exists gs',
     updateOtherPlayers 200000 hunterSession [malloryAs "p_m"] = Normal gs' /\
     ended gs' /\
     endTitle (dom gs') = "🎉 Victory!" /\
     endMessage (dom gs') = "You captured Mallory!") /\
  (exists gs',
     updateOtherPlayers 200000 hunterSession [farAway] = Normal gs' /\
     distanceTo (mkPosition 0 0 10 2000) farAway > CONFIG.CAPTURE_DISTANCE /\
     isActive gs' = true).
Proof.
  split; [reflexivity|]. split; [reflexivity|].
  split.
  { unfold visibleOpponent, opposite, CONFIG.POSITION_DELAY. simpl.
    split; [discriminate|]. split; [now left | lra]. }
  split; [apply calculateDistance_same|].
  split; [reflexivity|].
  split.
  { unfold updateOtherPlayers. cbn [map hunterSession forEach visit].
    unfold visibility. simpl. unfold CONFIG.POSITION_DELAY.
    destruct (Rltb_spec (200000 - 0) 120000); [lra | reflexivity]. }
  split; [reflexivity|].
  assert (Hmap : map hunterSession <> None) by discriminate.
  split.
  - destruct (updateOtherPlayers_placeable 200000 hunterSession
                [malloryAs "p_m"]) as [gs' Hrun].
    { intros p age Hin.
      rewrite visible_at_200000 in Hin by (try reflexivity; discriminate).
      destruct Hin as [[= <- _]|[]]. now apply not_inherited. }
    exists gs'. split; [assumption|].
    destruct (updateOtherPlayers_outcome 200000 hunterSession gs'
                [malloryAs "p_m"] Hmap Hrun) as [_ Hout].
    unfold captures, capturable, inRange in Hout.
    cbn [lastPosition playerRole hunterSession eqs String.eqb Ascii.eqb
         Bool.eqb] in Hout.
    rewrite visible_at_200000 in Hout by (try reflexivity; discriminate).
    cbn [List.map fst filter] in Hout.
    unfold distanceTo in Hout. cbn [pos_lat pos_lon lat lon malloryAs] in Hout.
    rewrite calculateDistance_same in Hout.
    unfold CONFIG.CAPTURE_DISTANCE in Hout.
    destruct (Rleb_spec 0 50); [|lra].
    unfold outcomeAfter in Hout. cbn [rev app] in Hout. unfold ended. tauto.
  - destruct (updateOtherPlayers_placeable 200000 hunterSession [farAway])
      as [gs' Hrun].
    { intros p age Hin.
      rewrite visible_at_200000 in Hin by (try reflexivity; discriminate).
      destruct Hin as [[= <- _]|[]]. now apply not_inherited. }
    exists gs'. split; [assumption|].
    split; [rewrite distanceTo_farAway; unfold CONFIG.CAPTURE_DISTANCE; lra|].
    destruct (updateOtherPlayers_outcome 200000 hunterSession gs'
                [farAway] Hmap Hrun) as [_ Hout].
    unfold captures, capturable, inRange in Hout.
    cbn [lastPosition playerRole hunterSession eqs String.eqb Ascii.eqb
         Bool.eqb] in Hout.
    rewrite visible_at_200000 in Hout by (try reflexivity; discriminate).
    cbn [List.map fst filter] in Hout.
    rewrite distanceTo_farAway in Hout.
    unfold CONFIG.CAPTURE_DISTANCE in Hout.
    destruct (Rleb_spec 100 50); [lra|].
    unfold outcomeAfter, sameOutcome in Hout. cbn [rev] in Hout.
    destruct Hout as [-> _]. reflexivity.
Qed.

(** The visible opponents of the example: both hunted players are two
    minutes old at instant 200000 and stand on the hunter. *)
Lemma example_visible :
  filterVisibleOpponents [alice; bob] hunterSession 200000 =
  [(alice, 200000 - 0); (bob, 200000 - 0)].
Proof.
  unfold filterVisibleOpponents, visibility. simpl.
  unfold CONFIG.POSITION_DELAY.
  destruct (Rltb_spec (200000 - 0) 120000); [lra | reflexivity].
Qed.


Lemma example_placeable : placeable 200000 hunterSession [alice; bob].
Proof.
  intros p age Hin. rewrite example_visible in Hin.
  destruct Hin as [[= <- _]|[[= <- _]|[]]]; now apply not_inherited.
Qed.




(** ** Survival *)

(** C5. [updateTimer] ends an active session, with the timeout screen, if
    and only if the elapsed time [now - startTime] is at least
    GAME_DURATION (600000 ms): not at 599999 ms, and at 600000 ms it
    does. *)
Theorem C5_evaluateSurvival_timeout_iff (now : R) (gs : GameState) :
  isActive gs = true ->
  let elapsed := now - toNumber (startTime gs) in
  let gs' := updateTimer now gs in
  CONFIG.GAME_DURATION = 600000 /\
  (ended gs' <-> elapsed >= CONFIG.GAME_DURATION) /\
  (ended gs' ->
     gs' = endGame "timeout" "Time's up! Hunted players survived." gs /\
     endTitle (dom gs') = "⏰ Time's Up!" /\
     endMessage (dom gs') = "Time's up! Hunted players survived." /\
     endScreen (dom gs') = true) /\
  (elapsed = 599999 -> isActive gs' = true) /\
  (elapsed = 600000 -> ended gs').
Proof.
  intros Hactive elapsed gs'.
  assert (Hiff : ended gs' <-> elapsed >= CONFIG.GAME_DURATION).
  { unfold ended, gs', updateTimer. fold elapsed.
    unfold CONFIG.GAME_DURATION.
    destruct (Rleb_spec (600000 - elapsed) 0); simpl.
    - split; [lra | reflexivity].
    - split; [congruence | lra]. }
  split; [reflexivity|]. split; [exact Hiff|]. split; [|split].
  - intros Hend. apply Hiff in Hend. unfold gs', updateTimer. fold elapsed.
    unfold CONFIG.GAME_DURATION in *.
    destruct (Rleb_spec (600000 - elapsed) 0); [|lra].
    simpl. tauto.
  - intros He. destruct (isActive gs') eqn:E; [reflexivity|].
    apply Hiff in E. unfold CONFIG.GAME_DURATION in E. lra.
  - intros He. apply Hiff. unfold CONFIG.GAME_DURATION. lra.
Qed.

Lemma C5_witness :
  let elapsed := 600999 - toNumber (startTime hunterSession) in
  let gs' := updateTimer 600999 hunterSession in
  CONFIG.GAME_DURATION = 600000 /\
  (ended gs' <-> elapsed >= CONFIG.GAME_DURATION) /\
  (ended gs' ->
     gs' = endGame "timeout" "Time's up! Hunted players survived."
             hunterSession /\
     endTitle (dom gs') = "⏰ Time's Up!" /\
     endMessage (dom gs') = "Time's up! Hunted players survived." /\
     endScreen (dom gs') = true) /\
  (elapsed = 599999 -> isActive gs' = true) /\
  (elapsed = 600000 -> ended gs').
Proof.
  apply (C5_evaluateSurvival_timeout_iff 600999 hunterSession).
  reflexivity.
Defined.

End ClientFacts.

(** * The position relay *)

Module WorkerFacts.
Import Worker.

(** ** [handleUpdateLocation] validates, then stores *)

Lemma handleUpdateLocation_rejected (st : State) (data : Data)
    (origin : option string) :
  accepted data = None ->
  exists msg,
    handleUpdateLocation st (Some data) origin =
    (st, jsonResponse (ErrorBody msg) 400 origin).
Proof.
  unfold accepted, handleUpdateLocation, required.
  destruct (data_playerId data); [|eauto].
  destruct (data_playerName data); [|eauto].
  destruct (data_role data); [|eauto].
  destruct (data_gameCode data); [|eauto].
  destruct (data_lat data); [|eauto].
  destruct (data_lon data); [|eauto].
  destruct (data_timestamp data); [|eauto].
  destruct (Rltb _ (-90) || Rgtb _ 90); [eauto|].
  destruct (Rltb _ (-180) || Rgtb _ 180); [eauto|].
  destruct (negb _); [eauto | discriminate].
Qed.

Lemma get_stored_same (rec : PlayerData) (gd : JsMap.t (JsMap.t PlayerData)) :
  JsMap.get (gameCode rec) (stored rec gd) =
  Some (JsMap.set (playerId rec) rec (playersOf (gameCode rec) gd)).
Proof.
  unfold stored. rewrite JsMapFacts.get_set_same. f_equal. f_equal.
  unfold playersOf, JsMap.has.
  destruct (JsMap.get (gameCode rec) gd) eqn:E; simpl.
  - now rewrite E.
  - now rewrite JsMapFacts.get_set_same.
Qed.

Lemma get_stored_other (rec : PlayerData) (gd : JsMap.t (JsMap.t PlayerData))
    (code : string) :
  code <> gameCode rec -> JsMap.get code (stored rec gd) = JsMap.get code gd.
Proof.
  intros Hne. unfold stored.
  rewrite JsMapFacts.get_set_other by assumption.
  destruct (negb _); [|reflexivity].
  now rewrite JsMapFacts.get_set_other.
Qed.

Lemma handleUpdateLocation_accepted (st : State) (data : Data)
    (origin : option string) (rec : PlayerData) :
  accepted data = Some rec ->
  handleUpdateLocation st (Some data) origin =
  (mkState (stored rec (gameData st)) (rateLimitMap st),
   jsonResponse
     (UpdatedBody
        (JsMap.size (playersOf (gameCode rec) (stored rec (gameData st)))))
     200 origin).
Proof.
  intros Hacc.
  assert (Hplayers : playersOf (gameCode rec) (stored rec (gameData st)) =
    JsMap.set (playerId rec) rec (playersOf (gameCode rec) (gameData st))).
  { unfold playersOf at 1. now rewrite get_stored_same. }
  rewrite Hplayers. clear Hplayers. revert Hacc.
  unfold accepted, handleUpdateLocation, required.
  destruct (data_playerId data); [|discriminate].
  destruct (data_playerName data); [|discriminate].
  destruct (data_role data); [|discriminate].
  destruct (data_gameCode data); [|discriminate].
  destruct (data_lat data); [|discriminate].
  destruct (data_lon data); [|discriminate].
  destruct (data_timestamp data); [|discriminate].
  destruct (Rltb _ (-90) || Rgtb _ 90); [discriminate|].
  destruct (Rltb _ (-180) || Rgtb _ 180); [discriminate|].
  destruct (negb (includes _ _)); [discriminate|].
  intros [= <-]. unfold stored, playersOf, JsMap.has. simpl.
  destruct (JsMap.get (slice0 10 (toUpperCase s2)) (gameData st)) eqn:E.
  - simpl. rewrite E. reflexivity.
  - simpl. rewrite JsMapFacts.get_set_same. reflexivity.
Qed.

(** An update is answered 200 exactly when the body passes the validation,
    and 400 otherwise. *)
Lemma handleUpdateLocation_status (st : State) (data : Data)
    (origin : option string) :
  status (snd (handleUpdateLocation st (Some data) origin)) = 200%Z <->
  accepted data <> None.
Proof.
  destruct (accepted data) as [rec|] eqn:E.
  - rewrite (handleUpdateLocation_accepted st data origin rec E). simpl.
    split; [discriminate | reflexivity].
  - destruct (handleUpdateLocation_rejected st data origin E) as [msg ->].
    simpl. split; [discriminate | congruence].
Qed.

(** ** The shape of the store is kept *)

Lemma wfPlayers_empty : wfPlayers JsMap.empty.
Proof. split; [constructor | intros k r []]. Qed.

Lemma wfGameData_empty : wfGameData JsMap.empty.
Proof. split; [constructor | intros k r []]. Qed.

Lemma wfPlayers_set (rec : PlayerData) (players : JsMap.t PlayerData) :
  wfPlayers players -> wfPlayers (JsMap.set (playerId rec) rec players).
Proof.
  intros [Hwf Hid]. split; [now apply JsMapFacts.wf_set|].
  intros k r Hin. apply JsMapFacts.In_set_inv in Hin; [|assumption].
  destruct Hin as [[= -> ->]|[Hin _]]; [reflexivity | eauto].
Qed.

Lemma wfPlayers_playersOf (code : string) (gd : JsMap.t (JsMap.t PlayerData)) :
  wfGameData gd -> wfPlayers (playersOf code gd).
Proof.
  intros [_ Hall]. unfold playersOf.
  destruct (JsMap.get code gd) eqn:E; [|apply wfPlayers_empty].
  apply JsMapFacts.get_In in E. eauto.
Qed.

Lemma wfGameData_set (code : string) (players : JsMap.t PlayerData)
    (gd : JsMap.t (JsMap.t PlayerData)) :
  wfGameData gd -> wfPlayers players -> wfGameData (JsMap.set code players gd).
Proof.
  intros [Hwf Hall] Hp. split; [now apply JsMapFacts.wf_set|].
  intros c ps Hin. apply JsMapFacts.In_set_inv in Hin; [|assumption].
  destruct Hin as [[= -> ->]|[Hin _]]; [assumption | eauto].
Qed.

Lemma wfGameData_stored (rec : PlayerData) (gd : JsMap.t (JsMap.t PlayerData)) :
  wfGameData gd -> wfGameData (stored rec gd).
Proof.
  intros Hgd. unfold stored.
  assert (Hgd1 : wfGameData
    (if negb (JsMap.has (gameCode rec) gd)
     then JsMap.set (gameCode rec) JsMap.empty gd else gd)).
  { destruct (negb _); [|assumption].
    apply wfGameData_set; [assumption | apply wfPlayers_empty]. }
  apply wfGameData_set; [assumption|].
  apply wfPlayers_set, wfPlayers_playersOf, Hgd1.
Qed.

(** ** What an accepted update stores *)

Lemma accepted_fields (data : Data) (rec : PlayerData) :
  accepted data = Some rec ->
  Some (playerId rec) = option_map (slice0 50) (data_playerId data) /\
  Some (playerName rec) = option_map (slice0 20) (data_playerName data) /\
  Some (role rec) = data_role data /\
  Some (gameCode rec) =
    option_map (fun c => slice0 10 (toUpperCase c)) (data_gameCode data) /\
  Some (lat rec) = data_lat data /\
  Some (lon rec) = data_lon data /\
  accuracy rec = match data_accuracy data with Some a => a | None => 0 end /\
  Some (timestamp rec) = data_timestamp data.
Proof.
  unfold accepted.
  destruct (data_playerId data); [|discriminate].
  destruct (data_playerName data); [|discriminate].
  destruct (data_role data); [|discriminate].
  destruct (data_gameCode data); [|discriminate].
  destruct (data_lat data); [|discriminate].
  destruct (data_lon data); [|discriminate].
  destruct (data_timestamp data); [|discriminate].
  destruct (Rltb _ (-90) || Rgtb _ 90); [discriminate|].
  destruct (Rltb _ (-180) || Rgtb _ 180); [discriminate|].
  destruct (negb (includes _ _)); [discriminate|].
  intros [= <-]. simpl. repeat split.
  destruct (data_accuracy data) as [a|]; [|reflexivity].
  destruct (Reqb_spec a 0); congruence.
Qed.

Lemma accepted_ranges (data : Data) (rec : PlayerData) :
  accepted data = Some rec ->
  -90 <= lat rec <= 90 /\ -180 <= lon rec <= 180 /\
  (role rec = "hunter" \/ role rec = "hunted").
Proof.
  unfold accepted.
  destruct (data_playerId data); [|discriminate].
  destruct (data_playerName data); [|discriminate].
  destruct (data_role data) as [d_role|]; [|discriminate].
  destruct (data_gameCode data); [|discriminate].
  destruct (data_lat data) as [d_lat|]; [|discriminate].
  destruct (data_lon data) as [d_lon|]; [|discriminate].
  destruct (data_timestamp data); [|discriminate].
  destruct (Rltb_spec d_lat (-90)), (Rgtb_spec d_lat 90); try discriminate.
  destruct (Rltb_spec d_lon (-180)), (Rgtb_spec d_lon 180); try discriminate.
  simpl. unfold includes. simpl.
  destruct (String.eqb_spec d_role "hunter"), (String.eqb_spec d_role "hunted");
    simpl; try discriminate; intros [= <-]; simpl;
    (split; [lra | split; [lra | tauto]]).
Qed.

(** After an update answered 200 the store holds, under the sanitized game
    code and player id, the record the body was accepted as. *)
Lemma handleUpdateLocation_stores (st : State) (data : Data)
    (origin : option string) :
  status (snd (handleUpdateLocation st (Some data) origin)) = 200%Z ->
  exists rec,
    accepted data = Some rec /\
    fst (handleUpdateLocation st (Some data) origin) =
      mkState (stored rec (gameData st)) (rateLimitMap st) /\
    JsMap.get (playerId rec)
      (playersOf (gameCode rec)
         (gameData (fst (handleUpdateLocation st (Some data) origin)))) =
    Some rec.
Proof.
  intros H. apply handleUpdateLocation_status in H.
  destruct (accepted data) as [rec|] eqn:E; [|congruence].
  exists rec. split; [reflexivity|].
  rewrite (handleUpdateLocation_accepted st data origin rec E). simpl.
  split; [reflexivity|].
  unfold playersOf at 1. rewrite get_stored_same.
  apply JsMapFacts.get_set_same.
Qed.

Lemma accepted_kimAt (a t : R) :
  accepted (kimAt a t) =
  Some (mkPlayerData "p_k" "Kim" "hunted" "GAME1" 51 0
          (if Reqb a 0 then 0 else a) t).
Proof.
  unfold accepted, kimAt. simpl.
  destruct (Rltb_spec 51 (-90)); [lra|].
  destruct (Rgtb_spec 51 90); [lra|].
  destruct (Rltb_spec 0 (-180)); [lra|].
  destruct (Rgtb_spec 0 180); [lra|].
  reflexivity.
Qed.

(** The first request of a source to an empty relay passes the rate limiter
    and the sweep, which find nothing to do. *)
Lemma handleRequest_post_initial (now : R) (data : Data) :
  handleRequest now initial (post data) =
  handleUpdateLocation
    (mkState JsMap.empty [("203.0.113.7", mkLimit 1 (now + 60000))])
    (Some data) None.
Proof.
  unfold handleRequest, route, post, initial, clientIP, checkRateLimit,
    cleanOldData, cleanGames, cleanLimits.
  simpl.
  destruct (Rgtb_spec now (now + 60000)); [lra|]. reflexivity.
Qed.

(** C1, at the failing input.  An update received at instant
    1700000000000 whose body carries the timestamp 1699999800000 is
    accepted, and the stored record carries the body's timestamp, not the
    instant of receipt. *)
Lemma C1_client_timestamp_stored :
  let now := 1700000000000 in
  let answer := handleRequest now initial (post (kimAt 10 1699999800000)) in
  status (snd answer) = 200%Z /\
  exists rec,
    JsMap.get "p_k" (playersOf "GAME1" (gameData (fst answer))) = Some rec /\
    timestamp rec = 1699999800000 /\
    timestamp rec <> now.
Proof.
  intros now answer. unfold answer.
  rewrite handleRequest_post_initial.
  rewrite (handleUpdateLocation_accepted _ _ _ _ (accepted_kimAt _ _)).
  simpl. split; [reflexivity|].
  eexists. split; [reflexivity|]. simpl. unfold now. split; lra.
Qed.

(** C10, as stated, fails: an update whose accuracy is -5 is accepted and
    stored with that negative accuracy. *)
Lemma C10_negative_accuracy_stored :
  let answer := handleUpdateLocation initial (Some (kimAt (-5) 1000)) None in
  status (snd answer) = 200%Z /\
  exists rec,
    JsMap.get "p_k" (playersOf "GAME1" (gameData (fst answer))) = Some rec /\
    accuracy rec = -5 /\
    accuracy rec < 0.
Proof.
  intros answer. unfold answer.
  rewrite (handleUpdateLocation_accepted _ _ _ _ (accepted_kimAt _ _)).
  simpl. split; [reflexivity|].
  eexists. split; [reflexivity|]. simpl.
  destruct (Reqb_spec (-5) 0); [lra|]. split; lra.
Qed.

(** C10, amended. Every record accepted and stored by an update carries the
    accuracy of the request unchanged when the field is present, a negative
    value included, and 0 when it is absent; the stored accuracy is
    therefore non-negative whenever the request's accuracy is absent or
    non-negative. *)
Theorem C10_stored_accuracy_is_the_request_s (st : State) (data : Data)
    (origin : option string) :
  status (snd (handleUpdateLocation st (Some data) origin)) = 200%Z ->
  exists code id rec,
    option_map (fun c => slice0 10 (toUpperCase c)) (data_gameCode data) =
      Some code /\
    option_map (slice0 50) (data_playerId data) = Some id /\
    JsMap.get id
      (playersOf code
         (gameData (fst (handleUpdateLocation st (Some data) origin)))) =
      Some rec /\
    accuracy rec = match data_accuracy data with Some a => a | None => 0 end /\
    (match data_accuracy data with Some a => 0 <= a | None => True end ->
     0 <= accuracy rec).
Proof.
  intros H. destruct (handleUpdateLocation_stores st data origin H)
    as [rec [Hacc [_ Hget]]].
  destruct (accepted_fields data rec Hacc)
    as [Hid [_ [_ [Hcode [_ [_ [Ha _]]]]]]].
  exists (gameCode rec), (playerId rec), rec.
  repeat split; try congruence.
  rewrite Ha. destruct (data_accuracy data); intros; lra.
Qed.

Lemma C10_witness :
  exists code id rec,
    option_map (fun c => slice0 10 (toUpperCase c))
      (data_gameCode (kimAt (-5) 1000)) = Some code /\
    option_map (slice0 50) (data_playerId (kimAt (-5) 1000)) = Some id /\
    JsMap.get id
      (playersOf code
         (gameData
            (fst (handleUpdateLocation initial (Some (kimAt (-5) 1000))
                    None)))) = Some rec /\
    accuracy rec =
      match data_accuracy (kimAt (-5) 1000) with Some a => a | None => 0 end /\
    (match data_accuracy (kimAt (-5) 1000) with
     | Some a => 0 <= a
     | None => True
     end -> 0 <= accuracy rec).
Proof.
  apply (C10_stored_accuracy_is_the_request_s initial (kimAt (-5) 1000) None).
  rewrite (handleUpdateLocation_accepted _ _ _ _ (accepted_kimAt _ _)).
  reflexivity.
Defined.

(** ** Validation failures *)

Lemma accepted_out_of_range (data : Data) :
  (exists x, data_lat data = Some x /\ (x < -90 \/ x > 90)) \/
  (exists x, data_lon data = Some x /\ (x < -180 \/ x > 180)) ->
  accepted data = None.
Proof.
  intros H. unfold accepted.
  destruct (data_playerId data); [|reflexivity].
  destruct (data_playerName data); [|reflexivity].
  destruct (data_role data); [|reflexivity].
  destruct (data_gameCode data); [|reflexivity].
  destruct (data_lat data) as [d_lat|]; [|reflexivity].
  destruct (data_lon data) as [d_lon|]; [|reflexivity].
  destruct (data_timestamp data); [|reflexivity].
  destruct (Rltb_spec d_lat (-90)), (Rgtb_spec d_lat 90); try reflexivity.
  destruct (Rltb_spec d_lon (-180)), (Rgtb_spec d_lon 180); try reflexivity.
  exfalso. destruct H as [[x [[= <-] Hx]]|[x [[= <-] Hx]]]; lra.
Qed.

(** C6. An update whose latitude is outside [-90, 90] (91, say) or whose
    longitude is outside [-180, 180] is answered with the client error 400
    and leaves the store as it was: no record is written and no partition
    is created for its game code. *)
Theorem C6_out_of_range_rejected_without_mutation (st : State) (data : Data)
    (origin : option string) :
  (exists x, data_lat data = Some x /\ (x < -90 \/ x > 90)) \/
  (exists x, data_lon data = Some x /\ (x < -180 \/ x > 180)) ->
  let answer := handleUpdateLocation st (Some data) origin in
  status (snd answer) = 400%Z /\
  (exists msg, body (snd answer) = ErrorBody msg) /\
  fst answer = st /\
  (forall code,
     JsMap.has code (gameData (fst answer)) = JsMap.has code (gameData st)).
Proof.
  intros H answer. unfold answer.
  destruct (handleUpdateLocation_rejected st data origin
              (accepted_out_of_range data H)) as [msg ->].
  simpl. eauto.
Qed.

Lemma C6_witness :
  let answer :=
    handleUpdateLocation initial
      (Some (mkData (Some "p_k") (Some "Kim") (Some "hunted") (Some "game1")
               (Some 91) (Some 0) (Some 10) (Some 1000)))
      None in
  status (snd answer) = 400%Z /\
  (exists msg, body (snd answer) = ErrorBody msg) /\
  fst answer = initial /\
  (forall code,
     JsMap.has code (gameData (fst answer)) =
     JsMap.has code (gameData initial)).
Proof.
  apply (C6_out_of_range_rejected_without_mutation initial
           (mkData (Some "p_k") (Some "Kim") (Some "hunted") (Some "game1")
              (Some 91) (Some 0) (Some 10) (Some 1000))
           None).
  left. exists 91. split; [reflexivity | lra].
Defined.

(** ** Last write wins *)

Lemma values_filter_absent (id : string) (players : JsMap.t PlayerData) :
  (forall k r, In (k, r) players -> playerId r = k) ->
  ~ In id (JsMap.keys players) ->
  filter (fun r => String.eqb (playerId r) id) (JsMap.values players) = [].
Proof.
  induction players as [|[k r] m IH]; simpl; intros Hid Hnotin.
  - reflexivity.
  - assert (Hk : playerId r = k) by (apply Hid; now left).
    destruct (String.eqb_spec (playerId r) id) as [E|_].
    + exfalso. apply Hnotin. left. congruence.
    + apply IH; [|tauto]. intros k0 r0 Hin. apply Hid. now right.
Qed.

Lemma values_set_own (rec : PlayerData) (players : JsMap.t PlayerData) :
  wfPlayers players ->
  filter (fun r => String.eqb (playerId r) (playerId rec))
    (JsMap.values (JsMap.set (playerId rec) rec players)) = [rec].
Proof.
  intros [Hwf Hid]. unfold JsMap.wf in Hwf.
  induction players as [|[k r] m IH]; simpl.
  - now rewrite String.eqb_refl.
  - inversion Hwf as [|? ? Hnotin Hwf']; subst.
    destruct (String.eqb_spec (playerId rec) k) as [Heq|Hne]; simpl.
    + rewrite String.eqb_refl. f_equal.
      apply values_filter_absent.
      * intros k0 r0 Hin. apply Hid. now right.
      * now rewrite Heq.
    + assert (Hk : playerId r = k) by (apply Hid; now left).
      destruct (String.eqb_spec (playerId r) (playerId rec)) as [E|_];
        [congruence|].
      apply IH; [assumption|].
      intros k0 r0 Hin. apply Hid. now right.
Qed.

Lemma handleGetLocations_known (st : State) (q : string)
    (origin : option string) :
  q <> "" ->
  handleGetLocations st (Some q) origin =
  (st,
   jsonResponse
     (LocationsBody
        (JsMap.values (playersOf (slice0 10 (toUpperCase q)) (gameData st)))
        (List.length
           (JsMap.values
              (playersOf (slice0 10 (toUpperCase q)) (gameData st)))))
     200 origin).
Proof.
  intros Hq. unfold handleGetLocations, truthy, playersOf.
  destruct (String.eqb_spec q ""); [contradiction|]. simpl.
  now destruct (JsMap.get _ (gameData st)).
Qed.

(** C7. After two updates answered 200 for the same game code and player
    id, the list of that game holds exactly one record with that player
    id, and it is the record of the second update: each of its values is
    the second body's, none is kept from the first. *)
Theorem C7_second_upsert_overwrites (st : State) (data1 data2 : Data)
    (o1 o2 o3 : option string) (q : string) :
  wfGameData (gameData st) ->
  let answer1 := handleUpdateLocation st (Some data1) o1 in
  let answer2 := handleUpdateLocation (fst answer1) (Some data2) o2 in
  status (snd answer1) = 200%Z ->
  status (snd answer2) = 200%Z ->
  option_map (slice0 50) (data_playerId data1) =
    option_map (slice0 50) (data_playerId data2) ->
  option_map (fun c => slice0 10 (toUpperCase c)) (data_gameCode data1) =
    option_map (fun c => slice0 10 (toUpperCase c)) (data_gameCode data2) ->
  q <> "" ->
  Some (slice0 10 (toUpperCase q)) =
    option_map (fun c => slice0 10 (toUpperCase c)) (data_gameCode data2) ->
  exists locations rec,
    handleGetLocations (fst answer2) (Some q) o3 =
      (fst answer2,
       jsonResponse (LocationsBody locations (List.length locations)) 200 o3) /\
    filter (fun r => String.eqb (playerId r) (playerId rec)) locations =
      [rec] /\
    Some (playerId rec) = option_map (slice0 50) (data_playerId data2) /\
    Some (playerName rec) = option_map (slice0 20) (data_playerName data2) /\
    Some (role rec) = data_role data2 /\
    Some (lat rec) = data_lat data2 /\
    Some (lon rec) = data_lon data2 /\
    accuracy rec =
      match data_accuracy data2 with Some a => a | None => 0 end /\
    Some (timestamp rec) = data_timestamp data2.
Proof.
  intros Hwf answer1 answer2 H1 H2 _ _ Hq Hcode.
  destruct (handleUpdateLocation_stores st data1 o1 H1)
    as [rec1 [_ [Hst1 _]]].
  fold answer1 in Hst1.
  destruct (handleUpdateLocation_stores (fst answer1) data2 o2 H2)
    as [rec [Hacc [Hst2 _]]].
  fold answer2 in Hst2.
  destruct (accepted_fields data2 rec Hacc)
    as [Hid [Hname [Hrole [Hgc [Hlat [Hlon [Ha Hts]]]]]]].
  exists (JsMap.values (playersOf (slice0 10 (toUpperCase q))
                          (gameData (fst answer2)))), rec.
  split; [now apply handleGetLocations_known|].
  split; [|tauto].
  assert (Hc : slice0 10 (toUpperCase q) = gameCode rec) by congruence.
  rewrite Hc, Hst2. simpl.
  unfold playersOf at 1. rewrite get_stored_same.
  apply values_set_own, wfPlayers_playersOf.
  rewrite Hst1. simpl. now apply wfGameData_stored.
Qed.

Lemma C7_witness :
  exists locations rec,
    handleGetLocations
      (fst (handleUpdateLocation
              (fst (handleUpdateLocation initial (Some (kimAt 10 1000)) None))
              (Some (kimAt 20 6000)) None))
      (Some "game1") None =
      (fst (handleUpdateLocation
              (fst (handleUpdateLocation initial (Some (kimAt 10 1000)) None))
              (Some (kimAt 20 6000)) None),
       jsonResponse (LocationsBody locations (List.length locations)) 200
         None) /\
    filter (fun r => String.eqb (playerId r) (playerId rec)) locations =
      [rec] /\
    Some (playerId rec) =
      option_map (slice0 50) (data_playerId (kimAt 20 6000)) /\
    Some (playerName rec) =
      option_map (slice0 20) (data_playerName (kimAt 20 6000)) /\
    Some (role rec) = data_role (kimAt 20 6000) /\
    Some (lat rec) = data_lat (kimAt 20 6000) /\
    Some (lon rec) = data_lon (kimAt 20 6000) /\
    accuracy rec =
      match data_accuracy (kimAt 20 6000) with Some a => a | None => 0 end /\
    Some (timestamp rec) = data_timestamp (kimAt 20 6000).
Proof.
  apply (C7_second_upsert_overwrites initial (kimAt 10 1000) (kimAt 20 6000)
           None None None "game1").
  - exact wfGameData_empty.
  - rewrite (handleUpdateLocation_accepted _ _ _ _ (accepted_kimAt _ _)).
    reflexivity.
  - rewrite (handleUpdateLocation_accepted _ _ _ _ (accepted_kimAt _ _)).
    reflexivity.
  - reflexivity.
  - reflexivity.
  - discriminate.
  - reflexivity.
Defined.

(** ** The rate limiter *)

Lemma handleUpdateLocation_limits (st : State) (json : option Data)
    (origin : option string) :
  rateLimitMap (fst (handleUpdateLocation st json origin)) = rateLimitMap st /\
  (status (snd (handleUpdateLocation st json origin)) = 200%Z \/
   status (snd (handleUpdateLocation st json origin)) = 400%Z).
Proof.
  destruct json as [data|]; [|simpl; tauto].
  destruct (accepted data) as [rec|] eqn:E.
  - rewrite (handleUpdateLocation_accepted st data origin rec E). simpl. tauto.
  - destruct (handleUpdateLocation_rejected st data origin E) as [msg ->].
    simpl. tauto.
Qed.

Lemma handleGetLocations_state (st : State) (q : option string)
    (origin : option string) :
  fst (handleGetLocations st q origin) = st /\
  (status (snd (handleGetLocations st q origin)) = 200%Z \/
   status (snd (handleGetLocations st q origin)) = 400%Z).
Proof.
  unfold handleGetLocations.
  destruct (negb (truthy q)); [simpl; tauto|].
  destruct (JsMap.get _ (gameData st)); simpl; tauto.
Qed.

(** No route touches the rate-limit map or answers 429. *)
Lemma route_limits (st : State) (request : Request) :
  rateLimitMap (fst (route st request)) = rateLimitMap st /\
  status (snd (route st request)) <> 429%Z.
Proof.
  unfold route.
  destruct (_ && _).
  { destruct (handleUpdateLocation_limits st (json request) (origin request))
      as [-> [->| ->]]; split; (reflexivity || discriminate). }
  destruct (_ && _).
  { destruct (handleGetLocations_state st (queryGameCode request)
                (origin request)) as [-> [->| ->]];
      split; (reflexivity || discriminate). }
  destruct (_ || _); simpl; split; (reflexivity || discriminate).
Qed.

Lemma cleanLimits_filter (now : R) (rl : JsMap.t Limit) :
  JsMap.wf rl ->
  cleanLimits now rl =
  filter (fun e => negb (Rgtb now (resetTime (snd e)))) rl.
Proof.
  intros Hwf. unfold cleanLimits, JsMap.entries.
  exact (JsMapFacts.fold_delete_filter
           (fun e => Rgtb now (resetTime (snd e))) rl Hwf).
Qed.

Lemma wf_cleanLimits (now : R) (rl : JsMap.t Limit) :
  JsMap.wf rl -> JsMap.wf (cleanLimits now rl).
Proof.
  intros Hwf. rewrite cleanLimits_filter by assumption.
  now apply JsMapFacts.wf_filter.
Qed.

(** The sweep keeps a window that has not run out. *)
Lemma cleanLimits_keeps (now : R) (rl : JsMap.t Limit) (ip : string)
    (limit : Limit) :
  JsMap.wf rl -> JsMap.get ip rl = Some limit -> now <= resetTime limit ->
  JsMap.get ip (cleanLimits now rl) = Some limit.
Proof.
  intros Hwf Hget Hnow. rewrite cleanLimits_filter by assumption.
  apply JsMapFacts.get_filter_keep; try assumption. simpl.
  destruct (Rgtb_spec now (resetTime limit)); [lra | reflexivity].
Qed.

Lemma wf_checkRateLimit (now : R) (ip : string) (rl : JsMap.t Limit) :
  JsMap.wf rl -> JsMap.wf (snd (checkRateLimit now ip rl)).
Proof.
  intros Hwf. unfold checkRateLimit.
  destruct (JsMap.get ip rl) as [limit|]; simpl;
    [|now apply JsMapFacts.wf_set].
  destruct (Rgtb now (resetTime limit)); simpl;
    [now apply JsMapFacts.wf_set|].
  destruct (count limit >=? CONFIG.RATE_LIMIT)%Z; simpl;
    [assumption | now apply JsMapFacts.wf_set].
Qed.

(** The windows are independent: a check for one source leaves the window
    of every other source as it was. *)
Lemma checkRateLimit_other (now : R) (ip ip' : string) (rl : JsMap.t Limit) :
  ip <> ip' ->
  JsMap.get ip (snd (checkRateLimit now ip' rl)) = JsMap.get ip rl.
Proof.
  intros Hne. unfold checkRateLimit.
  destruct (JsMap.get ip' rl) as [limit|]; simpl;
    [|now apply JsMapFacts.get_set_other].
  destruct (Rgtb now (resetTime limit)); simpl;
    [now apply JsMapFacts.get_set_other|].
  destruct (count limit >=? CONFIG.RATE_LIMIT)%Z; simpl;
    [reflexivity | now apply JsMapFacts.get_set_other].
Qed.

(** A check within a window: refused when the count has reached the limit,
    counted otherwise. *)
Lemma checkRateLimit_within (now : R) (ip : string) (rl : JsMap.t Limit)
    (c : Z) (T : R) :
  JsMap.get ip rl = Some (mkLimit c T) -> now <= T ->
  checkRateLimit now ip rl =
  if (c >=? CONFIG.RATE_LIMIT)%Z then (false, rl)
  else (true, JsMap.set ip (mkLimit (c + 1) T) rl).
Proof.
  intros Hget Hnow. unfold checkRateLimit. rewrite Hget. simpl.
  destruct (Rgtb_spec now T); [lra | reflexivity].
Qed.

(** A check that finds no window, or one that has run out, opens one. *)
Lemma checkRateLimit_opens (now : R) (ip : string) (rl : JsMap.t Limit) :
  match JsMap.get ip rl with
  | Some limit => now > resetTime limit
  | None => True
  end ->
  checkRateLimit now ip rl =
  (true, JsMap.set ip (mkLimit 1 (now + 60000)) rl).
Proof.
  unfold checkRateLimit. destruct (JsMap.get ip rl) as [limit|];
    [|reflexivity].
  intros H. destruct (Rgtb_spec now (resetTime limit)); [reflexivity | lra].
Qed.

Lemma handleRequest_options (now : R) (st : State) (request : Request) :
  String.eqb (method request) "OPTIONS" = true ->
  handleRequest now st request = (st, handleOptions (origin request)).
Proof. intros H. unfold handleRequest. now rewrite H. Qed.

(** A throttled request changes nothing. *)
Lemma handleRequest_throttled (now : R) (st : State) (request : Request) :
  status (snd (handleRequest now st request)) = 429%Z ->
  fst (handleRequest now st request) = st /\
  body (snd (handleRequest now st request)) =
    ErrorBody "Rate limit exceeded. Please try again later.".
Proof.
  unfold handleRequest.
  destruct (String.eqb (method request) "OPTIONS"); [discriminate|].
  unfold checkRateLimit.
  destruct (JsMap.get (clientIP request) (rateLimitMap st)) as [limit|];
    simpl.
  - destruct (Rgtb now (resetTime limit)); simpl.
    + intros H. now apply route_limits in H.
    + destruct (count limit >=? CONFIG.RATE_LIMIT)%Z; simpl.
      * intros _. now destruct st.
      * intros H. now apply route_limits in H.
  - intros H. now apply route_limits in H.
Qed.

(** One request received within the window [(c, T)] of a source: the
    window stays, and counts the request when it is one of the source's
    and the limit is not reached. *)
Lemma handleRequest_within (now : R) (st : State) (request : Request)
    (ip : string) (c : Z) (T : R) :
  JsMap.wf (rateLimitMap st) ->
  JsMap.get ip (rateLimitMap st) = Some (mkLimit c T) ->
  now <= T ->
  JsMap.wf (rateLimitMap (fst (handleRequest now st request))) /\
  if counted ip request then
    if (c >=? CONFIG.RATE_LIMIT)%Z then
      throttled (snd (handleRequest now st request)) = true /\
      JsMap.get ip (rateLimitMap (fst (handleRequest now st request))) =
        Some (mkLimit c T)
    else
      throttled (snd (handleRequest now st request)) = false /\
      JsMap.get ip (rateLimitMap (fst (handleRequest now st request))) =
        Some (mkLimit (c + 1) T)
  else
    JsMap.get ip (rateLimitMap (fst (handleRequest now st request))) =
      Some (mkLimit c T).
Proof.
  intros Hwf Hget Hnow. unfold counted, handleRequest.
  destruct (String.eqb (method request) "OPTIONS") eqn:Eopt; simpl.
  { rewrite andb_false_r. tauto. }
  rewrite andb_true_r.
  destruct (String.eqb_spec (clientIP request) ip) as [Hip|Hip].
  - rewrite Hip, (checkRateLimit_within now ip _ c T Hget Hnow).
    destruct (c >=? CONFIG.RATE_LIMIT)%Z; simpl; [tauto|].
    destruct (route_limits
                (cleanOldData now
                   (mkState (gameData st)
                      (JsMap.set ip (mkLimit (c + 1) T) (rateLimitMap st))))
                request) as [Hrl Hst].
    rewrite Hrl. simpl.
    split; [apply wf_cleanLimits, JsMapFacts.wf_set, Hwf|].
    split.
    + unfold throttled. now apply Z.eqb_neq.
    + apply cleanLimits_keeps;
        [now apply JsMapFacts.wf_set | apply JsMapFacts.get_set_same | exact Hnow].
  - pose proof (wf_checkRateLimit now (clientIP request) _ Hwf) as Hwf'.
    pose proof (checkRateLimit_other now ip (clientIP request)
                  (rateLimitMap st) (not_eq_sym Hip)) as Hother.
    destruct (checkRateLimit now (clientIP request) (rateLimitMap st))
      as [ok rl].
    simpl in Hwf', Hother. destruct ok; simpl.
    + destruct (route_limits
                  (cleanOldData now (mkState (gameData st) rl)) request)
        as [Hrl _].
      rewrite Hrl. simpl. split; [now apply wf_cleanLimits|].
      apply cleanLimits_keeps; [assumption | congruence | exact Hnow].
    + split; [assumption | congruence].
Qed.

(** The request that opens a window is let through and counted as the
    first. *)
Lemma handleRequest_opens (now : R) (st : State) (request : Request)
    (ip : string) :
  JsMap.wf (rateLimitMap st) ->
  counted ip request = true ->
  match JsMap.get ip (rateLimitMap st) with
  | Some limit => now > resetTime limit
  | None => True
  end ->
  JsMap.wf (rateLimitMap (fst (handleRequest now st request))) /\
  throttled (snd (handleRequest now st request)) = false /\
  JsMap.get ip (rateLimitMap (fst (handleRequest now st request))) =
    Some (mkLimit 1 (now + 60000)).
Proof.
  intros Hwf Hc Hopen. unfold counted in Hc.
  apply andb_prop in Hc as [Hip Hopt].
  apply String.eqb_eq in Hip. apply negb_true_iff in Hopt.
  unfold handleRequest. rewrite Hopt, Hip.
  rewrite (checkRateLimit_opens now ip _ Hopen). simpl.
  destruct (route_limits
              (cleanOldData now
                 (mkState (gameData st)
                    (JsMap.set ip (mkLimit 1 (now + 60000)) (rateLimitMap st))))
              request) as [Hrl Hst].
  rewrite Hrl. simpl.
  split; [apply wf_cleanLimits, JsMapFacts.wf_set, Hwf|].
  split.
  - unfold throttled. now apply Z.eqb_neq.
  - apply cleanLimits_keeps;
      [now apply JsMapFacts.wf_set | apply JsMapFacts.get_set_same | simpl; lra].
Qed.

Lemma throttledOf_cons (ip : string) (request : Request)
    (response : Response) (log : list (Request * Response)) :
  throttledOf ip ((request, response) :: log) =
  if counted ip request then throttled response :: throttledOf ip log
  else throttledOf ip log.
Proof. unfold throttledOf. simpl. now destruct (counted ip request). Qed.

Lemma serve_cons (st : State) (now : R) (request : Request)
    (rest : list (R * Request)) :
  snd (serve st ((now, request) :: rest)) =
  (request, snd (handleRequest now st request))
  :: snd (serve (fst (handleRequest now st request)) rest).
Proof.
  simpl. destruct (handleRequest now st request) as [st1 response].
  simpl. now destruct (serve st1 rest).
Qed.

(** Once the count has reached the limit every further request is
    throttled. *)
Lemma flags_full (c : Z) (start n : nat) :
  (CONFIG.RATE_LIMIT <= c)%Z ->
  List.map (fun j => (CONFIG.RATE_LIMIT <=? c + Z.of_nat j)%Z) (seq start n) =
  repeat true n.
Proof.
  intros Hc. revert start. induction n as [|n IH]; intros start; simpl.
  - reflexivity.
  - rewrite IH. f_equal. apply Z.leb_le. lia.
Qed.

Lemma flags_shift (c : Z) (n : nat) :
  List.map (fun j => (CONFIG.RATE_LIMIT <=? c + Z.of_nat j)%Z) (seq 1 n) =
  List.map (fun j => (CONFIG.RATE_LIMIT <=? c + 1 + Z.of_nat j)%Z) (seq 0 n).
Proof.
  rewrite <- seq_shift, map_map. apply map_ext. intros j.
  f_equal. lia.
Qed.

(** The requests received within the window [(c, T)] of a source: its
    [j]-th counted request from here on is throttled exactly when
    [c + j] has reached the limit, whatever the other sources send in
    between. *)
Lemma serve_within (ip : string) (T : R) (reqs : list (R * Request)) :
  forall (st : State) (c : Z),
  JsMap.wf (rateLimitMap st) ->
  JsMap.get ip (rateLimitMap st) = Some (mkLimit c T) ->
  (forall t r, In (t, r) reqs -> t <= T) ->
  throttledOf ip (snd (serve st reqs)) =
  List.map (fun j => (CONFIG.RATE_LIMIT <=? c + Z.of_nat j)%Z)
    (seq 0 (List.length (filter (counted ip) (List.map snd reqs)))).
Proof.
  induction reqs as [|[t r] rest IH]; intros st c Hwf Hget Htimes.
  - reflexivity.
  - rewrite serve_cons, throttledOf_cons.
    assert (Ht : t <= T) by (apply (Htimes t r); now left).
    assert (Hrest : forall t' r', In (t', r') rest -> t' <= T)
      by (intros t' r' Hin; apply (Htimes t' r'); now right).
    destruct (handleRequest_within t st r ip c T Hwf Hget Ht) as [Hwf' Hcase].
    cbn [List.map snd filter].
    destruct (counted ip r).
    + cbn [List.length seq List.map].
      destruct (c >=? CONFIG.RATE_LIMIT)%Z eqn:E.
      * destruct Hcase as [-> Hget'].
        rewrite (IH _ c Hwf' Hget' Hrest).
        rewrite Z.geb_leb in E. apply Z.leb_le in E.
        rewrite !flags_full by assumption.
        f_equal. symmetry. apply Z.leb_le. lia.
      * destruct Hcase as [-> Hget'].
        rewrite (IH _ (c + 1)%Z Hwf' Hget' Hrest).
        rewrite Z.geb_leb in E. apply Z.leb_gt in E.
        rewrite flags_shift. f_equal. symmetry. apply Z.leb_gt. lia.
    + exact (IH _ c Hwf' Hcase Hrest).
Qed.

(** C8. Of the requests a source sends in one window -- the one that opens
    it and those received until its reset time, 60000 ms later -- the
    first RATE_LIMIT (60) pass the limiter and every further one, the 61st
    included, is answered 429, whatever other sources send in between; a
    throttled request leaves the position store and the limiter as they
    were; a request received after the reset time passes; and a check for
    one source leaves the window of another alone.  The preflight
    requests, answered before the limiter, are not counted. *)
Theorem C8_rate_limit_per_source (st : State) (ip : string) (t0 : R)
    (r0 : Request) (rest : list (R * Request)) :
  JsMap.wf (rateLimitMap st) ->
  counted ip r0 = true ->
  match JsMap.get ip (rateLimitMap st) with
  | Some limit => t0 > resetTime limit
  | None => True
  end ->
  (forall t r, In (t, r) rest -> t <= t0 + 60000) ->
  CONFIG.RATE_LIMIT = 60%Z /\
  throttledOf ip (snd (serve st ((t0, r0) :: rest))) =
    List.map (fun i => (60 <=? i)%nat)
      (seq 0 (List.length (filter (counted ip) (r0 :: List.map snd rest)))) /\
  (forall now st' request,
     throttled (snd (handleRequest now st' request)) = true ->
     fst (handleRequest now st' request) = st' /\
     status (snd (handleRequest now st' request)) = 429%Z) /\
  (forall now st' request,
     JsMap.wf (rateLimitMap st') ->
     counted ip request = true ->
     match JsMap.get ip (rateLimitMap st') with
     | Some limit => now > resetTime limit
     | None => True
     end ->
     throttled (snd (handleRequest now st' request)) = false) /\
  (forall now ip' rl,
     ip <> ip' ->
     JsMap.get ip (snd (checkRateLimit now ip' rl)) = JsMap.get ip rl).
Proof.
  intros Hwf Hc Hopen Htimes.
  split; [reflexivity|]. split; [|split; [|split]].
  - rewrite serve_cons, throttledOf_cons, Hc.
    destruct (handleRequest_opens t0 st r0 ip Hwf Hc Hopen)
      as [Hwf' [-> Hget']].
    rewrite (serve_within ip (t0 + 60000) rest _ 1%Z Hwf' Hget' Htimes).
    simpl filter. rewrite Hc. cbn [List.length seq List.map].
    change (60 <=? 0)%nat with false. f_equal.
    rewrite <- seq_shift, map_map. apply map_ext. intros j.
    unfold CONFIG.RATE_LIMIT.
    destruct (Nat.leb_spec 60 (S j)); [apply Z.leb_le | apply Z.leb_gt]; lia.
  - intros now st' request H. unfold throttled in H. apply Z.eqb_eq in H.
    split; [now apply handleRequest_throttled | assumption].
  - intros now st' request Hwf' Hc' Hopen'.
    now destruct (handleRequest_opens now st' request ip Hwf' Hc' Hopen')
      as [_ [H _]].
  - intros now ip' rl Hne. now apply checkRateLimit_other.
Qed.

Lemma C8_witness :
  CONFIG.RATE_LIMIT = 60%Z /\
  throttledOf "203.0.113.7"
    (snd (serve initial
            ((0, getLocations "game1")
             :: repeat (1000, getLocations "game1") 60))) =
    List.map (fun i => (60 <=? i)%nat)
      (seq 0
         (List.length
            (filter (counted "203.0.113.7")
               (getLocations "game1"
                :: List.map snd
                     (repeat (1000, getLocations "game1") 60))))) /\
  (forall now st' request,
     throttled (snd (handleRequest now st' request)) = true ->
     fst (handleRequest now st' request) = st' /\
     status (snd (handleRequest now st' request)) = 429%Z) /\
  (forall now st' request,
     JsMap.wf (rateLimitMap st') ->
     counted "203.0.113.7" request = true ->
     match JsMap.get "203.0.113.7" (rateLimitMap st') with
     | Some limit => now > resetTime limit
     | None => True
     end ->
     throttled (snd (handleRequest now st' request)) = false) /\
  (forall now ip' rl,
     "203.0.113.7" <> ip' ->
     JsMap.get "203.0.113.7" (snd (checkRateLimit now ip' rl)) =
     JsMap.get "203.0.113.7" rl).
Proof.
  apply (C8_rate_limit_per_source initial "203.0.113.7" 0
           (getLocations "game1") (repeat (1000, getLocations "game1") 60)).
  - constructor.
  - reflexivity.
  - exact I.
  - intros t r H. apply repeat_spec in H. injection H as -> _. lra.
Defined.

(** The 61 requests of the example: the first 60 pass, the 61st is
    throttled. *)
Lemma example_sixty_first_throttled :
  throttledOf "203.0.113.7"
    (snd (serve initial
            ((0, getLocations "game1")
             :: repeat (1000, getLocations "game1") 60))) =
  repeat false 60 ++ [true].
Proof.
  assert (H : forall t r,
    In (t, r) (repeat (1000, getLocations "game1") 60) -> t <= 0 + 60000).
  { intros t r H. apply repeat_spec in H. injection H as -> _. lra. }
  rewrite serve_cons, throttledOf_cons.
  change (counted "203.0.113.7" (getLocations "game1")) with true. cbv iota.
  destruct (handleRequest_opens 0 initial (getLocations "game1")
              "203.0.113.7") as [Hwf' [-> Hget']];
    [constructor | reflexivity | exact I |].
  rewrite (serve_within "203.0.113.7" (0 + 60000) _ _ 1%Z Hwf' Hget' H).
  reflexivity.
Qed.

(** ** Eviction *)

Lemma cleanPlayers_filter (cutoff : R) (players : JsMap.t PlayerData) :
  JsMap.wf players ->
  cleanPlayers cutoff players = filter (fresh cutoff) players.
Proof.
  intros Hwf. unfold cleanPlayers, JsMap.entries.
  exact (JsMapFacts.fold_delete_filter
           (fun e => Rltb (timestamp (snd e)) cutoff) players Hwf).
Qed.

(** Under the shape of the store the sweep is a filter: it keeps, in
    order, the fresh records of each game and the games that keep one. *)
Lemma cleanGames_swept (cutoff : R) (gd : JsMap.t (JsMap.t PlayerData)) :
  wfGameData gd -> cleanGames cutoff gd = swept cutoff gd.
Proof.
  intros [Hwf Hall]. unfold cleanGames, swept, JsMap.entries.
  rewrite (JsMapFacts.fold_update_filter (cleanPlayers cutoff)
             (fun v => (JsMap.size v =? 0)%nat) gd Hwf).
  f_equal. apply map_ext_in. intros [code players] Hin. simpl.
  f_equal. apply cleanPlayers_filter. exact (proj1 (Hall code players Hin)).
Qed.

(** What the sweep leaves: for each game that keeps a fresh record, its
    fresh records. *)
Lemma In_swept (cutoff : R) (gd : JsMap.t (JsMap.t PlayerData))
    (code : string) (ps : JsMap.t PlayerData) :
  In (code, ps) (swept cutoff gd) <->
  exists players,
    In (code, players) gd /\ ps = filter (fresh cutoff) players /\ ps <> [].
Proof.
  unfold swept. rewrite filter_In, in_map_iff. simpl. split.
  - intros [[[c players] [[= -> <-] Hin]] Hsize]. simpl in Hsize.
    exists players. split; [assumption|]. split; [reflexivity|].
    intros E. rewrite E in Hsize. discriminate.
  - intros [players [Hin [-> Hne]]]. split.
    + exists (code, players). split; [reflexivity | assumption].
    + unfold JsMap.size. destruct (filter (fresh cutoff) players);
        [contradiction | reflexivity].
Qed.

Lemma wfPlayers_filter (f : string * PlayerData -> bool)
    (players : JsMap.t PlayerData) :
  wfPlayers players -> wfPlayers (filter f players).
Proof.
  intros [Hwf Hid]. split; [now apply JsMapFacts.wf_filter|].
  intros k r Hin. apply filter_In in Hin as [Hin _]. eauto.
Qed.

Lemma wfGameData_swept (cutoff : R) (gd : JsMap.t (JsMap.t PlayerData)) :
  wfGameData gd -> wfGameData (swept cutoff gd).
Proof.
  intros [Hwf Hall]. split.
  - unfold swept. apply JsMapFacts.wf_filter.
    unfold JsMap.wf, JsMap.keys in *. rewrite map_map. simpl. exact Hwf.
  - intros code ps Hin. apply In_swept in Hin as [players [Hin [-> _]]].
    apply wfPlayers_filter. eauto.
Qed.

(** A record the sweep finds fresh is still in its game afterwards. *)
Lemma swept_keeps (cutoff : R) (gd : JsMap.t (JsMap.t PlayerData))
    (code id : string) (rec : PlayerData) :
  wfGameData gd ->
  JsMap.get id (playersOf code gd) = Some rec ->
  cutoff <= timestamp rec ->
  JsMap.get id (playersOf code (swept cutoff gd)) = Some rec.
Proof.
  intros Hgd Hget Hfresh. unfold playersOf in Hget.
  destruct (JsMap.get code gd) as [players|] eqn:E; [|discriminate].
  assert (Hp : wfPlayers players).
  { apply (proj2 Hgd code). now apply JsMapFacts.get_In. }
  assert (Hkeep : JsMap.get id (filter (fresh cutoff) players) = Some rec).
  { apply JsMapFacts.get_filter_keep; [exact (proj1 Hp) | assumption |].
    unfold fresh. simpl.
    destruct (Rltb_spec (timestamp rec) cutoff); [lra | reflexivity]. }
  assert (Hin : In (code, filter (fresh cutoff) players) (swept cutoff gd)).
  { apply In_swept. exists players.
    split; [now apply JsMapFacts.get_In|]. split; [reflexivity|].
    intros Hnil. rewrite Hnil in Hkeep. discriminate. }
  unfold playersOf.
  rewrite (JsMapFacts.In_get _ _ _ (proj1 (wfGameData_swept cutoff gd Hgd)) Hin).
  exact Hkeep.
Qed.

(** The records a game holds after the sweep are all fresh. *)
Lemma swept_fresh (cutoff : R) (gd : JsMap.t (JsMap.t PlayerData))
    (code : string) (r : PlayerData) :
  In r (JsMap.values (playersOf code (swept cutoff gd))) ->
  cutoff <= timestamp r.
Proof.
  unfold playersOf.
  destruct (JsMap.get code (swept cutoff gd)) as [ps|] eqn:E; [|intros []].
  apply JsMapFacts.get_In, In_swept in E as [players [_ [-> _]]].
  unfold JsMap.values. rewrite in_map_iff.
  intros [[k r'] [Hr Hin]]. simpl in Hr. subst r'.
  apply filter_In in Hin as [_ Hf]. unfold fresh in Hf. simpl in Hf.
  destruct (Rltb_spec (timestamp r) cutoff); [discriminate | lra].
Qed.

(** The body of a list answer holds the records of one game of the store
    the route reads. *)
Lemma route_locations (st : State) (request : Request)
    (locations : list PlayerData) (n : nat) :
  body (snd (route st request)) = LocationsBody locations n ->
  exists code,
    locations = JsMap.values (playersOf code (gameData st)).
Proof.
  unfold route.
  destruct (_ && _).
  { destruct (json request) as [data|]; [|discriminate].
    destruct (accepted data) as [rec|] eqn:E.
    - rewrite (handleUpdateLocation_accepted st data _ rec E). discriminate.
    - destruct (handleUpdateLocation_rejected st data (origin request) E)
        as [msg ->]. discriminate. }
  destruct (_ && _).
  { unfold handleGetLocations.
    destruct (negb (truthy (queryGameCode request))); [discriminate|].
    set (code := slice0 10 (toUpperCase _)).
    destruct (JsMap.get code (gameData st)) as [game|] eqn:E; simpl;
      intros [= <- _]; exists code; unfold playersOf; now rewrite E. }
  destruct (_ || _); discriminate.
Qed.

(** A request that is not a preflight is throttled, or routed on the swept
    store. *)
Lemma handleRequest_routed (now : R) (st : State) (request : Request) :
  String.eqb (method request) "OPTIONS" = false ->
  throttled (snd (handleRequest now st request)) = false ->
  handleRequest now st request =
  route
    (cleanOldData now
       (mkState (gameData st)
          (snd (checkRateLimit now (clientIP request) (rateLimitMap st)))))
    request.
Proof.
  intros Hopt. unfold handleRequest. rewrite Hopt.
  destruct (checkRateLimit now (clientIP request) (rateLimitMap st))
    as [ok rl].
  destruct ok; simpl; [reflexivity | discriminate].
Qed.

Lemma handleRequest_locations (now : R) (st : State) (request : Request)
    (locations : list PlayerData) (n : nat) :
  wfGameData (gameData st) ->
  body (snd (handleRequest now st request)) = LocationsBody locations n ->
  exists code,
    locations =
    JsMap.values
      (playersOf code (swept (now - CONFIG.MAX_POSITION_AGE) (gameData st))).
Proof.
  intros Hwf. unfold handleRequest.
  destruct (String.eqb (method request) "OPTIONS"); [discriminate|].
  destruct (checkRateLimit now (clientIP request) (rateLimitMap st))
    as [ok rl].
  destruct ok; simpl; [|discriminate].
  intros H. apply route_locations in H as [code ->]. exists code.
  unfold cleanOldData. simpl. now rewrite cleanGames_swept.
Qed.

(** ** A rejected update, seen from [handleRequest]

    The request handler sweeps the store before it routes; the rejected
    update adds nothing to what the sweep leaves. *)

Lemma route_rejected (st : State) (request : Request) (data : Data) :
  json request = Some data -> accepted data = None ->
  fst (route st request) = st /\ status (snd (route st request)) <> 200%Z \/
  fst (route st request) = st /\
    String.eqb (pathname request) "/updateLocation" &&
    String.eqb (method request) "POST" = false.
Proof.
  intros Hjson Hacc. unfold route.
  destruct (_ && _).
  { left. rewrite Hjson.
    destruct (handleUpdateLocation_rejected st data (origin request) Hacc)
      as [msg ->]. simpl. split; [reflexivity | discriminate]. }
  right. split; [|reflexivity].
  destruct (_ && _).
  { now destruct (handleGetLocations_state st (queryGameCode request)
                    (origin request)) as [-> _]. }
  now destruct (_ || _).
Qed.

Lemma swept_sub (cutoff : R) (gd : JsMap.t (JsMap.t PlayerData))
    (code id : string) (rec : PlayerData) :
  wfGameData gd ->
  JsMap.get id (playersOf code (swept cutoff gd)) = Some rec ->
  JsMap.get id (playersOf code gd) = Some rec.
Proof.
  intros [Hwf Hall]. unfold playersOf.
  destruct (JsMap.get code (swept cutoff gd)) as [ps|] eqn:E; [|discriminate].
  apply JsMapFacts.get_In, In_swept in E as [players [Hin [-> _]]].
  intros Hget. apply JsMapFacts.get_In, filter_In in Hget as [Hget _].
  rewrite (JsMapFacts.In_get _ _ _ Hwf Hin).
  apply JsMapFacts.In_get; [exact (proj1 (Hall code players Hin)) | assumption].
Qed.

Lemma handleRequest_out_of_range (now : R) (st : State) (request : Request)
    (data : Data) :
  wfGameData (gameData st) ->
  json request = Some data ->
  (exists x, data_lat data = Some x /\ (x < -90 \/ x > 90)) \/
  (exists x, data_lon data = Some x /\ (x < -180 \/ x > 180)) ->
  forall code id rec,
    JsMap.get id
      (playersOf code (gameData (fst (handleRequest now st request)))) =
      Some rec ->
    JsMap.get id (playersOf code (gameData st)) = Some rec.
Proof.
  intros Hwf Hjson Hout code id rec.
  apply accepted_out_of_range in Hout.
  unfold handleRequest.
  destruct (String.eqb (method request) "OPTIONS"); [tauto|].
  destruct (checkRateLimit now (clientIP request) (rateLimitMap st))
    as [ok rl].
  destruct ok; simpl; [|tauto].
  destruct (route_rejected (cleanOldData now (mkState (gameData st) rl))
              request data Hjson Hout) as [[-> _]|[-> _]];
    unfold cleanOldData; simpl; rewrite cleanGames_swept by assumption;
    now apply swept_sub.
Qed.

(** ** Every state the relay reaches has the shape of the store *)

Lemma wfState_initial : wfState initial.
Proof. split; [apply wfGameData_empty | constructor]. Qed.

Lemma wfGameData_route (st : State) (request : Request) :
  wfGameData (gameData st) ->
  wfGameData (gameData (fst (route st request))).
Proof.
  intros Hwf. unfold route.
  destruct (_ && _).
  { destruct (json request) as [data|]; [|exact Hwf].
    destruct (accepted data) as [rec|] eqn:E.
    - rewrite (handleUpdateLocation_accepted st data _ rec E). simpl.
      now apply wfGameData_stored.
    - destruct (handleUpdateLocation_rejected st data (origin request) E)
        as [msg ->]. exact Hwf. }
  destruct (_ && _).
  { now destruct (handleGetLocations_state st (queryGameCode request)
                    (origin request)) as [-> _]. }
  destruct (_ || _); exact Hwf.
Qed.

Lemma wfGameData_handleRequest (now : R) (st : State) (request : Request) :
  wfGameData (gameData st) ->
  wfGameData (gameData (fst (handleRequest now st request))).
Proof.
  intros Hgd. unfold handleRequest.
  destruct (String.eqb (method request) "OPTIONS"); [assumption|].
  destruct (checkRateLimit now (clientIP request) (rateLimitMap st))
    as [ok rl].
  destruct ok; simpl; [|assumption].
  apply wfGameData_route. unfold cleanOldData. simpl.
  rewrite cleanGames_swept by assumption. now apply wfGameData_swept.
Qed.

Lemma wfState_handleRequest (now : R) (st : State) (request : Request) :
  wfState st -> wfState (fst (handleRequest now st request)).
Proof.
  intros [Hgd Hrl]. split; [now apply wfGameData_handleRequest|].
  unfold handleRequest.
  destruct (String.eqb (method request) "OPTIONS"); [assumption|].
  pose proof (wf_checkRateLimit now (clientIP request) _ Hrl) as Hrl'.
  destruct (checkRateLimit now (clientIP request) (rateLimitMap st))
    as [ok rl].
  simpl in Hrl'. destruct ok; simpl; [|assumption].
  rewrite (proj1 (route_limits _ request)). unfold cleanOldData. simpl.
  now apply wf_cleanLimits.
Qed.

Lemma wfState_serve (reqs : list (R * Request)) (st : State) :
  wfState st -> wfState (fst (serve st reqs)).
Proof.
  revert st. induction reqs as [|[now request] rest IH]; intros st Hwf.
  - exact Hwf.
  - simpl. pose proof (wfState_handleRequest now st request Hwf) as H1.
    destruct (handleRequest now st request) as [st1 response].
    pose proof (IH st1 H1) as H2.
    destruct (serve st1 rest) as [st2 log]. exact H2.
Qed.

(** ** A fresh record stays until it is overwritten *)

Lemma route_keeps (st : State) (request : Request) (code id : string) :
  ~ touches code id request ->
  JsMap.get id (playersOf code (gameData (fst (route st request)))) =
  JsMap.get id (playersOf code (gameData st)).
Proof.
  intros Hno. unfold route.
  destruct (_ && _).
  { destruct (json request) as [data|] eqn:Ej; [|reflexivity].
    destruct (accepted data) as [rec|] eqn:E.
    - rewrite (handleUpdateLocation_accepted st data _ rec E). simpl.
      destruct (String.eqb_spec code (gameCode rec)) as [->|Hc].
      + unfold playersOf at 1. rewrite get_stored_same.
        apply JsMapFacts.get_set_other. intros ->.
        apply Hno. exists data, rec. tauto.
      + unfold playersOf. now rewrite get_stored_other.
    - destruct (handleUpdateLocation_rejected st data (origin request) E)
        as [msg ->]. reflexivity. }
  destruct (_ && _).
  { now destruct (handleGetLocations_state st (queryGameCode request)
                    (origin request)) as [-> _]. }
  destruct (_ || _); reflexivity.
Qed.

Lemma handleRequest_keeps (now : R) (st : State) (request : Request)
    (code id : string) (rec : PlayerData) :
  wfGameData (gameData st) ->
  JsMap.get id (playersOf code (gameData st)) = Some rec ->
  now - timestamp rec <= CONFIG.MAX_POSITION_AGE ->
  ~ touches code id request ->
  JsMap.get id
    (playersOf code (gameData (fst (handleRequest now st request)))) =
  Some rec.
Proof.
  intros Hwf Hget Hnow Hno. unfold handleRequest.
  destruct (String.eqb (method request) "OPTIONS"); [assumption|].
  destruct (checkRateLimit now (clientIP request) (rateLimitMap st))
    as [ok rl].
  destruct ok; simpl; [|assumption].
  rewrite route_keeps by assumption.
  unfold cleanOldData. simpl. rewrite cleanGames_swept by assumption.
  apply swept_keeps; [assumption | assumption | lra].
Qed.

Lemma serve_keeps (code id : string) (rec : PlayerData)
    (reqs : list (R * Request)) :
  forall st : State,
  wfGameData (gameData st) ->
  JsMap.get id (playersOf code (gameData st)) = Some rec ->
  (forall t r, In (t, r) reqs ->
     t - timestamp rec <= CONFIG.MAX_POSITION_AGE /\ ~ touches code id r) ->
  wfGameData (gameData (fst (serve st reqs))) /\
  JsMap.get id (playersOf code (gameData (fst (serve st reqs)))) = Some rec.
Proof.
  induction reqs as [|[t r] rest IH]; intros st Hwf Hget Hreqs.
  - split; assumption.
  - simpl.
    destruct (Hreqs t r (or_introl eq_refl)) as [Ht Hno].
    pose proof (wfGameData_handleRequest t st r Hwf) as Hwf1.
    pose proof (handleRequest_keeps t st r code id rec Hwf Hget Ht Hno)
      as Hget1.
    destruct (handleRequest t st r) as [st1 response]. simpl in Hwf1, Hget1.
    assert (Hrest : forall t' r', In (t', r') rest ->
      t' - timestamp rec <= CONFIG.MAX_POSITION_AGE /\ ~ touches code id r')
      by (intros t' r' Hin; apply Hreqs; now right).
    pose proof (IH st1 Hwf1 Hget1 Hrest) as H.
    destruct (serve st1 rest) as [st2 log]. exact H.
Qed.

(** A request the limiter has room for is routed, after the sweep. *)
Lemma handleRequest_admitted (now : R) (st : State) (request : Request) :
  String.eqb (method request) "OPTIONS" = false ->
  admits now (clientIP request) (rateLimitMap st) ->
  handleRequest now st request =
  route
    (cleanOldData now
       (mkState (gameData st)
          (snd (checkRateLimit now (clientIP request) (rateLimitMap st)))))
    request.
Proof.
  intros Hopt Hroom. unfold handleRequest. rewrite Hopt.
  unfold admits in Hroom. unfold checkRateLimit.
  destruct (JsMap.get (clientIP request) (rateLimitMap st)) as [limit|];
    [|reflexivity].
  destruct (Rgtb_spec now (resetTime limit)) as [Hgt|Hle]; [reflexivity|].
  destruct Hroom as [Hgt|Hlt]; [lra|].
  destruct (Z.geb_spec (count limit) CONFIG.RATE_LIMIT); [lia | reflexivity].
Qed.

(** An accepted update the limiter has room for leaves its record in the
    store. *)
Lemma handleRequest_stores (now : R) (st : State) (request : Request)
    (data : Data) (rec : PlayerData) :
  method request = "POST" -> pathname request = "/updateLocation" ->
  json request = Some data -> accepted data = Some rec ->
  admits now (clientIP request) (rateLimitMap st) ->
  status (snd (handleRequest now st request)) = 200%Z /\
  JsMap.get (playerId rec)
    (playersOf (gameCode rec)
       (gameData (fst (handleRequest now st request)))) = Some rec.
Proof.
  intros Hm Hp Hj Hacc Hroom.
  rewrite handleRequest_admitted by (try assumption; now rewrite Hm).
  unfold route. rewrite Hp, Hm, Hj. cbn [String.eqb Ascii.eqb Bool.eqb andb].
  rewrite (handleUpdateLocation_accepted _ data _ rec Hacc).
  cbn [fst snd gameData status jsonResponse]. split; [reflexivity|].
  unfold playersOf at 1. rewrite get_stored_same.
  apply JsMapFacts.get_set_same.
Qed.

(** A list request the limiter has room for is answered with the swept
    game of its code. *)
Lemma handleRequest_lists (now : R) (st : State) (request : Request)
    (q : string) :
  wfGameData (gameData st) ->
  method request = "GET" -> pathname request = "/locations" ->
  queryGameCode request = Some q -> q <> "" ->
  admits now (clientIP request) (rateLimitMap st) ->
  let locations :=
    JsMap.values
      (playersOf (slice0 10 (toUpperCase q))
         (swept (now - CONFIG.MAX_POSITION_AGE) (gameData st))) in
  snd (handleRequest now st request) =
  jsonResponse (LocationsBody locations (List.length locations)) 200
    (origin request).
Proof.
  intros Hwf Hm Hp Hq Hne Hroom. cbv zeta.
  rewrite handleRequest_admitted by (try assumption; now rewrite Hm).
  unfold route. rewrite Hp, Hm, Hq. cbn [String.eqb Ascii.eqb Bool.eqb andb].
  rewrite handleGetLocations_known by assumption.
  cbn [snd cleanOldData gameData].
  now rewrite cleanGames_swept by assumption.
Qed.

(** C9. A record upserted at time T, with timestamp T, is listed by a list
    request at T + 14 minutes, whatever requests the relay has served in
    between that did not overwrite it, and no record of that player is
    listed at T + 16 minutes; each time the limiter has room for the
    request.  Before a request is routed the sweep removes every record
    whose timestamp is older than MAX_POSITION_AGE (15 minutes) and every
    game left without a record, so no list answer holds a record older
    than that. *)
Theorem C9_retention_window (st0 : State) (update : Request) (data : Data)
    (rec : PlayerData) (reqs : list (R * Request)) (request : Request)
    (q : string) (T : R) :
  wfGameData (gameData st0) ->
  method update = "POST" ->
  pathname update = "/updateLocation" ->
  json update = Some data ->
  accepted data = Some rec ->
  timestamp rec = T ->
  admits T (clientIP update) (rateLimitMap st0) ->
  (forall t r, In (t, r) reqs ->
     t - T <= CONFIG.MAX_POSITION_AGE /\
     ~ touches (gameCode rec) (playerId rec) r) ->
  method request = "GET" ->
  pathname request = "/locations" ->
  queryGameCode request = Some q ->
  q <> "" ->
  slice0 10 (toUpperCase q) = gameCode rec ->
  let st := fst (serve (fst (handleRequest T st0 update)) reqs) in
  admits (T + 14 * 60 * 1000) (clientIP request) (rateLimitMap st) ->
  admits (T + 16 * 60 * 1000) (clientIP request) (rateLimitMap st) ->
  CONFIG.MAX_POSITION_AGE = 900000 /\
  status (snd (handleRequest T st0 update)) = 200%Z /\
  (exists locations,
     snd (handleRequest (T + 14 * 60 * 1000) st request) =
       jsonResponse (LocationsBody locations (List.length locations)) 200
         (origin request) /\
     In rec locations) /\
  (exists locations,
     snd (handleRequest (T + 16 * 60 * 1000) st request) =
       jsonResponse (LocationsBody locations (List.length locations)) 200
         (origin request) /\
     forall r, In r locations -> playerId r <> playerId rec) /\
  (forall now locations n r,
     body (snd (handleRequest now st request)) = LocationsBody locations n ->
     In r locations ->
     ~ timestamp r < now - CONFIG.MAX_POSITION_AGE) /\
  (forall now c players,
     In (c, players) (gameData (cleanOldData now st)) ->
     players <> [] /\
     forall k r, In (k, r) players ->
       ~ timestamp r < now - CONFIG.MAX_POSITION_AGE).
Proof.
  intros Hwf0 Hum Hup Huj Hacc HT Hroom0 Hreqs Hm Hp Hq Hne Hcode st
    Hroom14 Hroom16.
  destruct (handleRequest_stores T st0 update data rec Hum Hup Huj Hacc Hroom0)
    as [Hok Hget1].
  pose proof (wfGameData_handleRequest T st0 update Hwf0) as Hwf1.
  rewrite <- HT in Hreqs.
  destruct (serve_keeps (gameCode rec) (playerId rec) rec reqs
              (fst (handleRequest T st0 update)) Hwf1 Hget1 Hreqs)
    as [Hwf Hget].
  fold st in Hwf, Hget.
  assert (Hold : forall now locations n r,
     body (snd (handleRequest now st request)) = LocationsBody locations n ->
     In r locations -> ~ timestamp r < now - CONFIG.MAX_POSITION_AGE).
  { intros now locations n r Hbody Hin.
    apply (handleRequest_locations now st request locations n Hwf) in Hbody
      as [c ->].
    apply swept_fresh in Hin. lra. }
  split; [unfold CONFIG.MAX_POSITION_AGE; lra|].
  split; [exact Hok|].
  split; [|split; [|split]].
  - eexists. split.
    + apply (handleRequest_lists _ st request q); assumption.
    + rewrite Hcode.
      apply (in_map snd _ (playerId rec, rec)), JsMapFacts.get_In.
      apply swept_keeps; [assumption | assumption|].
      unfold CONFIG.MAX_POSITION_AGE. lra.
  - eexists. split.
    + apply (handleRequest_lists _ st request q); assumption.
    + rewrite Hcode. intros r Hin Hid.
      pose proof (swept_fresh _ _ _ _ Hin) as Hfresh.
      unfold JsMap.values in Hin.
      apply in_map_iff in Hin as [[k r'] [Hr Hin]]. cbn [snd] in Hr. subst r'.
      set (gd := swept _ (gameData st)) in *.
      assert (Hwfs : wfGameData gd) by now apply wfGameData_swept.
      unfold playersOf in Hin.
      destruct (JsMap.get (gameCode rec) gd) as [ps|] eqn:Eps;
        [|destruct Hin].
      apply JsMapFacts.get_In in Eps.
      destruct (proj2 Hwfs _ _ Eps) as [Hnd Hkeys].
      pose proof (Hkeys _ _ Hin) as Hk.
      apply (JsMapFacts.In_get _ _ _ Hnd) in Hin.
      assert (Hsw : JsMap.get k (playersOf (gameCode rec) gd) = Some r).
      { unfold playersOf.
        now rewrite (JsMapFacts.In_get _ _ _ (proj1 Hwfs) Eps). }
      apply swept_sub in Hsw; [|assumption].
      rewrite <- Hk, Hid, Hget in Hsw. injection Hsw as <-.
      unfold CONFIG.MAX_POSITION_AGE in Hfresh. lra.
  - exact Hold.
  - intros now c players Hin. unfold cleanOldData in Hin. simpl in Hin.
    rewrite cleanGames_swept in Hin by assumption.
    apply In_swept in Hin as [players0 [_ [-> Hne']]].
    split; [assumption|].
    intros k r Hin. apply filter_In in Hin as [_ Hf].
    unfold fresh in Hf. simpl in Hf.
    destruct (Rltb_spec (timestamp r) (now - CONFIG.MAX_POSITION_AGE));
      [discriminate | assumption].
Qed.

Lemma kimStored_reached :
  fst (handleUpdateLocation initial (Some (kimAt 10 1000)) None) = kimStored.
Proof.
  rewrite (handleUpdateLocation_accepted _ _ _ _ (accepted_kimAt _ _)).
  simpl. unfold kimStored, stored. simpl.
  destruct (Reqb_spec 10 0); [lra | reflexivity].
Qed.

Lemma wfGameData_kimStored : wfGameData (gameData kimStored).
Proof.
  rewrite <- kimStored_reached.
  rewrite (handleUpdateLocation_accepted _ _ _ _ (accepted_kimAt _ _)).
  apply wfGameData_stored, wfGameData_empty.
Qed.

(** The windows of the limiter after Kim's update at instant 1000 and a
    list request of the same source at instant 300000. *)
Lemma example_limits :
  rateLimitMap
    (fst (serve (fst (handleRequest 1000 initial (post (kimAt 10 1000))))
            [(300000, getLocations "game1")])) =
  [("203.0.113.7", mkLimit 1 (300000 + 60000))].
Proof.
  rewrite handleRequest_post_initial.
  rewrite (handleUpdateLocation_accepted _ _ _ _ (accepted_kimAt _ _)).
  cbn [fst serve].
  set (st1 := mkState _ _).
  assert (Hroom : admits 300000 (clientIP (getLocations "game1"))
                    (rateLimitMap st1)).
  { unfold admits. simpl. left. lra. }
  rewrite (handleRequest_admitted 300000 st1 (getLocations "game1")
             eq_refl Hroom).
  match goal with
  | |- context [route ?s ?r] =>
      destruct (route_limits s r) as [Hrl _]; destruct (route s r)
  end.
  cbn [fst] in *. rewrite Hrl.
  unfold cleanOldData, st1.
  cbn [rateLimitMap clientIP getLocations connectingIP String.eqb Ascii.eqb
       Bool.eqb].
  rewrite checkRateLimit_opens by (simpl; lra).
  unfold cleanLimits. simpl.
  destruct (Rgtb_spec 300000 (300000 + 60000)); [lra | reflexivity].
Qed.

Lemma C9_witness :
  let kim :=
    mkPlayerData "p_k" "Kim" "hunted" "GAME1" 51 0
      (if Reqb 10 0 then 0 else 10) 1000 in
  let st :=
    fst (serve (fst (handleRequest 1000 initial (post (kimAt 10 1000))))
           [(300000, getLocations "game1")]) in
  CONFIG.MAX_POSITION_AGE = 900000 /\
  status (snd (handleRequest 1000 initial (post (kimAt 10 1000)))) = 200%Z /\
  (exists locations,
     snd (handleRequest (1000 + 14 * 60 * 1000) st (getLocations "game1")) =
       jsonResponse (LocationsBody locations (List.length locations)) 200
         (origin (getLocations "game1")) /\
     In kim locations) /\
  (exists locations,
     snd (handleRequest (1000 + 16 * 60 * 1000) st (getLocations "game1")) =
       jsonResponse (LocationsBody locations (List.length locations)) 200
         (origin (getLocations "game1")) /\
     forall r, In r locations -> playerId r <> playerId kim) /\
  (forall now locations n r,
     body (snd (handleRequest now st (getLocations "game1"))) =
       LocationsBody locations n ->
     In r locations ->
     ~ timestamp r < now - CONFIG.MAX_POSITION_AGE) /\
  (forall now c players,
     In (c, players) (gameData (cleanOldData now st)) ->
     players <> [] /\
     forall k r, In (k, r) players ->
       ~ timestamp r < now - CONFIG.MAX_POSITION_AGE).
Proof.
  apply (C9_retention_window initial (post (kimAt 10 1000)) (kimAt 10 1000)
           (mkPlayerData "p_k" "Kim" "hunted" "GAME1" 51 0
              (if Reqb 10 0 then 0 else 10) 1000)
           [(300000, getLocations "game1")] (getLocations "game1")
           "game1" 1000).
  - apply wfGameData_empty.
  - reflexivity.
  - reflexivity.
  - reflexivity.
  - apply accepted_kimAt.
  - reflexivity.
  - exact I.
  - intros t r [[= <- <-]|[]]. split.
    + unfold CONFIG.MAX_POSITION_AGE. simpl. lra.
    + intros [data [rec [Hjson _]]]. discriminate.
  - reflexivity.
  - reflexivity.
  - reflexivity.
  - discriminate.
  - reflexivity.
  - rewrite example_limits. unfold admits. simpl. left. lra.
  - rewrite example_limits. unfold admits. simpl. left. lra.
Defined.

End WorkerFacts.

(** * Further properties of the relay *)

Module RelayProperties.
Import Worker WorkerFacts.

(** ** Sanitized strings *)

Lemma upper_ascii_idem (c : ascii) : upper_ascii (upper_ascii c) = upper_ascii c.
Proof.
  destruct c as [[] [] [] [] [] [] [] []]; reflexivity.
Qed.

Lemma toUpperCase_idem (s : string) : toUpperCase (toUpperCase s) = toUpperCase s.
Proof.
  induction s as [|c s IH]; simpl; [reflexivity|].
  now rewrite upper_ascii_idem, IH.
Qed.

Lemma toUpperCase_substring (n m : nat) (s : string) :
  toUpperCase (substring n m s) = substring n m (toUpperCase s).
Proof.
  revert n m. induction s as [|c s IH]; intros n m; simpl.
  - now destruct n, m.
  - destruct n as [|n]; destruct m as [|m]; simpl; try reflexivity.
    + now rewrite IH.
    + apply IH.
    + apply IH.
Qed.

Lemma toUpperCase_empty (s : string) : toUpperCase s = "" <-> s = "".
Proof.
  destruct s; simpl; split; intros H; try reflexivity; discriminate.
Qed.

Lemma length_slice0 (n : nat) (s : string) :
  (String.length (slice0 n s) <= n)%nat.
Proof.
  unfold slice0. revert n. induction s as [|c s IH]; intros n; simpl.
  - destruct n; simpl; lia.
  - destruct n as [|n]; simpl; [lia|]. specialize (IH n). lia.
Qed.

Lemma slice0_short (n : nat) (s : string) :
  (String.length s <= n)%nat -> slice0 n s = s.
Proof.
  unfold slice0. revert n. induction s as [|c s IH]; intros n H; simpl.
  - now destruct n.
  - destruct n as [|n]; simpl in *; [lia|]. f_equal. apply IH. lia.
Qed.

Lemma slice0_idem (n : nat) (s : string) : slice0 n (slice0 n s) = slice0 n s.
Proof. apply slice0_short, length_slice0. Qed.

(** The game code of a request, as the relay keys it. *)
Lemma sanitized_code_upper (c : string) :
  toUpperCase (slice0 10 (toUpperCase c)) = slice0 10 (toUpperCase c).
Proof.
  unfold slice0. now rewrite toUpperCase_substring, toUpperCase_idem.
Qed.

(** ** The answers *)

Lemma getCorsHeaders_listed (o : option string) :
  In (getCorsHeaders o) CONFIG.ALLOWED_ORIGINS.
Proof.
  unfold getCorsHeaders. destruct o as [o|]; [|simpl; tauto].
  destruct (includes CONFIG.ALLOWED_ORIGINS o) eqn:E; [|simpl; tauto].
  unfold includes in E. apply existsb_exists in E as [x [Hin Hx]].
  apply String.eqb_eq in Hx. now subst.
Qed.

Lemma handleUpdateLocation_origin (st : State) (json : option Data)
    (o : option string) :
  allowOrigin (snd (handleUpdateLocation st json o)) = getCorsHeaders o.
Proof.
  destruct json as [data|]; [|reflexivity].
  destruct (accepted data) as [rec|] eqn:E.
  - now rewrite (handleUpdateLocation_accepted st data o rec E).
  - now destruct (handleUpdateLocation_rejected st data o E) as [msg ->].
Qed.

Lemma handleGetLocations_origin (st : State) (q o : option string) :
  allowOrigin (snd (handleGetLocations st q o)) = getCorsHeaders o.
Proof.
  unfold handleGetLocations. destruct (negb (truthy q)); [reflexivity|].
  now destruct (JsMap.get _ (gameData st)).
Qed.

Lemma handleRequest_origin (now : R) (st : State) (request : Request) :
  allowOrigin (snd (handleRequest now st request)) =
  getCorsHeaders (origin request).
Proof.
  unfold handleRequest.
  destruct (String.eqb (method request) "OPTIONS"); [reflexivity|].
  destruct (checkRateLimit now (clientIP request) (rateLimitMap st))
    as [ok rl].
  destruct ok; simpl; [|reflexivity].
  unfold route.
  destruct (_ && _); [apply handleUpdateLocation_origin|].
  destruct (_ && _); [apply handleGetLocations_origin|].
  now destruct (_ || _).
Qed.

(** X1. Every answer of the relay, whatever the request and its outcome,
    carries an Access-Control-Allow-Origin header taken from the allow
    list: the caller's origin when it is listed, and the first listed
    origin otherwise (an unlisted or absent origin is never echoed). *)
Theorem X1_allow_origin_from_the_list (now : R) (st : State)
    (request : Request) :
  let response := snd (handleRequest now st request) in
  In (allowOrigin response) CONFIG.ALLOWED_ORIGINS /\
  (forall o, origin request = Some o -> In o CONFIG.ALLOWED_ORIGINS ->
     allowOrigin response = o) /\
  ((forall o, origin request = Some o -> ~ In o CONFIG.ALLOWED_ORIGINS) ->
     allowOrigin response = "https://philoutram.github.io").
Proof.
  intros response. unfold response. rewrite handleRequest_origin.
  split; [apply getCorsHeaders_listed|]. split.
  - intros o -> Hin. unfold getCorsHeaders.
    destruct (includes CONFIG.ALLOWED_ORIGINS o) eqn:E; [reflexivity|].
    exfalso. unfold includes in E.
    assert (H : existsb (String.eqb o) CONFIG.ALLOWED_ORIGINS = true).
    { apply existsb_exists. exists o. split; [assumption|].
      apply String.eqb_refl. }
    congruence.
  - intros Hno. unfold getCorsHeaders.
    destruct (origin request) as [o|]; [|reflexivity].
    destruct (includes CONFIG.ALLOWED_ORIGINS o) eqn:E; [|reflexivity].
    exfalso. apply (Hno o eq_refl).
    unfold includes in E. apply existsb_exists in E as [x [Hin Hx]].
    apply String.eqb_eq in Hx. now subst.
Qed.

(** ** Listing *)

(** X2. [handleGetLocations] never changes the state.  Without a game code
    (absent or empty) it answers 400; for a code no game is stored under it
    answers 200 with an empty list and count 0, not an error; and in every
    list answer the count is the number of locations. *)
Theorem X2_list_is_read_only (st : State) (q o : option string) :
  let answer := handleGetLocations st q o in
  fst answer = st /\
  (q = None \/ q = Some "" ->
     status (snd answer) = 400%Z /\
     body (snd answer) = ErrorBody "Missing gameCode parameter") /\
  (forall c, q = Some c -> c <> "" ->
     JsMap.get (slice0 10 (toUpperCase c)) (gameData st) = None ->
     status (snd answer) = 200%Z /\ body (snd answer) = LocationsBody [] 0) /\
  (forall locations n,
     body (snd answer) = LocationsBody locations n ->
     n = List.length locations /\ status (snd answer) = 200%Z).
Proof.
  intros answer. unfold answer, handleGetLocations.
  split; [|split; [|split]].
  - destruct (negb (truthy q)); [reflexivity|].
    now destruct (JsMap.get _ (gameData st)).
  - intros [->| ->]; simpl; tauto.
  - intros c -> Hc Hget. unfold truthy.
    destruct (String.eqb_spec c ""); [contradiction|]. simpl.
    rewrite Hget. simpl. tauto.
  - intros locations n. destruct (negb (truthy q)); [discriminate|].
    destruct (JsMap.get _ (gameData st)); simpl; intros [= <- <-]; tauto.
Qed.

(** X3. Game codes are matched without regard to case and on their first
    ten characters only: a list request answers the same for a code and for
    its upper-case form or its first ten characters, and an update is
    stored under the same key in each case. *)
Theorem X3_game_code_case_and_length (st : State) (c : string)
    (o : option string) (data : Data) :
  handleGetLocations st (Some (toUpperCase c)) o =
    handleGetLocations st (Some c) o /\
  ((String.length c > 10)%nat ->
   handleGetLocations st (Some (slice0 10 c)) o =
     handleGetLocations st (Some c) o) /\
  (data_gameCode data = Some c ->
   forall rec, accepted data = Some rec ->
     gameCode rec = slice0 10 (toUpperCase c) /\
     accepted
       (mkData (data_playerId data) (data_playerName data) (data_role data)
          (Some (toUpperCase c)) (data_lat data) (data_lon data)
          (data_accuracy data) (data_timestamp data)) = Some rec).
Proof.
  split; [|split].
  - unfold handleGetLocations, truthy.
    destruct (String.eqb_spec c "") as [->|Hc]; [reflexivity|].
    destruct (String.eqb_spec (toUpperCase c) "") as [E|_].
    + apply (proj1 (toUpperCase_empty c)) in E. contradiction.
    + simpl. now rewrite toUpperCase_idem.
  - intros Hlen. unfold handleGetLocations, truthy.
    destruct (String.eqb_spec c "") as [->|Hc]; [simpl in Hlen; lia|].
    destruct (String.eqb_spec (slice0 10 c) "") as [E|_].
    + exfalso. destruct c as [|a c']; [contradiction|].
      unfold slice0 in E. simpl in E. discriminate.
    + assert (H : slice0 10 (toUpperCase (slice0 10 c)) =
                  slice0 10 (toUpperCase c)).
      { unfold slice0 at 2. rewrite toUpperCase_substring.
        apply slice0_idem. }
      simpl. now rewrite H.
  - intros Hc rec Hacc.
    destruct (accepted_fields data rec Hacc) as [_ [_ [_ [Hgc _]]]].
    rewrite Hc in Hgc. simpl in Hgc. split; [congruence|].
    revert Hacc. unfold accepted. rewrite Hc. simpl.
    now rewrite toUpperCase_idem.
Qed.

(** ** The store and the limiter in every reachable state *)

Lemma accepted_valid (data : Data) (rec : PlayerData) :
  accepted data = Some rec -> validRecord rec.
Proof.
  intros Hacc.
  destruct (accepted_ranges data rec Hacc) as [Hlat [Hlon Hrole]].
  destruct (accepted_fields data rec Hacc)
    as [Hid [Hname [_ [Hgc _]]]].
  unfold validRecord. repeat split; try tauto.
  - destruct (data_gameCode data); [|discriminate].
    injection Hgc as ->. apply length_slice0.
  - destruct (data_gameCode data); [|discriminate].
    injection Hgc as ->. apply sanitized_code_upper.
  - destruct (data_playerId data); [|discriminate].
    injection Hid as ->. apply length_slice0.
  - destruct (data_playerName data); [|discriminate].
    injection Hname as ->. apply length_slice0.
Qed.

Lemma validStore_empty : validStore JsMap.empty.
Proof. intros code players id r []. Qed.

Lemma validStore_stored (rec : PlayerData)
    (gd : JsMap.t (JsMap.t PlayerData)) :
  wfGameData gd -> validStore gd -> validRecord rec ->
  validStore (stored rec gd).
Proof.
  intros Hwf Hvalid Hrec code players id r Hin Hr.
  unfold stored in Hin.
  set (gd1 := if negb (JsMap.has (gameCode rec) gd)
              then JsMap.set (gameCode rec) JsMap.empty gd else gd) in *.
  assert (Hwf1 : wfGameData gd1).
  { unfold gd1. destruct (negb _); [|assumption].
    apply wfGameData_set; [assumption | apply wfPlayers_empty]. }
  assert (Hvalid1 : validStore gd1).
  { unfold gd1. destruct (negb _); [|assumption].
    intros c ps i x Hc Hx.
    apply JsMapFacts.In_set_inv in Hc; [|exact (proj1 Hwf)].
    destruct Hc as [[= -> ->]|[Hc _]]; [destruct Hx | eauto]. }
  apply JsMapFacts.In_set_inv in Hin; [|exact (proj1 Hwf1)].
  destruct Hin as [[= -> ->]|[Hin _]]; [|eauto].
  apply JsMapFacts.In_set_inv in Hr;
    [|exact (proj1 (wfPlayers_playersOf (gameCode rec) gd1 Hwf1))].
  destruct Hr as [[= -> ->]|[Hr _]]; [tauto|].
  unfold playersOf in Hr.
  destruct (JsMap.get (gameCode rec) gd1) as [g|] eqn:E; [|destruct Hr].
  apply JsMapFacts.get_In in E. eauto.
Qed.

Lemma validStore_swept (cutoff : R) (gd : JsMap.t (JsMap.t PlayerData)) :
  validStore gd -> validStore (swept cutoff gd).
Proof.
  intros Hvalid code players id r Hin Hr.
  apply In_swept in Hin as [ps [Hin [-> _]]].
  apply filter_In in Hr as [Hr _]. eauto.
Qed.

Lemma validStore_route (st : State) (request : Request) :
  wfGameData (gameData st) -> validStore (gameData st) ->
  validStore (gameData (fst (route st request))).
Proof.
  intros Hwf Hvalid. unfold route.
  destruct (_ && _).
  { destruct (json request) as [data|]; [|exact Hvalid].
    destruct (accepted data) as [rec|] eqn:E.
    - rewrite (handleUpdateLocation_accepted st data _ rec E). simpl.
      apply validStore_stored; [assumption | assumption|].
      now apply (accepted_valid data).
    - destruct (handleUpdateLocation_rejected st data (origin request) E)
        as [msg ->]. exact Hvalid. }
  destruct (_ && _).
  { now destruct (handleGetLocations_state st (queryGameCode request)
                    (origin request)) as [-> _]. }
  destruct (_ || _); exact Hvalid.
Qed.

Lemma validStore_handleRequest (now : R) (st : State) (request : Request) :
  wfGameData (gameData st) -> validStore (gameData st) ->
  validStore (gameData (fst (handleRequest now st request))).
Proof.
  intros Hwf Hvalid. unfold handleRequest.
  destruct (String.eqb (method request) "OPTIONS"); [assumption|].
  destruct (checkRateLimit now (clientIP request) (rateLimitMap st))
    as [ok rl].
  destruct ok; simpl; [|assumption].
  apply validStore_route; unfold cleanOldData; simpl;
    rewrite cleanGames_swept by assumption.
  - now apply wfGameData_swept.
  - now apply validStore_swept.
Qed.

Lemma validLimits_checkRateLimit (now : R) (ip : string)
    (rl : JsMap.t Limit) :
  JsMap.wf rl -> validLimits rl ->
  validLimits (snd (checkRateLimit now ip rl)).
Proof.
  intros Hwf Hvalid. unfold checkRateLimit.
  assert (Hnew : validLimits (JsMap.set ip (mkLimit 1 (now + 60000)) rl)).
  { intros k l Hin. apply JsMapFacts.In_set_inv in Hin; [|assumption].
    destruct Hin as [[= _ ->]|[Hin _]]; [|eauto].
    unfold CONFIG.RATE_LIMIT. simpl. lia. }
  destruct (JsMap.get ip rl) as [limit|] eqn:E; simpl; [|exact Hnew].
  destruct (Rgtb now (resetTime limit)); simpl; [exact Hnew|].
  destruct (count limit >=? CONFIG.RATE_LIMIT)%Z eqn:Ec; simpl;
    [assumption|].
  intros k l Hin. apply JsMapFacts.In_set_inv in Hin; [|assumption].
  destruct Hin as [[= _ ->]|[Hin _]]; [|eauto]. simpl.
  apply JsMapFacts.get_In, Hvalid in E.
  rewrite Z.geb_leb in Ec. apply Z.leb_gt in Ec. lia.
Qed.

Lemma validLimits_handleRequest (now : R) (st : State) (request : Request) :
  JsMap.wf (rateLimitMap st) -> validLimits (rateLimitMap st) ->
  validLimits (rateLimitMap (fst (handleRequest now st request))).
Proof.
  intros Hwf Hvalid. unfold handleRequest.
  destruct (String.eqb (method request) "OPTIONS"); [assumption|].
  pose proof (wf_checkRateLimit now (clientIP request) _ Hwf) as Hwf'.
  pose proof (validLimits_checkRateLimit now (clientIP request) _ Hwf Hvalid)
    as Hvalid'.
  destruct (checkRateLimit now (clientIP request) (rateLimitMap st))
    as [ok rl].
  simpl in Hwf', Hvalid'. destruct ok; simpl; [|assumption].
  rewrite (proj1 (route_limits _ request)). unfold cleanOldData. simpl.
  rewrite cleanLimits_filter by assumption.
  intros k l Hin. apply filter_In in Hin as [Hin _]. eauto.
Qed.

(** The invariant of a run: the shape of the store, the validity of its
    records and of the windows of the limiter. *)
Lemma serve_invariant (reqs : list (R * Request)) :
  forall st : State,
  wfState st -> validStore (gameData st) -> validLimits (rateLimitMap st) ->
  wfState (fst (serve st reqs)) /\
  validStore (gameData (fst (serve st reqs))) /\
  validLimits (rateLimitMap (fst (serve st reqs))).
Proof.
  induction reqs as [|[now request] rest IH]; intros st Hwf Hs Hl.
  - simpl. tauto.
  - simpl.
    pose proof (wfState_handleRequest now st request Hwf) as H1.
    pose proof (validStore_handleRequest now st request (proj1 Hwf) Hs) as H2.
    pose proof (validLimits_handleRequest now st request (proj2 Hwf) Hl)
      as H3.
    destruct (handleRequest now st request) as [st1 response].
    pose proof (IH st1 H1 H2 H3) as H.
    destruct (serve st1 rest) as [st2 log]. exact H.
Qed.

Lemma reachable_invariant (reqs : list (R * Request)) :
  wfState (fst (serve initial reqs)) /\
  validStore (gameData (fst (serve initial reqs))) /\
  validLimits (rateLimitMap (fst (serve initial reqs))).
Proof.
  apply serve_invariant.
  - apply wfState_initial.
  - apply validStore_empty.
  - intros ip limit [].
Qed.

(** X4. Whatever requests the relay has served, every record of every list
    answer has passed the validation: its latitude and longitude are in
    range, its role is hunter or hunted, its game code is at most 10
    characters with no lower-case letter, its player id at most 50 and its
    name at most 20 characters. *)
Theorem X4_listed_records_are_valid (reqs : list (R * Request)) (now : R)
    (request : Request) :
  Forall validRecord
    (listed (snd (handleRequest now (fst (serve initial reqs)) request))).
Proof.
  destruct (reachable_invariant reqs) as [[Hwf _] [Hvalid _]].
  set (st := fst (serve initial reqs)) in *.
  unfold listed.
  destruct (body (snd (handleRequest now st request))) eqn:E;
    try constructor.
  apply (handleRequest_locations now st request _ _ Hwf) in E as [code ->].
  apply Forall_forall. intros r Hin.
  unfold JsMap.values in Hin. apply in_map_iff in Hin as [[id r'] [Hr Hin]].
  simpl in Hr. subst r'.
  unfold playersOf in Hin.
  destruct (JsMap.get code (swept _ (gameData st))) as [ps|] eqn:Eg;
    [|destruct Hin].
  apply JsMapFacts.get_In in Eg.
  exact (proj1 (validStore_swept _ _ Hvalid code ps id r Eg Hin)).
Qed.

(** X9. Whatever requests the relay has served, every window of its rate
    limiter has counted at least 1 and at most RATE_LIMIT (60) requests. *)
Theorem X9_window_counts_within_limit (reqs : list (R * Request))
    (ip : string) :
  match JsMap.get ip (rateLimitMap (fst (serve initial reqs))) with
  | Some limit => (1 <= count limit <= 60)%Z
  | None => True
  end.
Proof.
  destruct (reachable_invariant reqs) as [_ [_ Hl]].
  destruct (JsMap.get ip _) as [limit|] eqn:E; [|exact I].
  apply JsMapFacts.get_In in E. exact (Hl ip limit E).
Qed.

(** ** Updates *)

(** X5. The player count an accepted update answers is the number of
    players of its game afterwards: one more than before for a player id
    new to the game, and the same as before for an id the game already
    holds. *)
Theorem X5_player_count_after_update (st : State) (data : Data)
    (o : option string) (rec : PlayerData) :
  accepted data = Some rec ->
  let before := playersOf (gameCode rec) (gameData st) in
  let answer := handleUpdateLocation st (Some data) o in
  body (snd answer) =
    UpdatedBody
      (if JsMap.has (playerId rec) before then JsMap.size before
       else S (JsMap.size before)) /\
  body (snd answer) =
    UpdatedBody
      (List.length
         (JsMap.values (playersOf (gameCode rec) (gameData (fst answer))))).
Proof.
  intros Hacc before answer. unfold answer.
  rewrite (handleUpdateLocation_accepted st data o rec Hacc). simpl.
  assert (Hp : playersOf (gameCode rec) (stored rec (gameData st)) =
               JsMap.set (playerId rec) rec before).
  { unfold playersOf at 1. now rewrite get_stored_same. }
  rewrite Hp. split.
  - f_equal. destruct (JsMap.has (playerId rec) before) eqn:E.
    + now apply JsMapFacts.size_set_has.
    + now apply JsMapFacts.size_set_new.
  - f_equal. unfold JsMap.size, JsMap.values. now rewrite length_map.
Qed.

Lemma X5_witness :
  let rec := mkPlayerData "p_k" "Kim" "hunted" "GAME1" 51 0
               (if Reqb 10 0 then 0 else 10) 1000 in
  let before := playersOf (gameCode rec) (gameData initial) in
  let answer := handleUpdateLocation initial (Some (kimAt 10 1000)) None in
  body (snd answer) =
    UpdatedBody
      (if JsMap.has (playerId rec) before then JsMap.size before
       else S (JsMap.size before)) /\
  body (snd answer) =
    UpdatedBody
      (List.length
         (JsMap.values (playersOf (gameCode rec) (gameData (fst answer))))).
Proof.
  apply (X5_player_count_after_update initial (kimAt 10 1000) None).
  apply accepted_kimAt.
Defined.

(** X6. An update, accepted or not, leaves the record of every other player
    as it was: a record stored under another game code or another player
    id is neither changed nor removed. *)
Theorem X6_update_leaves_other_players (st : State) (data : Data)
    (o : option string) (code id : string) :
  Some code <>
    option_map (fun c => slice0 10 (toUpperCase c)) (data_gameCode data) \/
  Some id <> option_map (slice0 50) (data_playerId data) ->
  JsMap.get id
    (playersOf code
       (gameData (fst (handleUpdateLocation st (Some data) o)))) =
  JsMap.get id (playersOf code (gameData st)).
Proof.
  intros Hother.
  destruct (accepted data) as [rec|] eqn:E.
  - rewrite (handleUpdateLocation_accepted st data o rec E). simpl.
    destruct (accepted_fields data rec E) as [Hid [_ [_ [Hgc _]]]].
    destruct (String.eqb_spec code (gameCode rec)) as [->|Hc].
    + unfold playersOf at 1. rewrite get_stored_same.
      apply JsMapFacts.get_set_other. intros ->.
      destruct Hother as [H|H]; [apply H | apply H]; congruence.
    + unfold playersOf. now rewrite get_stored_other.
  - now destruct (handleUpdateLocation_rejected st data o E) as [msg ->].
Qed.

Lemma X6_witness :
  JsMap.get "p_k"
    (playersOf "GAME1"
       (gameData
          (fst (handleUpdateLocation kimStored
                  (Some (mkData (Some "p_h") (Some "Hana") (Some "hunter")
                           (Some "game1") (Some 51) (Some 0) (Some 10)
                           (Some 2000)))
                  None)))) =
  JsMap.get "p_k" (playersOf "GAME1" (gameData kimStored)).
Proof.
  apply (X6_update_leaves_other_players kimStored
           (mkData (Some "p_h") (Some "Hana") (Some "hunter") (Some "game1")
              (Some 51) (Some 0) (Some 10) (Some 2000))
           None "GAME1" "p_k").
  right. simpl. discriminate.
Defined.


Local Arguments includes : simpl never.


(** ** Sweeps *)

Lemma filter_filter_imp {A : Type} (f g : A -> bool) (l : list A) :
  (forall x, g x = true -> f x = true) ->
  filter g (filter f l) = filter g l.
Proof.
  intros Himp. induction l as [|x l IH]; simpl; [reflexivity|].
  destruct (f x) eqn:Ef; simpl.
  - now rewrite IH.
  - rewrite IH. destruct (g x) eqn:Eg; [|reflexivity].
    apply Himp in Eg. congruence.
Qed.

Lemma fresh_mono (c1 c2 : R) (e : string * PlayerData) :
  c1 <= c2 -> fresh c2 e = true -> fresh c1 e = true.
Proof.
  unfold fresh. intros Hc.
  destruct (Rltb_spec (timestamp (snd e)) c2),
    (Rltb_spec (timestamp (snd e)) c1); simpl; try reflexivity;
    try discriminate.
  lra.
Qed.

Lemma swept_swept (c1 c2 : R) (gd : JsMap.t (JsMap.t PlayerData)) :
  c1 <= c2 -> swept c2 (swept c1 gd) = swept c2 gd.
Proof.
  intros Hc. unfold swept.
  induction gd as [|[code players] gd IH]; [reflexivity|].
  pose proof (filter_filter_imp (fresh c1) (fresh c2) players
                (fun e => fresh_mono c1 c2 e Hc)) as Hff.
  cbn [List.map filter fst snd].
  destruct (negb (JsMap.size (filter (fresh c1) players) =? 0)%nat) eqn:E.
  - cbn [List.map filter fst snd]. rewrite Hff, IH. reflexivity.
  - apply negb_false_iff, Nat.eqb_eq, length_zero_iff_nil in E.
    rewrite E in Hff. cbn [filter] in Hff. rewrite <- Hff.
    cbn [JsMap.size List.length Nat.eqb negb]. exact IH.
Qed.

(** X10. Sweeps compose: on any state the relay can reach, a sweep at an
    instant followed by a sweep at a later (or the same) instant leaves
    exactly what the later sweep alone leaves; in particular a sweep
    repeated at the same instant changes nothing more. *)
Theorem X10_later_sweep_subsumes_earlier (reqs : list (R * Request))
    (now1 now2 : R) :
  now1 <= now2 ->
  let st := fst (serve initial reqs) in
  cleanOldData now2 (cleanOldData now1 st) = cleanOldData now2 st /\
  cleanOldData now1 (cleanOldData now1 st) = cleanOldData now1 st.
Proof.
  intros Hnow st.
  destruct (reachable_invariant reqs) as [[Hgd Hrl] _]. fold st in Hgd, Hrl.
  assert (H : forall t1 t2, t1 <= t2 ->
    cleanOldData t2 (cleanOldData t1 st) = cleanOldData t2 st).
  { intros t1 t2 Ht. unfold cleanOldData. simpl. f_equal.
    - rewrite (cleanGames_swept (t1 - _) (gameData st)) by assumption.
      rewrite !cleanGames_swept
        by (try assumption; now apply wfGameData_swept).
      apply swept_swept. lra.
    - rewrite (cleanLimits_filter t1 (rateLimitMap st)) by assumption.
      rewrite !cleanLimits_filter
        by (try assumption; now apply JsMapFacts.wf_filter).
      apply filter_filter_imp. intros [ip limit]. simpl.
      destruct (Rgtb_spec t2 (resetTime limit)),
        (Rgtb_spec t1 (resetTime limit)); simpl; try reflexivity;
        try discriminate.
      lra. }
  split; [now apply H | apply H; lra].
Qed.

Lemma X10_witness :
  let st := fst (serve initial [(1000, post (kimAt 10 1000))]) in
  cleanOldData 950000 (cleanOldData 2000 st) = cleanOldData 950000 st /\
  cleanOldData 2000 (cleanOldData 2000 st) = cleanOldData 2000 st.
Proof.
  apply (X10_later_sweep_subsumes_earlier [(1000, post (kimAt 10 1000))]
           2000 950000).
  lra.
Defined.

(** ** Preflights and routes *)

Lemma serve_cons_fst (st : State) (now : R) (request : Request)
    (rest : list (R * Request)) :
  fst (serve st ((now, request) :: rest)) =
  fst (serve (fst (handleRequest now st request)) rest).
Proof.
  simpl. destruct (handleRequest now st request) as [st1 response].
  simpl. now destruct (serve st1 rest).
Qed.

(** X11. Preflight (OPTIONS) requests are invisible to the relay: each is
    answered 204 with no body, and a run leaves the same state, and gives
    the other requests the same answers, as the run without its
    preflights. *)
Theorem X11_preflights_leave_no_trace (st : State)
    (reqs : list (R * Request)) :
  fst (serve st reqs) = fst (serve st (filter notPreflight reqs)) /\
  filter (fun e => negb (String.eqb (method (fst e)) "OPTIONS"))
    (snd (serve st reqs)) =
    snd (serve st (filter notPreflight reqs)) /\
  Forall
    (fun e =>
       String.eqb (method (fst e)) "OPTIONS" = true ->
       status (snd e) = 204%Z /\ body (snd e) = NoBody)
    (snd (serve st reqs)).
Proof.
  revert st. induction reqs as [|[now request] rest IH]; intros st.
  - simpl. repeat split. constructor.
  - assert (Hnp : notPreflight (now, request) =
                  negb (String.eqb (method request) "OPTIONS"))
      by reflexivity.
    cbn [filter]. rewrite Hnp.
    destruct (String.eqb (method request) "OPTIONS") eqn:E; cbn [negb].
    + rewrite serve_cons_fst, serve_cons.
      rewrite (handleRequest_options now st request E).
      cbn [fst snd filter]. rewrite E. cbn [negb].
      destruct (IH st) as [H1 [H2 H3]].
      repeat split; try assumption.
      constructor; [|assumption]. simpl. tauto.
    + rewrite !serve_cons_fst, !serve_cons.
      cbn [fst snd filter]. rewrite E. cbn [negb].
      destruct (IH (fst (handleRequest now st request))) as [H1 [H2 H3]].
      repeat split; try assumption.
      * now rewrite H2.
      * constructor; [|assumption]. cbn [fst]. congruence.
Qed.

Lemma route_status (st : State) (request : Request) :
  (status (snd (route st request)) = 404%Z <->
   isUpdate request = false /\ isList request = false /\
   isHealth request = false) /\
  (isUpdate request = false -> isList request = false ->
   fst (route st request) = st) /\
  (isUpdate request = false -> isList request = false ->
   isHealth request = true ->
   snd (route st request) =
   jsonResponse (HealthBody (JsMap.size (gameData st))) 200
     (origin request)).
Proof.
  unfold route, isUpdate, isList, isHealth.
  destruct (String.eqb (pathname request) "/updateLocation" &&
            String.eqb (method request) "POST").
  { destruct (handleUpdateLocation_limits st (json request) (origin request))
      as [_ [H|H]]; rewrite H; repeat split; intros; try discriminate;
      destruct H0; discriminate. }
  destruct (String.eqb (pathname request) "/locations" &&
            String.eqb (method request) "GET").
  { destruct (handleGetLocations_state st (queryGameCode request)
                (origin request)) as [_ [H|H]]; rewrite H;
      repeat split; intros; try discriminate;
      destruct H0 as [_ [H0 _]]; discriminate. }
  destruct (String.eqb (pathname request) "/" ||
            String.eqb (pathname request) "/health"); simpl;
    repeat split; intros; try discriminate; try tauto.
  destruct H as [_ [_ H]]. discriminate.
Qed.

(** X12. A request that is neither a preflight nor throttled is answered
    404 exactly when it matches no route: not POST /updateLocation, not
    GET /locations, and a path other than / and /health.  So an API path
    with the wrong method is a 404, while the health paths answer 200 for
    any method, with the number of games that still hold a record after
    the sweep. *)
Theorem X12_not_found_iff_no_route (now : R) (st : State)
    (request : Request) :
  String.eqb (method request) "OPTIONS" = false ->
  throttled (snd (handleRequest now st request)) = false ->
  let answer := handleRequest now st request in
  (status (snd answer) = 404%Z <->
   isUpdate request = false /\ isList request = false /\
   isHealth request = false) /\
  (isUpdate request = false -> isList request = false ->
   isHealth request = true ->
   status (snd answer) = 200%Z /\
   body (snd answer) = HealthBody (JsMap.size (gameData (fst answer))) /\
   gameData (fst answer) = gameData (cleanOldData now st)).
Proof.
  intros Hopt Hthr answer. unfold answer.
  rewrite (handleRequest_routed now st request Hopt Hthr).
  set (st1 := cleanOldData now _).
  destruct (route_status st1 request) as [H1 [H2 H3]].
  split; [exact H1|].
  intros Hu Hl Hh. rewrite (H3 Hu Hl Hh), (H2 Hu Hl). simpl.
  repeat split.
Qed.

Lemma handleRequest_first (now : R) (request : Request) :
  String.eqb (method request) "OPTIONS" = false ->
  handleRequest now initial request =
  route
    (mkState JsMap.empty [(clientIP request, mkLimit 1 (now + 60000))])
    request.
Proof.
  intros Hopt. unfold handleRequest. rewrite Hopt.
  unfold initial, checkRateLimit, cleanOldData, cleanGames, cleanLimits.
  simpl.
  destruct (Rgtb_spec now (now + 60000)); [lra | reflexivity].
Qed.

Lemma X12_witness :
  let request := mkRequest "GET" "/updateLocation" None None None None in
  let answer := handleRequest 1000 initial request in
  (status (snd answer) = 404%Z <->
   isUpdate request = false /\ isList request = false /\
   isHealth request = false) /\
  (isUpdate request = false -> isList request = false ->
   isHealth request = true ->
   status (snd answer) = 200%Z /\
   body (snd answer) = HealthBody (JsMap.size (gameData (fst answer))) /\
   gameData (fst answer) = gameData (cleanOldData 1000 initial)).
Proof.
  apply (X12_not_found_iff_no_route 1000 initial
           (mkRequest "GET" "/updateLocation" None None None None)).
  - reflexivity.
  - rewrite handleRequest_first by reflexivity. reflexivity.
Defined.

(** ** Where records come from *)

(** X13. The relay never invents a record: whatever it has served, a
    record found in the store after a request was either there before, or
    is the record the request's body was accepted as, on the route POST
    /updateLocation. *)
Theorem X13_records_come_from_accepted_updates (reqs : list (R * Request))
    (now : R) (request : Request) (code id : string) (rec : PlayerData) :
  let st := fst (serve initial reqs) in
  JsMap.get id
    (playersOf code (gameData (fst (handleRequest now st request)))) =
    Some rec ->
  JsMap.get id (playersOf code (gameData st)) = Some rec \/
  (isUpdate request = true /\
   exists data, json request = Some data /\ accepted data = Some rec /\
     gameCode rec = code /\ playerId rec = id).
Proof.
  intros st.
  destruct (reachable_invariant reqs) as [[Hgd _] _]. fold st in Hgd.
  unfold handleRequest.
  destruct (String.eqb (method request) "OPTIONS"); [tauto|].
  destruct (checkRateLimit now (clientIP request) (rateLimitMap st))
    as [ok rl].
  destruct ok; simpl; [|tauto].
  set (st1 := cleanOldData now (mkState (gameData st) rl)).
  assert (Hsub : forall r,
    JsMap.get id (playersOf code (gameData st1)) = Some r ->
    JsMap.get id (playersOf code (gameData st)) = Some r).
  { intros r. unfold st1, cleanOldData. simpl.
    rewrite cleanGames_swept by assumption. now apply swept_sub. }
  unfold route, isUpdate.
  destruct (String.eqb (pathname request) "/updateLocation" &&
            String.eqb (method request) "POST").
  { destruct (json request) as [data|] eqn:Ej; [|simpl; auto].
    destruct (accepted data) as [r|] eqn:E.
    - rewrite (handleUpdateLocation_accepted st1 data _ r E). simpl.
      destruct (String.eqb_spec code (gameCode r)) as [Hc|Hc].
      + subst code. unfold playersOf at 1. rewrite get_stored_same.
        destruct (String.eqb_spec id (playerId r)) as [Hi|Hi].
        * subst id. rewrite JsMapFacts.get_set_same. intros [= <-].
          right. split; [reflexivity|]. exists data. tauto.
        * rewrite JsMapFacts.get_set_other by assumption. auto.
      + unfold playersOf at 1. rewrite get_stored_other by assumption.
        fold (playersOf code (gameData st1)). auto.
    - destruct (handleUpdateLocation_rejected st1 data (origin request) E)
        as [msg ->]. simpl. auto. }
  destruct (_ && _).
  { destruct (handleGetLocations_state st1 (queryGameCode request)
                (origin request)) as [-> _]. auto. }
  destruct (_ || _); simpl; auto.
Qed.

Lemma X13_witness :
  JsMap.get "p_k" (playersOf "GAME1" (gameData (fst (serve initial [])))) =
    Some (mkPlayerData "p_k" "Kim" "hunted" "GAME1" 51 0
            (if Reqb 10 0 then 0 else 10) 1000) \/
  (isUpdate (post (kimAt 10 1000)) = true /\
   exists data,
     json (post (kimAt 10 1000)) = Some data /\
     accepted data =
       Some (mkPlayerData "p_k" "Kim" "hunted" "GAME1" 51 0
               (if Reqb 10 0 then 0 else 10) 1000) /\
     gameCode (mkPlayerData "p_k" "Kim" "hunted" "GAME1" 51 0
                 (if Reqb 10 0 then 0 else 10) 1000) = "GAME1" /\
     playerId (mkPlayerData "p_k" "Kim" "hunted" "GAME1" 51 0
                 (if Reqb 10 0 then 0 else 10) 1000) = "p_k").
Proof.
  apply (X13_records_come_from_accepted_updates [] 1000
           (post (kimAt 10 1000)) "GAME1" "p_k").
  cbn [serve fst].
  rewrite handleRequest_post_initial.
  rewrite (handleUpdateLocation_accepted _ _ _ _ (accepted_kimAt _ _)).
  reflexivity.
Defined.

(** ** One game per list *)

(** What a list answer lists: nothing, or the swept game of the sanitized
    code of the request. *)
Lemma handleRequest_listed (now : R) (st : State) (request : Request) :
  wfGameData (gameData st) ->
  listed (snd (handleRequest now st request)) = [] \/
  exists c,
    queryGameCode request = Some c /\
    listed (snd (handleRequest now st request)) =
    JsMap.values
      (playersOf (slice0 10 (toUpperCase c))
         (swept (now - CONFIG.MAX_POSITION_AGE) (gameData st))).
Proof.
  intros Hwf. unfold handleRequest.
  destruct (String.eqb (method request) "OPTIONS"); [now left|].
  destruct (checkRateLimit now (clientIP request) (rateLimitMap st))
    as [ok rl].
  destruct ok; cbn [negb]; [|now left].
  unfold cleanOldData. cbn [gameData rateLimitMap].
  rewrite cleanGames_swept by assumption.
  set (st1 := mkState _ _).
  unfold route.
  destruct (String.eqb (pathname request) "/updateLocation" &&
            String.eqb (method request) "POST").
  { left. destruct (json request) as [data|]; [|reflexivity].
    destruct (accepted data) as [r|] eqn:E.
    - now rewrite (handleUpdateLocation_accepted st1 data _ r E).
    - now destruct (handleUpdateLocation_rejected st1 data (origin request) E)
        as [msg ->]. }
  destruct (String.eqb (pathname request) "/locations" &&
            String.eqb (method request) "GET").
  2:{ left. now destruct (_ || _). }
  unfold handleGetLocations.
  destruct (queryGameCode request) as [c|]; [|now left].
  unfold truthy. destruct (String.eqb c ""); [now left|]. cbn [negb].
  right. exists c. split; [reflexivity|].
  unfold playersOf, listed.
  now destruct (JsMap.get _ (gameData st1)) as [game|] eqn:Eg;
    unfold st1 in Eg; cbn [gameData] in Eg; rewrite Eg.
Qed.

(** X25. A list answer holds the records of one game only.  Whatever the
    relay has served, every record listed for a request carries, as its
    game code, the code of the request in upper case cut to ten
    characters; a request without a code lists nothing.  So no game shows
    in the list of another. *)
Theorem X25_list_holds_one_game (reqs : list (R * Request)) (now : R)
    (request : Request) :
  let locations :=
    listed (snd (handleRequest now (fst (serve initial reqs)) request)) in
  match queryGameCode request with
  | Some c =>
      Forall (fun r => gameCode r = slice0 10 (toUpperCase c)) locations
  | None => locations = []
  end.
Proof.
  destruct (reachable_invariant reqs) as [[Hwf _] [Hvalid _]].
  set (st := fst (serve initial reqs)) in *. cbv zeta.
  destruct (handleRequest_listed now st request Hwf) as [->|[c [-> ->]]].
  - destruct (queryGameCode request); [constructor | reflexivity].
  - apply Forall_forall. intros r Hin.
    unfold JsMap.values in Hin. apply in_map_iff in Hin as [[id r'] [Hr Hin]].
    cbn [snd] in Hr. subst r'. unfold playersOf in Hin.
    destruct (JsMap.get _ (swept _ (gameData st))) as [ps|] eqn:Eg;
      [|destruct Hin].
    apply JsMapFacts.get_In in Eg.
    exact (proj1 (proj2 (validStore_swept _ _ Hvalid _ _ _ _ Eg Hin))).
Qed.

End RelayProperties.

(** * Further properties of the client *)

Module EngineProperties.
Import Client ClientFacts.

(** ** The haversine distance *)

(** X14. The distance is symmetric: from a first point to a second it is
    what it is from the second to the first. *)
Theorem X14_distance_symmetric (lat1 lon1 lat2 lon2 : R) :
  calculateDistance lat1 lon1 lat2 lon2 =
  calculateDistance lat2 lon2 lat1 lon1.
Proof.
  unfold calculateDistance.
  replace ((lat1 - lat2) * PI / 180 / 2)
    with (- ((lat2 - lat1) * PI / 180 / 2)) by (unfold Rdiv; ring).
  replace ((lon1 - lon2) * PI / 180 / 2)
    with (- ((lon2 - lon1) * PI / 180 / 2)) by (unfold Rdiv; ring).
  rewrite !sin_neg.
  set (sp := sin ((lat2 - lat1) * PI / 180 / 2)).
  set (sl := sin ((lon2 - lon1) * PI / 180 / 2)).
  set (c1 := cos (lat1 * PI / 180)). set (c2 := cos (lat2 * PI / 180)).
  replace (- sp * - sp + c2 * c1 * - sl * - sl)
    with (sp * sp + c1 * c2 * sl * sl) by ring.
  reflexivity.
Qed.

(** X16. Along a meridian the distance is the arc of the sphere of radius
    6371000 m: two points of the same longitude whose latitudes differ by
    d degrees, with d between 0 and 180, are 6371000 * d * PI / 180 metres
    apart (about 111.2 km for one degree). *)
Theorem X16_distance_along_meridian (lat1 lat2 lon : R) :
  lat1 <= lat2 <= lat1 + 180 ->
  calculateDistance lat1 lon lat2 lon =
  6371000 * ((lat2 - lat1) * PI / 180).
Proof.
  intros Hd. pose proof PI_RGT_0 as Hpi.
  unfold calculateDistance.
  set (h := (lat2 - lat1) * PI / 180 / 2).
  assert (Hh : 0 <= h <= PI / 2).
  { unfold h. split.
    - apply Rmult_le_pos; [|lra]. apply Rmult_le_pos; [|lra].
      apply Rmult_le_pos; lra.
    - assert ((lat2 - lat1) * PI <= 180 * PI)
        by (apply Rmult_le_compat_r; lra).
      lra. }
  replace ((lon - lon) * PI / 180 / 2) with 0 by (unfold Rdiv; ring).
  rewrite sin_0.
  set (c1 := cos (lat1 * PI / 180)). set (c2 := cos (lat2 * PI / 180)).
  replace (sin h * sin h + c1 * c2 * 0 * 0) with (sin h * sin h) by ring.
  assert (Hsin : 0 <= sin h) by (apply sin_ge_0; lra).
  assert (Hcos : 0 <= cos h) by (apply cos_ge_0; lra).
  rewrite (sqrt_square (sin h) Hsin).
  replace (1 - sin h * sin h) with (cos h * cos h).
  2:{ pose proof (sin2_cos2 h) as H. unfold Rsqr in H. lra. }
  rewrite (sqrt_square (cos h) Hcos).
  replace ((lat2 - lat1) * PI / 180) with (2 * h) by (unfold h; field).
  do 2 f_equal.
  unfold Math_atan2.
  destruct (Rltb_spec 0 (cos h)) as [Hpos|Hzero].
  - assert (Hlt : h < PI / 2).
    { destruct (proj2 Hh) as [Hlt|Heq]; [assumption|].
      rewrite Heq, cos_PI2 in Hpos. lra. }
    fold (tan h). apply atan_tan. lra.
  - destruct (Rltb_spec (cos h) 0); [lra|].
    assert (Heq : h = PI / 2).
    { destruct (proj2 Hh) as [Hlt|Heq]; [|assumption].
      exfalso. apply Hzero. apply cos_gt_0; lra. }
    rewrite Heq, sin_PI2.
    destruct (Rltb_spec 0 1); lra.
Qed.

Lemma X16_witness :
  calculateDistance 51 0 52 0 = 6371000 * ((52 - 51) * PI / 180).
Proof.
  apply (X16_distance_along_meridian 51 52 0). lra.
Defined.

(** ** The gate on the own position *)

(** X17. A fix of the location provider always updates the accuracy shown.
    When its accuracy is above MAX_ACCURACY_THRESHOLD (100 m) nothing else
    changes: the last accepted position, the own marker and the view stay.
    When it is at most 100 m (100 included) it becomes the last position,
    stamped with the instant of its arrival, and, if the map exists, the
    own marker and the accuracy circle move to it. *)
Theorem X17_position_gate (now latitude longitude accuracy : R)
    (gs : GameState) :
  let gs' := handlePositionSuccess now latitude longitude accuracy gs in
  accuracyDisplay (dom gs') = Some accuracy /\
  (accuracy > 100 ->
   lastPosition gs' = lastPosition gs /\
   playerMarker gs' = playerMarker gs /\
   accuracyCircle gs' = accuracyCircle gs /\
   map gs' = map gs /\ otherMarkers gs' = otherMarkers gs /\
   isActive gs' = isActive gs) /\
  (accuracy <= 100 ->
   lastPosition gs' = Some (mkPosition latitude longitude accuracy now) /\
   isActive gs' = isActive gs /\ otherMarkers gs' = otherMarkers gs /\
   (map gs <> None ->
    playerMarker gs' = Some (latitude, longitude) /\
    accuracyCircle gs' = Some (latitude, longitude, accuracy)) /\
   (map gs = None ->
    playerMarker gs' = playerMarker gs /\
    accuracyCircle gs' = accuracyCircle gs)).
Proof.
  intros gs'. unfold gs', handlePositionSuccess, updatePlayerMarker,
    CONFIG.MAX_ACCURACY_THRESHOLD.
  destruct (Rgtb_spec accuracy 100) as [Hbad|Hgood].
  - simpl. split; [reflexivity|]. split; [tauto|]. intros Hle. lra.
  - cbn [map set_dom dom]. destruct (map gs) as [view|] eqn:Emap; simpl.
    + split; [reflexivity|]. split; [intros Hgt; lra|]. intros _.
      split; [reflexivity|]. split; [reflexivity|].
      split; [reflexivity|]. split; [tauto | discriminate].
    + split; [reflexivity|]. split; [intros Hgt; lra|]. intros _.
      split; [reflexivity|]. split; [reflexivity|].
      split; [reflexivity|]. split; [intros Hm; now destruct Hm | tauto].
Qed.

(** ** The markers of the opponents *)

Lemma visibility_not_skipped (now : R) (gs : GameState) (p : Player) :
  visibility now gs p <> Skipped <->
  gs_playerId gs <> Some (playerId p) /\ opposite (playerRole gs) (role p).
Proof.
  unfold visibility.
  destruct (eqs_spec (gs_playerId gs) (playerId p)) as [Hid|Hid].
  - split; [congruence | tauto].
  - destruct (isOpponent_spec (playerRole gs) (role p)) as [Hop|Hop]; simpl.
    + split; [tauto|]. intros _. now destruct (Rltb _ _).
    + split; [congruence | tauto].
Qed.

(** The ids a run of the callbacks collects are those it started with and
    those of the opponents of the snapshot. *)
Lemma fold_step_ids (now : R) (locations : list Player) (gs0 : GameState)
    (id : string) :
  forall (gs : GameState) (ids : list string),
  sameSession gs0 gs ->
  (In id (snd (fold_left (step now) locations (gs, ids))) <->
   In id ids \/
   exists p, In p locations /\ playerId p = id /\
             visibility now gs0 p <> Skipped).
Proof.
  induction locations as [|x l IH]; intros gs ids Hsame.
  - simpl. split; [tauto|]. intros [H|[p [[] _]]]. assumption.
  - cbn [fold_left].
    pose proof (step_sameSession now gs ids x) as Hsame1.
    assert (Hids : snd (step now (gs, ids) x) =
      if match visibility now gs0 x with Skipped => true | _ => false end
      then ids else playerId x :: ids).
    { unfold step. rewrite (visibility_sameSession now gs0 gs x Hsame).
      now destruct (visibility now gs0 x). }
    destruct (step now (gs, ids) x) as [gs1 ids1]. simpl in Hsame1, Hids.
    rewrite (IH gs1 ids1) by eauto using sameSession_trans.
    subst ids1. split.
    + intros [Hin|[p [Hp [Hid Hv]]]].
      * destruct (visibility now gs0 x) eqn:Ev; try tauto;
          (destruct Hin as [<-|Hin]; [|tauto]); right; exists x;
          (split; [now left|]); (split; [reflexivity|]); congruence.
      * right. exists p. split; [now right | tauto].
    + intros [Hin|[p [[<-|Hp] [Hid Hv]]]].
      * left. destruct (visibility now gs0 x); simpl; tauto.
      * left. subst id. destruct (visibility now gs0 x);
          [contradiction | now left | now left].
      * right. exists p. tauto.
Qed.

Lemma removeGone_fold (ids : list string) (id : string) (l : list string) :
  forall m : JsMap.t Marker,
  let m' :=
    fold_left
      (fun m id =>
         if negb (includes ids id) then JsMap.delete id m else m) l m in
  (JsMap.has id m' = true ->
   JsMap.has id m = true /\ (In id l -> In id ids)) /\
  (In id ids -> JsMap.get id m' = JsMap.get id m).
Proof.
  induction l as [|k l IH]; intros m; simpl.
  - tauto.
  - destruct (IH (if negb (includes ids k) then JsMap.delete k m else m))
      as [IH1 IH2].
    split.
    + intros H. destruct (IH1 H) as [Hhas Hl].
      destruct (includes ids k) eqn:E; simpl in Hhas.
      * split; [assumption|]. intros [->|Hin]; [|tauto].
        now apply includes_In.
      * apply JsMapFacts.has_delete_inv in Hhas as [Hhas Hne].
        split; [assumption|]. intros [->|Hin]; [contradiction | tauto].
    + intros Hin. rewrite (IH2 Hin).
      destruct (includes ids k) eqn:E; simpl; [reflexivity|].
      apply JsMapFacts.get_delete_other. intros ->.
      apply includes_In in Hin. congruence.
Qed.

(** X18. A cycle in which every marker can be placed (no visible
    opponent's id names a property every object inherits) runs through,
    and afterwards every marker left on the map belongs to an opponent of
    the current snapshot: its id is the id of a snapshot entry that is not
    the session's own and has the opposite role.  The markers of players
    who left the snapshot are removed. *)
Theorem X18_markers_only_for_current_opponents (now : R) (gs : GameState)
    (locations : list Player) :
  map gs <> None ->
  placeable now gs locations ->
  exists gs',
    updateOtherPlayers now gs locations = Normal gs' /\
    forall id,
      JsMap.has id (otherMarkers gs') = true ->
      exists p,
        In p locations /\ playerId p = id /\
        gs_playerId gs <> Some id /\ opposite (playerRole gs) (role p).
Proof.
  intros Hmap Hp.
  destruct (updateOtherPlayers_placeable now gs locations Hp) as [gs' Hrun].
  exists gs'. split; [exact Hrun|]. intros id. revert Hrun.
  unfold updateOtherPlayers.
  destruct (map gs) as [view|]; [clear Hmap | contradiction].
  destruct (forEach (visit now) locations (gs, [])) as [[gs1 ids1]|[gs1 ids1]]
    eqn:E; [|discriminate].
  apply forEach_visit_normal in E.
  pose proof (fold_step_ids now locations gs id gs []
                (sameSession_refl gs)) as Hids.
  rewrite <- E in Hids. cbn [snd] in Hids.
  intros [= <-]. simpl. intros Hhas.
  destruct (removeGone_fold ids1 id (JsMap.keys (otherMarkers gs1))
              (otherMarkers gs1)) as [H1 _].
  destruct (H1 Hhas) as [Hhas1 Hin].
  apply JsMapFacts.has_true in Hhas1.
  apply Hin, Hids in Hhas1 as [[]|[q [Hq [Hid Hv]]]].
  apply visibility_not_skipped in Hv. rewrite Hid in Hv.
  exists q. tauto.
Qed.

Lemma X18_witness :
  exists gs',
    updateOtherPlayers 200000 hunterSession [alice; bob] = Normal gs' /\
    forall id,
      JsMap.has id (otherMarkers gs') = true ->
      exists p,
        In p [alice; bob] /\ playerId p = id /\
        gs_playerId hunterSession <> Some id /\
        opposite (playerRole hunterSession) (role p).
Proof.
  apply (X18_markers_only_for_current_opponents 200000 hunterSession
           [alice; bob]).
  - discriminate.
  - exact example_placeable.
Defined.

(** A run of the callbacks leaves the marker of a player none of whose
    entries is shown. *)
Lemma fold_step_marker_kept (now : R) (locations : list Player)
    (gs0 : GameState) (id : string) :
  (forall p, In p locations -> playerId p = id ->
     forall age, visibility now gs0 p <> Shown age) ->
  forall (gs : GameState) (ids : list string),
  sameSession gs0 gs ->
  JsMap.get id
    (otherMarkers (fst (fold_left (step now) locations (gs, ids)))) =
  JsMap.get id (otherMarkers gs).
Proof.
  induction locations as [|x l IH]; intros Hno gs ids Hsame.
  - reflexivity.
  - cbn [fold_left].
    pose proof (step_sameSession now gs ids x) as Hsame1.
    assert (Hx : JsMap.get id (otherMarkers (fst (step now (gs, ids) x))) =
                 JsMap.get id (otherMarkers gs)).
    { unfold step. rewrite (visibility_sameSession now gs0 gs x Hsame).
      destruct (visibility now gs0 x) as [| |age] eqn:Ev; try reflexivity.
      simpl. rewrite evaluateCapture_markers. unfold placeMarker.
      assert (Hne : id <> playerId x).
      { intros Heq. apply (Hno x (or_introl eq_refl) (eq_sym Heq) age Ev). }
      destruct (JsMap.get (playerId x) (otherMarkers gs)); simpl;
        now apply JsMapFacts.get_set_other. }
    destruct (step now (gs, ids) x) as [gs1 ids1]. simpl in Hsame1, Hx.
    rewrite <- Hx. apply IH; [|eauto using sameSession_trans].
    intros p Hp. apply Hno. now right.
Qed.

(** X19. An opponent whose record was refreshed less than POSITION_DELAY ago
    keeps the marker it had: when every entry of the snapshot with its id
    is too recent to be shown, and there is one, the cycle leaves its
    marker on the map, unchanged, at the old place, whether the cycle runs
    through or breaks off. *)
Theorem X19_refreshed_opponent_keeps_old_marker (now : R) (gs : GameState)
    (locations : list Player) (id : string) (marker : Marker) :
  map gs <> None ->
  JsMap.get id (otherMarkers gs) = Some marker ->
  (exists p, In p locations /\ playerId p = id) ->
  (forall p, In p locations -> playerId p = id ->
     visibility now gs p = TooRecent) ->
  JsMap.get id
    (otherMarkers (after (updateOtherPlayers now gs locations))) =
  Some marker.
Proof.
  intros Hmap Hget [p0 [Hp0 Hid0]] Hall. unfold updateOtherPlayers.
  destruct (map gs) as [view|]; [clear Hmap | contradiction].
  assert (Hnot : forall p, In p locations -> playerId p = id ->
            forall age, visibility now gs p <> Shown age).
  { intros p Hp Hid age H. rewrite (Hall p Hp Hid) in H. discriminate. }
  destruct (forEach_visit_prefix now locations gs [])
    as [front [back [Hl Hfront]]].
  destruct (forEach (visit now) locations (gs, [])) as [[gs1 ids1]|[gs1 ids1]]
    eqn:E.
  - apply forEach_visit_normal in E.
    pose proof (fold_step_ids now locations gs id gs []
                  (sameSession_refl gs)) as Hids.
    pose proof (fold_step_marker_kept now locations gs id Hnot gs []
                  (sameSession_refl gs)) as Hkept.
    rewrite <- E in Hids, Hkept. cbn [fst snd] in Hids, Hkept.
    cbn [after]. simpl.
    destruct (removeGone_fold ids1 id (JsMap.keys (otherMarkers gs1))
                (otherMarkers gs1)) as [_ H2].
    rewrite H2, Hkept; [assumption|].
    apply Hids. right. exists p0. split; [assumption|].
    split; [assumption|]. rewrite (Hall p0 Hp0 Hid0). discriminate.
  - cbn [after fst] in *. rewrite Hfront.
    rewrite (fold_step_marker_kept now front gs id); [assumption | |
      apply sameSession_refl].
    intros p Hp. apply Hnot. rewrite Hl. apply in_or_app. now left.
Qed.

Lemma X19_witness :
  JsMap.get "p_a"
    (otherMarkers
       (after (updateOtherPlayers 200000 aliceShown [aliceRefreshed]))) =
  Some (mkMarker (0, 0) "hunted" ("Alice", 130000)).
Proof.
  apply (X19_refreshed_opponent_keeps_old_marker 200000 aliceShown
           [aliceRefreshed] "p_a").
  - discriminate.
  - reflexivity.
  - exists aliceRefreshed. split; [now left | reflexivity].
  - intros p [<-|[]] _. unfold visibility. simpl.
    unfold CONFIG.POSITION_DELAY.
    destruct (Rltb_spec (200000 - 150000) 120000); [reflexivity | lra].
Defined.

(** ** The ways a session ends *)

Lemma endGame_stopped (reason message : string) (gs : GameState) :
  stopped (endGame reason message gs).
Proof. unfold stopped, endGame. simpl. tauto. Qed.

Lemma step_running (now : R) (gs : GameState) (ids : list string)
    (p : Player) :
  isActive gs = true \/ stopped gs ->
  isActive (fst (step now (gs, ids) p)) = true \/
  stopped (fst (step now (gs, ids) p)).
Proof.
  intros H. unfold step.
  destruct (visibility now gs p) as [| |age]; try exact H.
  cbn [fst]. unfold evaluateCapture.
  assert (Hshow : isActive (placeMarker p age gs) = true \/
                  stopped (placeMarker p age gs)).
  { unfold stopped in *. unfold placeMarker.
    destruct (JsMap.get (playerId p) (otherMarkers gs)); exact H. }
  destruct (lastPosition (placeMarker p age gs)); [|exact Hshow].
  destruct (eqs (playerRole (placeMarker p age gs)) "hunter"); [|exact Hshow].
  destruct (Rleb _ _); [|exact Hshow].
  right. apply endGame_stopped.
Qed.

Lemma fold_step_running (now : R) (locations : list Player) :
  forall (gs : GameState) (ids : list string),
  isActive gs = true \/ stopped gs ->
  isActive (fst (fold_left (step now) locations (gs, ids))) = true \/
  stopped (fst (fold_left (step now) locations (gs, ids))).
Proof.
  induction locations as [|x l IH]; intros gs ids H.
  - exact H.
  - cbn [fold_left]. pose proof (step_running now gs ids x H) as H1.
    destruct (step now (gs, ids) x) as [gs1 ids1]. now apply IH.
Qed.

(** X20. Whichever way a running session ends, by a capture in a cycle
    (one that runs through or one that breaks off later), by the timer or
    by leaving, it is stopped for good: both intervals and the position
    watch are cleared, the game screen is hidden and the end screen
    shown. *)
Theorem X20_every_ending_stops_the_session (gs : GameState) :
  isActive gs = true ->
  (forall now locations,
     ended (after (updateOtherPlayers now gs locations)) ->
     stopped (after (updateOtherPlayers now gs locations))) /\
  (forall now, ended (updateTimer now gs) -> stopped (updateTimer now gs)) /\
  (forall confirmed,
     ended (leaveGame confirmed gs) -> stopped (leaveGame confirmed gs)).
Proof.
  intros Hactive. unfold ended. split; [|split].
  - intros now locations. unfold updateOtherPlayers.
    destruct (map gs); [|cbn [after]; congruence].
    destruct (forEach_visit_prefix now locations gs [])
      as [front [back [_ Hfront]]].
    pose proof (fold_step_running now front gs [] (or_introl Hactive)) as H.
    rewrite <- Hfront in H.
    destruct (forEach (visit now) locations (gs, []))
      as [[gs1 ids1]|[gs1 ids1]]; cbn [after fst] in *;
      unfold stopped in *; simpl; intros Hend;
      (destruct H as [H|H]; [congruence | exact H]).
  - intros now. unfold updateTimer.
    destruct (Rleb _ _); [intros _; apply endGame_stopped|].
    simpl. congruence.
  - intros [|]; simpl; [intros _; apply endGame_stopped | congruence].
Qed.

Lemma X20_witness :
  (forall now locations,
     ended (after (updateOtherPlayers now hunterSession locations)) ->
     stopped (after (updateOtherPlayers now hunterSession locations))) /\
  (forall now,
     ended (updateTimer now hunterSession) ->
     stopped (updateTimer now hunterSession)) /\
  (forall confirmed,
     ended (leaveGame confirmed hunterSession) ->
     stopped (leaveGame confirmed hunterSession)).
Proof.
  apply (X20_every_ending_stops_the_session hunterSession). reflexivity.
Defined.

(** ** The display of the remaining time *)

Lemma Math_floor_IZR (z : Z) : Math_floor (IZR z) = z.
Proof.
  unfold Math_floor. symmetry. apply Int_part_spec. lra.
Qed.

Lemma Math_floor_bounds (x : R) :
  IZR (Math_floor x) <= x < IZR (Math_floor x) + 1.
Proof.
  unfold Math_floor. destruct (base_Int_part x). lra.
Qed.

Lemma padded_seconds (s : Z) :
  (0 <= s < 60)%Z -> String.length (padStart 2 "0" (toStringZ s)) = 2%nat.
Proof.
  intros H. rewrite <- (Z2Nat.id s) by lia.
  assert (Hn : (Z.to_nat s < 60)%nat) by lia.
  generalize dependent (Z.to_nat s). clear. intros n Hn.
  do 60 (destruct n as [|n]; [reflexivity|]). lia.
Qed.

(** X23. For a time that is not negative, [formatTime] writes minutes, a
    colon and seconds: the seconds are below 60 and take exactly two
    characters, and minutes and seconds together are the whole seconds of
    the time, rounded down. *)
Theorem X23_formatTime_minutes_and_seconds (milliseconds : R) :
  0 <= milliseconds ->
  exists minutes seconds : Z,
    formatTime milliseconds =
      (toStringZ minutes ++ ":" ++ padStart 2 "0" (toStringZ seconds))%string /\
    (0 <= minutes)%Z /\ (0 <= seconds < 60)%Z /\
    String.length (padStart 2 "0" (toStringZ seconds)) = 2%nat /\
    IZR (60 * minutes + seconds) <= milliseconds / 1000 <
      IZR (60 * minutes + seconds) + 1.
Proof.
  intros Hms. unfold formatTime.
  pose proof (Math_floor_bounds (milliseconds / 1000)) as Hfloor.
  set (t := Math_floor (milliseconds / 1000)) in *.
  assert (Ht : (0 <= t)%Z).
  { assert (IZR (-1) < IZR t) by lra. apply lt_IZR in H. lia. }
  exists (t / 60)%Z, (Z.rem t 60). cbv zeta.
  assert (Hrem : Z.rem t 60 = (t mod 60)%Z)
    by (apply Z.rem_mod_nonneg; lia).
  assert (Hs : (0 <= Z.rem t 60 < 60)%Z)
    by (apply Z.rem_bound_pos; lia).
  split; [reflexivity|]. split; [apply Z.div_pos; lia|].
  split; [exact Hs|]. split; [now apply padded_seconds|].
  replace (60 * (t / 60) + Z.rem t 60)%Z with t; [exact Hfloor|].
  rewrite Hrem. apply Z.div_mod. lia.
Qed.

Lemma X23_witness :
  exists minutes seconds : Z,
    formatTime 65000 =
      (toStringZ minutes ++ ":" ++ padStart 2 "0" (toStringZ seconds))%string /\
    (0 <= minutes)%Z /\ (0 <= seconds < 60)%Z /\
    String.length (padStart 2 "0" (toStringZ seconds)) = 2%nat /\
    IZR (60 * minutes + seconds) <= 65000 / 1000 <
      IZR (60 * minutes + seconds) + 1.
Proof.
  apply (X23_formatTime_minutes_and_seconds 65000). lra.
Defined.

Lemma formatTime_whole_seconds (z : Z) (x : R) :
  x / 1000 = IZR z ->
  formatTime x =
  (toStringZ (z / 60) ++ ":" ++ padStart 2 "0" (toStringZ (Z.rem z 60)))%string.
Proof.
  intros H. unfold formatTime. now rewrite H, Math_floor_IZR.
Qed.

(** ** Starting a game *)

Lemma startGame_started (now : R) (id nameValue codeValue r : string)
    (gs : GameState) :
  trim nameValue <> "" -> trim codeValue <> "" ->
  startGame now id nameValue codeValue (Some r) gs =
  mkGameState (Some id) (Some (trim nameValue)) (Some r)
    (Some (toUpperCase (trim codeValue))) true (Some now)
    (Some (0, 0)) (playerMarker gs) (accuracyCircle gs) (otherMarkers gs)
    true true (lastPosition gs) true
    (mkDom (accuracyDisplay (dom gs)) (playerCount (dom gs))
       (Some (CONFIG.GAME_DURATION - (now - now))) "timer"
       (endTitle (dom gs)) (endMessage (dom gs)) false true
       (endScreen (dom gs))).
Proof.
  intros Hname Hcode. unfold startGame. cbv zeta.
  assert (Hup : toUpperCase (trim codeValue) <> "").
  { intros H. apply (proj1 (RelayProperties.toUpperCase_empty _)) in H.
    contradiction. }
  apply String.eqb_neq in Hname, Hup. rewrite Hname, Hup.
  cbn [orb]. unfold updateTimer. cbn [startTime toNumber].
  unfold CONFIG.GAME_DURATION.
  destruct (Rleb_spec (600000 - (now - now)) 0) as [H|_]; [lra|].
  destruct (Rltb_spec (600000 - (now - now)) 60000) as [H|_]; [lra|].
  destruct (Rltb_spec (600000 - (now - now)) 180000) as [H|_]; [lra|].
  reflexivity.
Qed.

(** X21. [startGame] starts a game exactly when [validateStartButton]
    enables the start button for the same form: when the name and the
    code, trimmed, are not empty and a role is selected; otherwise it
    changes nothing.  When it starts, the session takes the trimmed name,
    the role, the trimmed code in upper case and the fresh identifier, is
    active from the present instant, has a map and both intervals, and
    shows the game screen; it keeps the own position and the markers the
    state held. *)
Theorem X21_startGame_guard_and_effect (now : R)
    (id nameValue codeValue : string) (selectedRole : option string)
    (gs : GameState) :
  let gs' := startGame now id nameValue codeValue selectedRole gs in
  (validateStartButton nameValue codeValue selectedRole = true -> gs' = gs) /\
  (validateStartButton nameValue codeValue selectedRole = false ->
   gs_playerId gs' = Some id /\
   gs_playerName gs' = Some (trim nameValue) /\
   playerRole gs' = selectedRole /\
   gs_gameCode gs' = Some (toUpperCase (trim codeValue)) /\
   isActive gs' = true /\ startTime gs' = Some now /\
   map gs' <> None /\
   updateInterval gs' = true /\ timerInterval gs' = true /\
   startScreen (dom gs') = false /\ gameScreen (dom gs') = true /\
   lastPosition gs' = lastPosition gs /\
   otherMarkers gs' = otherMarkers gs) /\
  (validateStartButton nameValue codeValue selectedRole = false <->
   trim nameValue <> "" /\ trim codeValue <> "" /\ selectedRole <> None) /\
  startGame now id " Hana " "game1 " (Some "hunter") gs =
    startGame now id "Hana" "GAME1" (Some "hunter") gs.
Proof.
  assert (Hv : validateStartButton nameValue codeValue selectedRole = false <->
               trim nameValue <> "" /\ trim codeValue <> "" /\
               selectedRole <> None).
  { unfold validateStartButton. cbv zeta.
    destruct (String.eqb_spec (trim nameValue) ""),
      (String.eqb_spec (trim codeValue) ""),
      selectedRole; simpl; split; try congruence; try tauto;
      intros _; repeat split; congruence. }
  cbv zeta. split; [|split; [|split; [exact Hv | reflexivity]]].
  - intros H.
    assert (Hn : ~ (trim nameValue <> "" /\ trim codeValue <> "" /\
                    selectedRole <> None)).
    { intros Hs. apply Hv in Hs. congruence. }
    unfold startGame. cbv zeta.
    destruct (String.eqb_spec (trim nameValue) ""); [reflexivity|].
    destruct (String.eqb_spec (toUpperCase (trim codeValue)) "") as [|Hup];
      [reflexivity|].
    destruct selectedRole; [|reflexivity].
    exfalso. apply Hn. repeat split; try assumption; [|discriminate].
    intros H0. apply Hup. rewrite H0. reflexivity.
  - intros H. apply Hv in H as [Hname [Hcode Hrole]].
    destruct selectedRole as [r|]; [clear Hrole | congruence].
    rewrite (startGame_started now id nameValue codeValue r gs Hname Hcode).
    cbn [gs_playerId gs_playerName playerRole gs_gameCode
      isActive startTime map watchId updateInterval timerInterval dom
      startScreen gameScreen lastPosition otherMarkers].
    repeat (split; [reflexivity || discriminate|]). reflexivity.
Qed.

(** The timer text of ten minutes, of one minute five and of the last
    millisecond of a minute. *)
Example formatTime_examples :
  formatTime 600000 = "10:00" /\ formatTime 65000 = "1:05" /\
  formatTime 59999 = "0:59".
Proof.
  split; [|split].
  - rewrite (formatTime_whole_seconds 600); [reflexivity | lra].
  - rewrite (formatTime_whole_seconds 65); [reflexivity | lra].
  - unfold formatTime, Math_floor.
    rewrite <- (Int_part_spec (59999 / 1000) 59) by lra. reflexivity.
Qed.

(** X22. A game started after [newGame] starts clean: it holds no marker of
    the previous game and no own position, so its cycles cannot end it by
    a capture, whatever the relay answers, until a position fix has been
    accepted. *)
Theorem X22_new_game_starts_clean (now now' : R)
    (id nameValue codeValue r : string) (gs : GameState)
    (locations : list Player) :
  trim nameValue <> "" -> trim codeValue <> "" ->
  let gs1 := startGame now id nameValue codeValue (Some r) (newGame gs) in
  otherMarkers gs1 = JsMap.empty /\
  lastPosition gs1 = None /\
  playerMarker gs1 = None /\
  startScreen (dom gs1) = false /\ endScreen (dom gs1) = false /\
  isActive gs1 = true /\
  ~ ended (after (updateOtherPlayers now' gs1 locations)).
Proof.
  intros Hname Hcode. cbv zeta.
  rewrite (startGame_started now id nameValue codeValue r (newGame gs)
             Hname Hcode).
  unfold newGame at 1 2 3 4 5 6 7 8 9.
  cbn [playerMarker accuracyCircle otherMarkers lastPosition dom
       accuracyDisplay playerCount endTitle endMessage endScreen].
  set (gs1 := mkGameState _ _ _ _ _ _ _ _ _ _ _ _ _ _ _).
  repeat (split; [reflexivity|]).
  assert (Hinv : forall l acc,
    isActive (fst acc) = true /\ lastPosition (fst acc) = None ->
    isActive (fst (fold_left (step now') l acc)) = true /\
    lastPosition (fst (fold_left (step now') l acc)) = None).
  { induction l as [|x l IH]; intros [gs2 ids] H; [exact H|].
    cbn [fold_left]. apply IH. cbn [fst] in H. destruct H as [Ha Hp].
    unfold step. destruct (visibility now' gs2 x) as [| |age];
      cbn [fst]; try tauto.
    unfold evaluateCapture.
    assert (Hpl : isActive (placeMarker x age gs2) = true /\
                  lastPosition (placeMarker x age gs2) = None).
    { unfold placeMarker.
      destruct (JsMap.get (playerId x) (otherMarkers gs2)); simpl; tauto. }
    destruct Hpl as [Ha' Hp']. rewrite Hp'. tauto. }
  unfold updateOtherPlayers. cbn [map gs1].
  destruct (forEach_visit_prefix now' locations gs1 [])
    as [front [back [_ Hfront]]].
  destruct (Hinv front (gs1, [])) as [Hact _]; [split; reflexivity|].
  rewrite <- Hfront in Hact. unfold ended.
  destruct (forEach (visit now') locations (gs1, []))
    as [[gs2 ids2]|[gs2 ids2]]; cbn [after fst] in *; simpl;
    rewrite Hact; discriminate.
Qed.

Lemma X22_witness :
  let gs1 :=
    startGame 700000 "p_n" "Hana" "GAME2" (Some "hunter")
      (newGame (endGame "victory" "You captured Alice!" hunterSession)) in
  otherMarkers gs1 = JsMap.empty /\
  lastPosition gs1 = None /\
  playerMarker gs1 = None /\
  startScreen (dom gs1) = false /\ endScreen (dom gs1) = false /\
  isActive gs1 = true /\
  ~ ended (after (updateOtherPlayers 820000 gs1 [alice; bob])).
Proof.
  apply (X22_new_game_starts_clean 700000 820000 "p_n" "Hana" "GAME2"
           "hunter" (endGame "victory" "You captured Alice!" hunterSession)
           [alice; bob]); discriminate.
Defined.

End EngineProperties.

(** * The client and the relay together *)

Module GameProperties.

(** ** The paths of the client's requests *)

Lemma pathname_updateLocation :
  Game.pathname Game.updateLocationUrl = "//updateLocation".
Proof. reflexivity. Qed.

Lemma pathname_locations (gs : Client.GameState) :
  Game.pathname (Game.locationsUrl gs) = "//locations".
Proof.
  unfold Game.locationsUrl, Client.CONFIG.BACKEND_URL, Game.pathname.
  simpl. reflexivity.
Qed.

Lemma unrouted (now : R) (st : Worker.State) (request : Worker.Request) :
  String.eqb (Worker.method request) "OPTIONS" = false ->
  Worker.isUpdate request = false ->
  Worker.isList request = false ->
  Worker.isHealth request = false ->
  let answer := Worker.handleRequest now st request in
  (Worker.status (snd answer) = 404%Z /\
   Worker.gameData (fst answer) =
     Worker.gameData (Worker.cleanOldData now st) \/
   Worker.status (snd answer) = 429%Z /\
   Worker.gameData (fst answer) = Worker.gameData st).
Proof.
  intros Hopt Hu Hl Hh. cbv zeta. unfold Worker.handleRequest.
  rewrite Hopt.
  destruct (Worker.checkRateLimit now (Worker.clientIP request)
              (Worker.rateLimitMap st)) as [ok rl].
  destruct ok; cbn [negb]; [left | right; split; reflexivity].
  unfold Worker.route.
  unfold Worker.isUpdate in Hu. unfold Worker.isList in Hl.
  unfold Worker.isHealth in Hh. rewrite Hu, Hl, Hh.
  split; reflexivity.
Qed.

(** X26. The client's own requests reach no route of the relay.
    BACKEND_URL ends in a slash and both fetches append a path that begins
    with one, so the relay reads the paths //updateLocation and
    //locations, which match neither /updateLocation nor /locations: it
    answers each 404 (or 429 when the limiter throttles it) and stores no
    record, and the cycle of the game loop that receives the answer leaves
    the session as it was.  Without the slash at the end of BACKEND_URL
    the path would be /updateLocation. *)
Theorem X26_own_requests_reach_no_route (now_relay now sent : R)
    (st : Worker.State) (origin ip query : option string)
    (gs : Client.GameState) (lat lon accuracy : R) :
  let update :=
    Game.updateLocationRequest origin ip
      (Game.updateLocationBody sent gs lat lon accuracy) in
  let list := Game.getLocationsRequest origin ip query gs in
  Worker.pathname update = "//updateLocation" /\
  Worker.pathname list = "//locations" /\
  Game.pathname
    "https://hunter-hunted-api.phil-outram.workers.dev/updateLocation" =
    "/updateLocation" /\
  (forall request, request = update \/ request = list ->
     let answer := Worker.handleRequest now_relay st request in
     (Worker.status (snd answer) = 404%Z /\
      Worker.gameData (fst answer) =
        Worker.gameData (Worker.cleanOldData now_relay st) \/
      Worker.status (snd answer) = 429%Z /\
      Worker.gameData (fst answer) = Worker.gameData st) /\
     Game.gameLoop now (Some (snd answer)) gs = gs).
Proof.
  cbv zeta.
  split; [exact pathname_updateLocation|].
  split; [exact (pathname_locations gs)|].
  split; [reflexivity|].
  intros request Hreq.
  assert (H : String.eqb (Worker.method request) "OPTIONS" = false /\
              Worker.isUpdate request = false /\
              Worker.isList request = false /\
              Worker.isHealth request = false).
  { unfold Worker.isUpdate, Worker.isList, Worker.isHealth.
    destruct Hreq as [->| ->];
      unfold Game.updateLocationRequest, Game.getLocationsRequest;
      cbn [Worker.method Worker.pathname];
      rewrite ?pathname_updateLocation, ?pathname_locations;
      repeat split; reflexivity. }
  destruct H as [Hopt [Hu [Hl Hh]]].
  pose proof (unrouted now_relay st request Hopt Hu Hl Hh) as Hans.
  cbv zeta in Hans. split; [exact Hans|].
  unfold Game.gameLoop, Game.locationsOf, Game.getLocations.
  destruct Hans as [[-> _]|[-> _]]; reflexivity.
Qed.

(** ** Answers that carry no locations *)

(** X27. The relay answers every request with one of the statuses 200,
    204, 400, 404 and 429, and a cycle of the game loop changes the session
    only for a 200 answer to a request on the route GET /locations: after a
    throttled, rejected or unrouted list request the map, the markers and
    the running game stay as they were. *)
Theorem X27_cycle_skipped_without_list_answer (now_relay now : R)
    (st : Worker.State) (request : Worker.Request) (gs : Client.GameState) :
  let answer := snd (Worker.handleRequest now_relay st request) in
  In (Worker.status answer) [200; 204; 400; 404; 429]%Z /\
  (Worker.status answer <> 200%Z ->
   Game.gameLoop now (Some answer) gs = gs) /\
  (Worker.isList request = false ->
   Game.gameLoop now (Some answer) gs = gs).
Proof.
  cbv zeta. unfold Worker.handleRequest.
  destruct (String.eqb (Worker.method request) "OPTIONS").
  { simpl. tauto. }
  destruct (Worker.checkRateLimit now_relay (Worker.clientIP request)
              (Worker.rateLimitMap st)) as [ok rl].
  destruct ok; cbn [negb]; [|simpl; tauto].
  set (st1 := Worker.cleanOldData now_relay _).
  unfold Worker.route, Worker.isList.
  destruct (String.eqb (Worker.pathname request) "/updateLocation" &&
            String.eqb (Worker.method request) "POST").
  { destruct (Worker.json request) as [data|]; [|simpl; tauto].
    destruct (Worker.accepted data) as [r|] eqn:E.
    - rewrite (WorkerFacts.handleUpdateLocation_accepted st1 data _ r E).
      simpl. tauto.
    - destruct (WorkerFacts.handleUpdateLocation_rejected st1 data
                  (Worker.origin request) E) as [msg ->].
      simpl. tauto. }
  destruct (String.eqb (Worker.pathname request) "/locations" &&
            String.eqb (Worker.method request) "GET").
  2:{ destruct (_ || _); simpl; tauto. }
  unfold Worker.handleGetLocations.
  destruct (negb (truthy (Worker.queryGameCode request))).
  { simpl. split; [tauto|]. split; [reflexivity | discriminate]. }
  destruct (JsMap.get _ (Worker.gameData st1)); cbn [snd];
    (split; [simpl; tauto|]); (split; [|discriminate]);
    intros H; now contradiction H.
Qed.

End GameProperties.
